(** * Execution engine of strawberryfields: a shallow embedding

    Source: [strawberryfields/engine.py] (classes [Result], [BaseEngine],
    [LocalEngine], [StarshipEngine]).

    Python objects that are mutated through references (Program objects,
    RegRef objects) live in explicit stores; an engine method is a
    computation in a state-and-exception monad, where a raised exception
    keeps the mutations made before it. *)

From Stdlib Require Import Ascii String.
From stdpp Require Import gmap strings list fin_maps sorting pretty.

#[local] Set Warnings "-register-all".

Local Open Scope Z_scope.
Local Open Scope string_scope.

(** ** Python values *)

(** The values that travel through the engine: [None], numbers (measured
    values; the engine only passes them on, and integers stand for them),
    strings (option values), (nested) lists, and objects the engine does not
    look into.  A numpy array is represented by its nested-list contents. *)
Inductive pyval : Type :=
| VNone
| VNum (n : Z)
| VStr (s : string)
| VList (l : list pyval)
| VObj.

(** [val is None] *)
Definition is_None (v : pyval) : bool :=
  match v with VNone => true | _ => false end.

(** [v[i]] on a list value. *)
Definition item (v : pyval) (i : nat) : option pyval :=
  match v with VList l => l !! i | _ => None end.

(** ** The two numpy functions [Result] uses *)

Module numpy.

(** [numpy.shape]: the dimensions of the array a nested list converts
    to.  This is numpy's answer for rectangular data ([rectangular] below),
    which is what samples are.  For a list whose elements do not all have
    one shape numpy's answer depends on its version (an exception from 1.24
    on); the value here has no meaning for such a list, and [Result.init]
    does not use it. *)
Fixpoint shape (v : pyval) : list nat :=
  match v with
  | VList l =>
      length l ::
        match map shape l with
        | [] => []
        | s :: ss => if forallb (fun s' => bool_decide (s' = s)) ss then s else []
        end
  | _ => []
  end.

(** [numpy.stack(arrays, 1)]: joins arrays of one shape along a new second
    axis, [result[i][j] = arrays[j][i]].  It raises ([None] here) for no
    arrays, for zero-dimensional arrays and for arrays of different
    shapes. *)
Definition stack1 (arrays : list pyval) : option pyval :=
  match arrays with
  | [] => None
  | a :: rest =>
      match shape a with
      | [] => None
      | n :: _ =>
          if forallb (fun b => bool_decide (shape b = shape a)) rest
          then Some (VList (map (fun i => VList (omap (fun b => item b i) arrays))
                              (seq 0 n)))
          else None
      end
  end.

(** The nested list is rectangular: at every level the elements have one
    shape. *)
Fixpoint rectangular (v : pyval) : bool :=
  match v with
  | VList l =>
      forallb rectangular l
      && match map shape l with
         | [] => true
         | s :: ss => forallb (fun s' => bool_decide (s' = s)) ss
         end
  | _ => true
  end.

(** Every entry is [None] or a number numpy holds as an [int64]: arrays of
    such entries are joined without a conversion of the entries.  (Rows of
    other types are converted to a common type when they are joined, an
    [int64] row and a [uint64] row to [float64].) *)
Fixpoint int64_entries (v : pyval) : bool :=
  match v with
  | VNone => true
  | VNum n => bool_decide (- 2 ^ 63 ≤ n < 2 ^ 63)
  | VList l => forallb int64_entries l
  | _ => false
  end.

End numpy.

(** ** Exceptions *)

(** The exceptions the engine raises or lets through, with their message
    where the source builds one.  The last three are not Python exceptions:
    they mark a store reference that points at no object, a wait on a
    service that sends nothing more, and a value or a call of a library
    whose outcome is left out of the model. *)
Inductive Exn : Type :=
| RuntimeError (msg : string)
| NotApplicableError (msg : string)
| NotImplementedError (msg : string)
| TypeError (msg : string)
| Exception (msg : string)
| KeyboardInterrupt
| IndexError
| KeyError (k : nat)
| ValueError (msg : string)
| InvalidReference
| WaitsForever
| Unmodelled.

(** The [TypeError] the interpreter raises for a call that does not fit the
    signature of the function called.  Its message names the function and
    the offending argument, in a wording that depends on the Python
    version; the message is not modelled and left empty. *)
Definition signature_mismatch : Exn := TypeError "".

(** ** Data model *)

(** [Dict[str, Any]]: backend options, compile options, keyword arguments. *)
Abbreviation options := (gmap string pyval).

(** References to Program objects and to RegRef objects. *)
Abbreviation ploc := nat.
Abbreviation rloc := nat.

Module Command.
(** A command pairs an operation with the RegRef objects it acts on. *)
Record t (Op : Type) : Type := mk { op : Op; reg : list rloc }.
Global Arguments mk {Op} _ _.
Global Arguments op {Op} _.
Global Arguments reg {Op} _.
End Command.

Module Program.
(** The attributes of a Program object the engine reads or sets.
    [reg_refs] maps a subsystem index to its RegRef object; the measured
    value of a RegRef object is in the RegRef store. *)
Record t (Op : Type) : Type := mk {
  name : string;
  init_num_subsystems : nat;
  backend : option string;
  reg_refs : gmap nat rloc;
  circuit : list (Command.t Op);
  locked : bool
}.
Global Arguments mk {Op} _ _ _ _ _ _.
Global Arguments name {Op} _.
Global Arguments init_num_subsystems {Op} _.
Global Arguments backend {Op} _.
Global Arguments reg_refs {Op} _.
Global Arguments circuit {Op} _.
Global Arguments locked {Op} _.

(** Modelled from the spec: [Program.lock] (program.py is not among the
    sources): once run, a program unit is locked. *)
Definition lock {Op} (p : t Op) : t Op :=
  mk (name p) (init_num_subsystems p) (backend p) (reg_refs p) (circuit p) true.

(** Modelled from the spec: [Program._clear_regrefs] (program.py is not
    among the sources): clears the measured value of each register
    reference of the unit, and nothing else.  [regs] is the RegRef
    store. *)
Definition _clear_regrefs {Op} (p : t Op) (regs : gmap rloc pyval) : gmap rloc pyval :=
  foldr (λ l regs, <[l := VNone]> regs) regs (snd <$> map_to_list (reg_refs p)).

(** [sorted(p.reg_refs)]: the subsystem indices in increasing order. *)
Definition sorted_indices {Op} (p : t Op) : list nat :=
  merge_sort (≤)%nat (elements (dom (reg_refs p))).
End Program.

Module Result.
(** Result of a quantum computation. *)
Record t (StateHandle : Type) : Type := mk {
  state : option StateHandle;
  samples : pyval
}.
Global Arguments mk {StateHandle} _ _.
Global Arguments state {StateHandle} _.
Global Arguments samples {StateHandle} _.

(** [Result.__init__].  What numpy does with samples that are not
    rectangular, and with samples of more than one dimension whose entries
    it converts when it joins them, is left out of the model. *)
Definition init {StateHandle} (samples : pyval) : Exn + t StateHandle :=
  if negb (numpy.rectangular samples) then inl Unmodelled
  else if bool_decide (1 < length (numpy.shape samples))%nat then
    if negb (numpy.int64_entries samples) then inl Unmodelled
    else
      match samples with
      | VList arrays =>
          match numpy.stack1 arrays with
          | Some stacked => inr (mk None stacked)
          | None => inl (ValueError "all input arrays must have the same shape")
          end
      | _ => inl (ValueError "all input arrays must have the same shape")
      end
  else inr (mk None samples).

Definition set_state {StateHandle} (h : StateHandle) (r : t StateHandle) : t StateHandle :=
  mk (Some h) (samples r).
End Result.

Module Job.
(** What the engine reads of a job of the remote service: the identifier
    the server assigns, and the two status flags. *)
Record t : Type := mk {
  id : option string;
  is_complete : bool;
  is_failed : bool
}.
End Job.

(** What the remote service and the user do while one job is tracked:
    the job as [create] leaves it, then for each turn of the polling loop
    either an interruption of [reload] or the reloaded job (with whether
    the following [sleep] is interrupted), and what fetching the result
    gives. *)
Inductive poll_event : Type :=
| Interrupt
| Reload (j : Job.t) (sleep_interrupted : bool).

Inductive fetch_event : Type :=
| FetchInterrupt
| Fetch (payload : pyval).

Record job_script : Type := {
  created : Job.t;
  polls : list poll_event;
  fetched : fetch_event
}.

(** [self.samples]: [None], or the iterator [map(_normalize_sample, reg_refs)]
    with the items it has not yet given out.  [_normalize_sample] is pure and
    [reg_refs] is a list built when the iterator is made, so the items are
    fixed at that point. *)
Inductive cached_samples : Type :=
| SNone
| SIter (rest : list pyval).

(** Calls that leave the engine. *)
Inductive event (Op : Type) : Type :=
| EvBeginCircuit (n : nat) (opts : options)
| EvApply (cmd : Command.t Op) (kwargs : options)
| EvBackendReset (opts : options)
| EvBackendState (modes : option (list nat)) (opts : options)
| EvCreate (content : string)
| EvReload
| EvFetch
| EvPrint (line : string).
Global Arguments EvBeginCircuit {Op} _ _.
Global Arguments EvApply {Op} _ _.
Global Arguments EvBackendReset {Op} _.
Global Arguments EvBackendState {Op} _ _.
Global Arguments EvCreate {Op} _.
Global Arguments EvReload {Op}.
Global Arguments EvFetch {Op}.
Global Arguments EvPrint {Op} _.

(** ** The collaborators of the engine *)

(** The backend, the operations and the Program methods are not part of
    [engine.py]; the engine is modelled over any implementation of them.
    [op_apply] is [cmd.op.apply(cmd.reg, backend, **kwargs)]: it changes the
    backend and may store measured values in RegRef objects, and it may
    raise. *)
Class Collaborators : Type := {
  Op : Type;
  Backend : Type;
  StateHandle : Type;
  begin_circuit : nat → options → Backend → Backend;
  backend_reset : options → Backend → Backend;
  backend_state : option (list nat) → options → Backend → StateHandle;
  op_apply : Op → list rloc → options → Backend → gmap rloc pyval →
             Backend * gmap rloc pyval * option Exn;
  op_str : Op → string;
  backend_str : Backend → string;
  kwargs_str : options → string;
  can_follow : Program.t Op → Program.t Op → bool;
  compile : string → options → Program.t Op → Exn + Program.t Op;
  get_blackbird_syntax : Program.t Op → string
}.

(** ** State *)

(** The attributes of the engine object ([backend] for a [LocalEngine],
    [jobs] for a [StarshipEngine]), the two object stores, what the remote
    service will do for the jobs still to be created, and the calls made so
    far. *)
Record state `{Collaborators} : Type := mkState {
  backend_name : string;
  backend_options : options;
  run_progs : list ploc;
  samples : cached_samples;
  backend : Backend;
  jobs : list Job.t;
  programs : gmap ploc (Program.t Op);
  regrefs : gmap rloc pyval;
  service : list job_script;
  log : list (event Op)
}.
Global Arguments mkState {_} _ _ _ _ _ _ _ _ _ _.

(** ** Computations

    A method call maps the state before the call to the state after it and
    either the value returned or the exception raised.  The state that
    comes with an exception holds every mutation made before the raise. *)
Definition M `{Collaborators} (A : Type) : Type := state → state * (Exn + A).

Definition ret `{Collaborators} {A} (a : A) : M A := λ st, (st, inr a).

Definition raise `{Collaborators} {A} (e : Exn) : M A := λ st, (st, inl e).

Definition bind `{Collaborators} {A C} (m : M A) (k : A → M C) : M C :=
  λ st, match m st with
        | (st', inr a) => k a st'
        | (st', inl e) => (st', inl e)
        end.

Definition get `{Collaborators} : M state := λ st, (st, inr st).

Definition modify `{Collaborators} (f : state → state) : M unit := λ st, (f st, inr tt).

Definition lift `{Collaborators} {A} (r : Exn + A) : M A := λ st, (st, r).

(** [try: body except KeyboardInterrupt: handler] *)
Definition except_KeyboardInterrupt `{Collaborators} {A} (body handler : M A) : M A :=
  λ st, match body st with
        | (st', inl KeyboardInterrupt) => handler st'
        | r => r
        end.

Declare Scope engine_scope.
Delimit Scope engine_scope with engine.
Notation "x <- m ;; k" := (bind m (λ x, k))
  (at level 100, m at next level, right associativity) : engine_scope.
Notation "m ;; k" := (bind m (λ _, k))
  (at level 100, right associativity) : engine_scope.
Local Open Scope engine_scope.

(** *** Attribute updates *)

Definition set_backend_options `{Collaborators} (o : options) (st : state) : state :=
  mkState (backend_name st) o (run_progs st) (samples st) (backend st) (jobs st)
          (programs st) (regrefs st) (service st) (log st).

Definition set_run_progs `{Collaborators} (l : list ploc) (st : state) : state :=
  mkState (backend_name st) (backend_options st) l (samples st) (backend st) (jobs st)
          (programs st) (regrefs st) (service st) (log st).

Definition set_samples `{Collaborators} (s : cached_samples) (st : state) : state :=
  mkState (backend_name st) (backend_options st) (run_progs st) s (backend st) (jobs st)
          (programs st) (regrefs st) (service st) (log st).

Definition set_backend `{Collaborators} (b : Backend) (st : state) : state :=
  mkState (backend_name st) (backend_options st) (run_progs st) (samples st) b (jobs st)
          (programs st) (regrefs st) (service st) (log st).

Definition set_jobs `{Collaborators} (j : list Job.t) (st : state) : state :=
  mkState (backend_name st) (backend_options st) (run_progs st) (samples st) (backend st) j
          (programs st) (regrefs st) (service st) (log st).

Definition set_programs `{Collaborators} (p : gmap ploc (Program.t Op)) (st : state) : state :=
  mkState (backend_name st) (backend_options st) (run_progs st) (samples st) (backend st)
          (jobs st) p (regrefs st) (service st) (log st).

Definition set_regrefs `{Collaborators} (r : gmap rloc pyval) (st : state) : state :=
  mkState (backend_name st) (backend_options st) (run_progs st) (samples st) (backend st)
          (jobs st) (programs st) r (service st) (log st).

Definition set_service `{Collaborators} (s : list job_script) (st : state) : state :=
  mkState (backend_name st) (backend_options st) (run_progs st) (samples st) (backend st)
          (jobs st) (programs st) (regrefs st) s (log st).

Definition emit `{Collaborators} (e : event Op) (st : state) : state :=
  mkState (backend_name st) (backend_options st) (run_progs st) (samples st) (backend st)
          (jobs st) (programs st) (regrefs st) (service st) (log st ++ [e]).

(** *** The object stores *)

(** [r.val] for the RegRef object at [l]; a RegRef object that was never
    written holds [None]. *)
Definition val (regs : gmap rloc pyval) (l : rloc) : pyval := default VNone (regs !! l).

(** The Program object a reference points at. *)
Definition deref `{Collaborators} (p : ploc) : M (Program.t Op) :=
  st <- get;;
  match programs st !! p with
  | Some P => ret P
  | None => raise InvalidReference
  end.

(** A new Program object; its reference is one not in use. *)
Definition new_program `{Collaborators} (P : Program.t Op) : M ploc :=
  st <- get;;
  let p := fresh (dom (programs st)) in
  modify (set_programs (<[p := P]> (programs st)));;
  ret p.

(** [p.compile(backend_name, **compile_options)]: the compiled program is a
    new object. *)
Definition Program_compile `{Collaborators} (p : ploc) (backend_name : string)
    (compile_options : options) : M ploc :=
  P <- deref p;;
  P' <- lift (compile backend_name compile_options P);;
  new_program P'.

(** [p.lock()] *)
Definition Program_lock `{Collaborators} (p : ploc) : M unit :=
  P <- deref p;;
  modify (λ st, set_programs (<[p := Program.lock P]> (programs st)) st).

(** [p._clear_regrefs()] *)
Definition Program_clear_regrefs `{Collaborators} (p : ploc) : M unit :=
  P <- deref p;;
  modify (λ st, set_regrefs (Program._clear_regrefs P (regrefs st)) st).

(** ** BaseEngine *)

(** What [_run_program] returns: the commands applied (local engine), or the
    samples of the job, [None] when the wait was interrupted (remote
    engine). *)
Inductive run_output `{Collaborators} : Type :=
| Applied (cmds : list (Command.t Op))
| Payload (v : pyval).

(** The class attribute and the abstract methods a subclass supplies.
    [HARDWARE_BACKENDS] is [getattr(self, "HARDWARE_BACKENDS", [])]. *)
Module EngineClass.
Record t `{Collaborators} : Type := mk {
  HARDWARE_BACKENDS : list string;
  _init_backend : nat → M unit;
  _run_program : ploc → options → M run_output
}.
Global Arguments mk {_} _ _ _.
End EngineClass.

(** [program] is one Program or a sequence of them. *)
Inductive program_arg : Type :=
| One (p : ploc)
| Many (ps : list ploc).

Module BaseEngine.

(** [BaseEngine.__init__]; the stores and the environment are given. *)
Definition init `{Collaborators} (backend : string) (backend_options : option options)
    (b : Backend) (progs : gmap ploc (Program.t Op)) (regs : gmap rloc pyval)
    (svc : list job_script) : state :=
  let backend_options := default ∅ backend_options in
  mkState backend backend_options [] SNone b [] progs regs svc [].

(** [for p in self.run_progs: p._clear_regrefs()] *)
Fixpoint clear_all `{Collaborators} (ps : list ploc) : M unit :=
  match ps with
  | [] => ret tt
  | p :: ps' => Program_clear_regrefs p;; clear_all ps'
  end.

(** [BaseEngine.reset]; [dict.update] lets the new values override. *)
Definition reset `{Collaborators} (new_options : options) : M unit :=
  modify (λ st, set_backend_options (new_options ∪ backend_options st) st);;
  st <- get;;
  clear_all (run_progs st);;
  modify (set_run_progs []);;
  modify (set_samples SNone).

(** The helper of [_run] that gives register values one shape. *)
Definition _normalize_sample (shots : Z) (val : pyval) : pyval :=
  if is_None val && bool_decide (1 < shots)
  then VList (replicate (Z.to_nat shots) VNone)
  else val.

(** [for k, v in enumerate(self.samples): p.reg_refs[k].val = v], from
    index [k] on with the items [items] left in the iterator.  Each turn
    takes one item out of the iterator before it stores it. *)
Fixpoint copy_samples `{Collaborators} (P : Program.t Op) (k : nat) (items : list pyval)
    : M unit :=
  match items with
  | [] => ret tt
  | v :: rest =>
      modify (set_samples (SIter rest));;
      match Program.reg_refs P !! k with
      | None => raise (KeyError k)
      | Some l =>
          modify (λ st, set_regrefs (<[l := v]> (regrefs st)) st);;
          copy_samples P (S k) rest
      end
  end.

(** [enumerate(self.samples)] needs an iterable. *)
Definition copy_latest `{Collaborators} (p : ploc) : M unit :=
  st <- get;;
  match samples st with
  | SNone => raise (TypeError "'NoneType' object is not iterable")
  | SIter items => P <- deref p;; copy_samples P 0 items
  end.

(** [list(self.samples)]: gives the items left and leaves the iterator
    empty. *)
Definition list_samples `{Collaborators} : M (list pyval) :=
  st <- get;;
  match samples st with
  | SNone => raise (TypeError "'NoneType' object is not iterable")
  | SIter items => modify (set_samples (SIter []));; ret items
  end.

(** [[p.reg_refs[k].val for k in sorted(p.reg_refs)]] *)
Definition register_values {Op} (P : Program.t Op) (regs : gmap rloc pyval)
    : list pyval :=
  val regs <$> omap (λ k, Program.reg_refs P !! k) (Program.sorted_indices P).

Definition register_mismatch (pos : nat) (name : string) : string :=
  "Register mismatch: program " +:+ pretty pos +:+ ", '" +:+ name +:+ "'.".

(** The body of [for p in program:] for one unit; gives the new [prev]. *)
Definition run_unit `{Collaborators} (cls : EngineClass.t) (shots : Z)
    (compile_options kwargs : options) (prev : option ploc) (p : ploc) : M ploc :=
  P <- deref p;;
  match prev with
  | None => EngineClass._init_backend cls (Program.init_num_subsystems P)
  | Some prev =>
      Pprev <- deref prev;;
      if negb (can_follow P Pprev)
      then st <- get;;
           raise (RuntimeError (register_mismatch (length (run_progs st)) (Program.name P)))
      else copy_latest p
  end;;
  st <- get;;
  p <- (if bool_decide (Program.backend P ≠ Some (backend_name st))
        then Program_compile p (backend_name st) compile_options
        else ret p);;
  Program_lock p;;
  EngineClass._run_program cls p kwargs;;
  modify (λ st, set_run_progs (run_progs st ++ [p]) st);;
  P <- deref p;;
  st <- get;;
  let reg_refs := register_values P (regrefs st) in
  modify (set_samples (SIter (_normalize_sample shots <$> reg_refs)));;
  ret p.

Fixpoint run_units `{Collaborators} (cls : EngineClass.t) (shots : Z)
    (compile_options kwargs : options) (prev : option ploc) (program : list ploc)
    : M unit :=
  match program with
  | [] => ret tt
  | p :: rest =>
      p' <- run_unit cls shots compile_options kwargs prev p;;
      run_units cls shots compile_options kwargs (Some p') rest
  end.

(** [Result(samples)] for what [_run_program] returned. *)
Definition result_of `{Collaborators} (out : run_output) : M (Result.t StateHandle) :=
  match out with
  | Payload v => lift (Result.init v)
  | Applied cmds => lift (Result.init (VList ((λ _, VObj) <$> cmds)))
  end.

(** [if not isinstance(program, Sequence): program = [program]] *)
Definition as_sequence (program : program_arg) : list ploc :=
  match program with One p => [p] | Many ps => ps end.

(** [BaseEngine._run] *)
Definition _run `{Collaborators} (cls : EngineClass.t) (program : program_arg) (shots : Z)
    (compile_options kwargs : options) : M (Result.t StateHandle) :=
  let program := as_sequence program in
  let kwargs := <["shots" := VNum shots]> kwargs in
  st <- get;;
  if bool_decide (backend_name st ∈ EngineClass.HARDWARE_BACKENDS cls) then
    p <- match program with
         | p :: _ => ret p
         | [] => raise IndexError
         end;;
    p <- Program_compile p (backend_name st) ∅;;
    Program_lock p;;
    modify (λ st, set_run_progs (run_progs st ++ [p]) st);;
    samples <- EngineClass._run_program cls p kwargs;;
    result_of samples
  else
    let prev := last (run_progs st) in
    run_units cls shots compile_options kwargs prev program;;
    items <- list_samples;;
    lift (Result.init (VList items)).

End BaseEngine.

(** ** LocalEngine *)

Module LocalEngine.

(** [LocalEngine.__init__] with the backend already loaded: [backend] is
    its short name and [b] the backend object. *)
Definition init `{Collaborators} (backend : string) (b : Backend)
    (backend_options : options) (progs : gmap ploc (Program.t Op))
    (regs : gmap rloc pyval) : state :=
  BaseEngine.init backend (Some backend_options) b progs regs [].

(** [LocalEngine.reset] *)
Definition reset `{Collaborators} (new_options : option options) : M unit :=
  let new_options := default ∅ new_options in
  BaseEngine.reset new_options;;
  modify (λ st, set_backend_options (delete "batch_size" (backend_options st)) st);;
  modify (λ st, emit (EvBackendReset (backend_options st))
                  (set_backend (backend_reset (backend_options st) (backend st)) st)).

(** [LocalEngine._init_backend] *)
Definition _init_backend `{Collaborators} (init_num_subsystems : nat) : M unit :=
  modify (λ st, emit (EvBeginCircuit init_num_subsystems (backend_options st))
                  (set_backend (begin_circuit init_num_subsystems (backend_options st)
                                  (backend st)) st)).

Definition not_applicable `{Collaborators} (o : Op) (b : Backend) : string :=
  "The operation " +:+ op_str o +:+ " cannot be used with " +:+ backend_str b +:+ ".".

Definition not_implemented `{Collaborators} (o : Op) (b : Backend) (kwargs : options)
    : string :=
  "The operation " +:+ op_str o +:+ " has not been implemented in " +:+ backend_str b
    +:+ " for the arguments " +:+ kwargs_str kwargs +:+ ".".

(** [for cmd in prog.circuit:] of [_run_program], with the commands
    applied so far. *)
Fixpoint apply_commands `{Collaborators} (cmds : list (Command.t Op)) (kwargs : options)
    (applied : list (Command.t Op)) : M (list (Command.t Op)) :=
  match cmds with
  | [] => ret applied
  | cmd :: rest =>
      st <- get;;
      let '(b, regs, raised) :=
        op_apply (Command.op cmd) (Command.reg cmd) kwargs (backend st) (regrefs st) in
      modify (λ st, emit (EvApply cmd kwargs) (set_regrefs regs (set_backend b st)));;
      match raised with
      | None => apply_commands rest kwargs (applied ++ [cmd])
      | Some (NotApplicableError _) =>
          raise (NotApplicableError (not_applicable (Command.op cmd) b))
      | Some (NotImplementedError _) =>
          raise (NotImplementedError (not_implemented (Command.op cmd) b kwargs))
      | Some e => raise e
      end
  end.

(** [LocalEngine._run_program] *)
Definition _run_program `{Collaborators} (prog : ploc) (kwargs : options) : M run_output :=
  P <- deref prog;;
  applied <- apply_commands (Program.circuit P) kwargs [];;
  ret (Applied applied).

(** The class: it has no [HARDWARE_BACKENDS] attribute. *)
Definition class `{Collaborators} : EngineClass.t :=
  EngineClass.mk [] _init_backend _run_program.

(** [LocalEngine.run]; [modes] is [None] or a sequence, and [kwargs] holds
    the keyword arguments that are not parameters of [run]. *)
Definition run `{Collaborators} (program : program_arg) (shots : Z)
    (compile_options : options) (modes : option (list nat)) (state_options : options)
    (kwargs : options) : M (Result.t StateHandle) :=
  result <- BaseEngine._run class program shots compile_options kwargs;;
  match modes with
  | Some [] => ret result
  | _ =>
      st <- get;;
      modify (emit (EvBackendState modes state_options));;
      ret (Result.set_state (backend_state modes state_options (backend st)) result)
  end.

End LocalEngine.

(** ** StarshipEngine *)

(** Text helpers of Python's [str]. *)
Module Str.

Definition newline : string := String "010"%char EmptyString.

(** The characters [str.strip] removes from an ASCII text.  (From a text
    with other characters it also removes Unicode whitespace, which is not
    modelled: the texts of the engine are taken to be ASCII.) *)
Definition is_space (c : ascii) : bool :=
  let n := nat_of_ascii c in
  ((9 <=? n) && (n <=? 13) || (28 <=? n) && (n <=? 32))%nat.

Fixpoint lstrip (s : string) : string :=
  match s with
  | String c s' => if is_space c then lstrip s' else s
  | EmptyString => EmptyString
  end.

Definition strip (s : string) : string :=
  String.rev (lstrip (String.rev (lstrip s))).

(** [s.split("\n")] *)
Fixpoint split_lines (s : string) : list string :=
  match s with
  | EmptyString => [EmptyString]
  | String c s' =>
      if bool_decide (c = "010"%char) then EmptyString :: split_lines s'
      else match split_lines s' with
           | l :: ls => String c l :: ls
           | [] => [String c EmptyString]
           end
  end.

(** ["\n".join(lines)] *)
Fixpoint join_lines (lines : list string) : string :=
  match lines with
  | [] => EmptyString
  | [l] => l
  | l :: ls => l +:+ newline +:+ join_lines ls
  end.

(** [str(v)] for the values whose text the engine needs. *)
Definition str (v : pyval) : option string :=
  match v with
  | VNone => Some "None"
  | VNum n => Some (pretty n)
  | VStr s => Some s
  | _ => None
  end.

End Str.

Module StarshipEngine.

Definition API_DEFAULT_REFRESH_SECONDS : Z := 0.
Definition HARDWARE_BACKENDS : list string := ["chip0"].

(** [StarshipEngine.__init__] *)
Definition init `{Collaborators} (b : Backend) (progs : gmap ploc (Program.t Op))
    (regs : gmap rloc pyval) (svc : list job_script) : state :=
  BaseEngine.init "chip0" None b progs regs svc.

(** [StarshipEngine.reset] *)
Definition reset `{Collaborators} (new_options : option options) : M unit :=
  let new_options := default ∅ new_options in
  BaseEngine.reset new_options;;
  modify (set_jobs []).

(** [StarshipEngine._init_backend]: does nothing. *)
Definition _init_backend `{Collaborators} (init_num_subsystems : nat) : M unit :=
  ret tt.

(** [StarshipEngine.generate_job_content] on the texts of its arguments. *)
Definition generate_job_content (target name shots blackbird_code : string) : string :=
  let template :=
    Str.newline +:+
    "            name " +:+ name +:+ Str.newline +:+
    "            version 1.0" +:+ Str.newline +:+
    "            target " +:+ target +:+ " (shots=" +:+ shots +:+ ")" +:+ Str.newline +:+
    Str.newline +:+
    "            " +:+ blackbird_code +:+ Str.newline +:+
    "        " in
  Str.join_lines (Str.strip <$> Str.split_lines (Str.strip template)).

(** [self.generate_job_content(blackbird_code=blackbird_code, **kwargs)]:
    the keyword arguments have to be [name] and [shots], no more; for other
    keyword arguments the interpreter raises a [TypeError] at the call. *)
Definition job_content_of `{Collaborators} (blackbird_code : string) (kwargs : options)
    : M string :=
  st <- get;;
  match kwargs !! "name", kwargs !! "shots" with
  | Some name, Some shots =>
      if bool_decide (size kwargs = 2%nat) then
        match Str.str name, Str.str shots with
        | Some name, Some shots =>
            ret (generate_job_content (backend_name st) name shots blackbird_code)
        | _, _ => raise Unmodelled
        end
      else raise signature_mismatch
  | _, _ => raise signature_mismatch
  end.

(** The object the local variable [job] refers to: the one appended to
    [self.jobs]. *)
Definition the_job `{Collaborators} : M Job.t :=
  st <- get;;
  match last (jobs st) with
  | Some j => ret j
  | None => raise InvalidReference
  end.

(** The fields of that object change. *)
Definition update_job `{Collaborators} (j : Job.t) : M unit :=
  modify (λ st, set_jobs (removelast (jobs st) ++ [j]) st).

(** [while not job.is_complete: job.reload(); if job.is_failed: raise ...;
    sleep(...)], against what the service and the user do. *)
Fixpoint wait `{Collaborators} (events : list poll_event) : M unit :=
  job <- the_job;;
  if Job.is_complete job then ret tt
  else match events with
       | [] => raise WaitsForever
       | Interrupt :: _ => modify (emit EvReload);; raise KeyboardInterrupt
       | Reload j sleep_interrupted :: rest =>
           modify (emit EvReload);;
           update_job j;;
           if Job.is_failed j
           then raise (Exception "The job could not be submitted or completed.")
           else if sleep_interrupted then raise KeyboardInterrupt
                else wait rest
       end.

(** [job.result.manager.get(); return job.result.result.value] *)
Definition fetch_result `{Collaborators} (f : fetch_event) : M run_output :=
  modify (emit EvFetch);;
  match f with
  | FetchInterrupt => raise KeyboardInterrupt
  | Fetch payload => ret (Payload payload)
  end.

(** The handler of [except KeyboardInterrupt:]. *)
Definition interrupted `{Collaborators} : M run_output :=
  job <- the_job;;
  match Job.id job with
  | Some id =>
      modify (emit (EvPrint ("Job " +:+ id +:+ " is queued in the background.")));;
      ret (Payload VNone)
  | None => raise (Exception "Job could not be sent to server, please try again later.")
  end.

(** [StarshipEngine._run_program] *)
Definition _run_program `{Collaborators} (program : ploc) (kwargs : options)
    : M run_output :=
  P <- deref program;;
  let blackbird_code := get_blackbird_syntax P in
  job_content <- job_content_of blackbird_code kwargs;;
  st <- get;;
  match jobs st with
  | _ :: _ =>
      raise (TypeError "A job is already queued. Please reset the engine and try again.")
  | [] =>
      match service st with
      | [] => raise WaitsForever
      | script :: later =>
          modify (λ st, emit (EvCreate job_content) (set_service later st));;
          modify (λ st, set_jobs (jobs st ++ [created script]) st);;
          except_KeyboardInterrupt
            (wait (polls script);; fetch_result (fetched script))
            interrupted
      end
  end.

Definition class `{Collaborators} : EngineClass.t :=
  EngineClass.mk HARDWARE_BACKENDS _init_backend _run_program.

(** [name or str(uuid.uuid4())]; [uuid] is the text of the identifier
    drawn. *)
Definition name_or (uuid : string) (name : option string) : string :=
  match name with
  | Some n => if bool_decide (n = "") then uuid else n
  | None => uuid
  end.

(** [StarshipEngine.run]; [kwargs] holds the keyword arguments that are
    parameters neither of [run] nor of [_run]. *)
Definition run `{Collaborators} (uuid : string) (program : program_arg) (shots : Z)
    (name : option string) (kwargs : options) : M (Result.t StateHandle) :=
  let name := name_or uuid name in
  BaseEngine._run class program shots ∅ (<["name" := VStr name]> kwargs).

End StarshipEngine.

(** ** A small simulator

    An implementation of the collaborators on which the engine can be run:
    the backend state is the number of subsystems of the circuit, and an
    operation is a measurement with a known outcome. *)
Module Sim.

Inductive op : Type :=
| Measure (v : pyval)   (** stores [v] in every RegRef it is applied to *)
| MeasureShots (n : Z)  (** stores [n], once per shot when [shots > 1] *)
| Gate                  (** changes no RegRef *)
| Unsupported.          (** raises [NotApplicableError] *)

Definition store (regs : gmap rloc pyval) (ls : list rloc) (v : pyval) : gmap rloc pyval :=
  foldr (λ l regs, <[l := v]> regs) regs ls.

Definition apply (o : op) (reg : list rloc) (kwargs : options) (b : nat)
    (regs : gmap rloc pyval) : nat * gmap rloc pyval * option Exn :=
  match o with
  | Measure v => (b, store regs reg v, None)
  | MeasureShots n =>
      match kwargs !! "shots" with
      | Some (VNum s) =>
          if bool_decide (1 < s)
          then (b, store regs reg (VList (replicate (Z.to_nat s) (VNum n))), None)
          else (b, store regs reg (VNum n), None)
      | _ => (b, regs, Some (TypeError "shots"))
      end
  | Gate => (b, regs, None)
  | Unsupported => (b, regs, Some (NotApplicableError ""))
  end.

Definition follows (p prev : Program.t op) : bool :=
  bool_decide (Program.init_num_subsystems p = size (Program.reg_refs prev)).

Definition compile_for (backend : string) (_ : options) (p : Program.t op)
    : Exn + Program.t op :=
  inr (Program.mk (Program.name p) (Program.init_num_subsystems p) (Some backend)
         (Program.reg_refs p) (Program.circuit p) false).

#[local] Instance collaborators : Collaborators := {
  Op := op;
  Backend := nat;
  StateHandle := nat;
  begin_circuit n _ _ := n;
  backend_reset _ _ := 0%nat;
  backend_state _ _ b := b;
  op_apply := apply;
  op_str _ := "op";
  backend_str _ := "sim";
  kwargs_str _ := "{}";
  can_follow := follows;
  compile := compile_for;
  get_blackbird_syntax p := Program.name p
}.

(** Unit [A], on register objects 0 and 1, measures subsystem 0 to 3. *)
Definition unitA : Program.t op :=
  Program.mk "A" 2 (Some "sim") {[0%nat := 0%nat; 1%nat := 1%nat]}
    [Command.mk (Measure (VNum 3)) [0%nat]] false.

(** Unit [B], on register objects 2 and 3 of its own, has no command. *)
Definition unitB : Program.t op :=
  Program.mk "B" 2 (Some "sim") {[0%nat := 2%nat; 1%nat := 3%nat]} [] false.

(** Unit [C] has three subsystems: it cannot follow [A]. *)
Definition unitC : Program.t op :=
  Program.mk "C" 3 (Some "sim") {[0%nat := 4%nat; 1%nat := 5%nat; 2%nat := 6%nat]}
    [Command.mk Gate [4%nat]] false.

(** Unit [D] continues [A] on the RegRef objects of [A] (as a unit built
    from [A] that shares its registers does), and has no command. *)
Definition unitD : Program.t op :=
  Program.mk "D" 2 (Some "sim") {[0%nat := 0%nat; 1%nat := 1%nat]} [] false.

(** Unit [E] measures subsystem 0 to 5 in every shot. *)
Definition unitE : Program.t op :=
  Program.mk "E" 2 (Some "sim") {[0%nat := 7%nat; 1%nat := 8%nat]}
    [Command.mk (MeasureShots 5) [7%nat]] false.

Definition units : gmap ploc (Program.t op) :=
  {[0%nat := unitA; 1%nat := unitB; 2%nat := unitC; 3%nat := unitD; 4%nat := unitE]}.

(** Raw samples of two registers with three trials each. *)
Definition two_by_three : pyval :=
  VList [VList [VNum 1; VNum 2; VNum 3]; VList [VNum 4; VNum 5; VNum 6]].

(** A local engine that has run nothing. *)
Definition fresh_local : state := LocalEngine.init "sim" 0%nat ∅ units ∅.

(** Jobs of the remote service: queued, failed and complete. *)
Definition queued : Job.t := Job.mk (Some "42") false false.
Definition failed : Job.t := Job.mk (Some "42") false true.
Definition complete : Job.t := Job.mk (Some "42") true false.
Definition unacknowledged : Job.t := Job.mk None false false.

(** The job is queued, still queued at the first reload, failed at the
    second. *)
Definition failing : job_script :=
  {| created := queued;
     polls := [Reload queued false; Reload failed false];
     fetched := Fetch VNone |}.

(** The user interrupts the wait during the second reload. *)
Definition interrupted : job_script :=
  {| created := queued;
     polls := [Reload queued false; Interrupt];
     fetched := Fetch VNone |}.

(** The user interrupts before the server has acknowledged the job. *)
Definition interrupted_early : job_script :=
  {| created := unacknowledged; polls := [Interrupt]; fetched := Fetch VNone |}.

(** The job is complete as soon as it is created. *)
Definition ready : job_script :=
  {| created := complete; polls := []; fetched := Fetch (VList [VNum 1; VNum 2]) |}.

(** A remote engine that has run nothing, in front of a service. *)
Definition fresh_remote (svc : list job_script) : state :=
  StarshipEngine.init 0%nat units ∅ svc.

(** Runs with no option of the caller's: [_run] of the local engine, and
    [run] of the remote engine with one shot and the name drawn. *)
Definition local_run (program : program_arg) (shots : Z) : M (Result.t nat) :=
  BaseEngine._run LocalEngine.class program shots ∅ ∅.

Definition remote_run (program : program_arg) : M (Result.t nat) :=
  StarshipEngine.run "u" program 1 None ∅.

(** The remote engine after an interrupted run, with the job
    outstanding. *)
Definition busy : state := (remote_run (One 0) (fresh_remote [interrupted; ready])).1.

(** The local engine after a run of unit [A]. *)
Definition used : state := (local_run (One 0) 1 fresh_local).1.

(** Unit [A] compiled for the remote backend. *)
Definition unitA_chip0 : Program.t op :=
  Program.mk "A" 2 (Some "chip0") {[0%nat := 0%nat; 1%nat := 1%nat]}
    [Command.mk (Measure (VNum 3)) [0%nat]] false.

(** Unit [H], on the register objects of [A] and [D], measures both
    subsystems to 3. *)
Definition unitH : Program.t op :=
  Program.mk "H" 2 (Some "sim") {[0%nat := 0%nat; 1%nat := 1%nat]}
    [Command.mk (Measure (VNum 3)) [0%nat; 1%nat]] false.

(** A local engine that has run nothing, with [H] as object 5 besides the
    others. *)
Definition fresh_local_H : state :=
  LocalEngine.init "sim" 0%nat ∅ (<[5%nat := unitH]> units) ∅.

(** Unit [F] has two subsystems at the start, so it can follow [A], but its
    register 1 has been deleted. *)
Definition unitF : Program.t op :=
  Program.mk "F" 2 (Some "sim") {[0%nat := 9%nat]} [] false.

(** Unit [G] has an operation the backend does not support, between two
    gates. *)
Definition unitG : Program.t op :=
  Program.mk "G" 2 (Some "sim") {[0%nat := 10%nat; 1%nat := 11%nat]}
    [Command.mk Gate [10%nat]; Command.mk Unsupported [11%nat];
     Command.mk Gate [10%nat]] false.

(** A local engine that has run nothing, with the units [F] and [G] as
    objects 5 and 6 besides the others. *)
Definition workshop : state :=
  LocalEngine.init "sim" 0%nat ∅ (<[5%nat := unitF]> (<[6%nat := unitG]> units)) ∅.

(** That engine in the middle of a call, between unit [A] and the next
    unit: the values of [A] are in the cached samples. *)
Definition between : state :=
  (BaseEngine.run_unit LocalEngine.class 1 ∅ (<["shots" := VNum 1]> ∅) None 0%nat
     workshop).1.

(** A local engine of another backend than the one the units are bound
    to. *)
Definition fresh_other : state := LocalEngine.init "other" 0%nat ∅ units ∅.


End Sim.

(** ** Vocabulary of the properties *)

(** [f] reads a part of the state that [m] leaves as it is, whether [m]
    returns or raises. *)
Definition preserves `{Collaborators} {X A} (f : state → X) (m : M A) : Prop :=
  ∀ st st' r, m st = (st', r) → f st' = f st.

(** Every reference of the run history points at a Program object. *)
Definition history_valid `{Collaborators} (st : state) : Prop :=
  Forall (λ p, is_Some (programs st !! p)) (run_progs st).

(** The state in which the hardware path calls [_run_program]: the first
    unit compiled into a new object, that object locked and appended to the
    run history. *)
Definition recorded `{Collaborators} (st : state) (P' : Program.t Op) : state :=
  let p' := fresh (dom (programs st)) in
  set_run_progs (run_progs st ++ [p'])
    (set_programs (<[p' := Program.lock P']> (<[p' := P']> (programs st))) st).

(** A turn of the polling loop after which the job is still pending and
    the wait goes on. *)
Definition pending (e : poll_event) : Prop :=
  match e with
  | Reload j false => Job.is_complete j = false ∧ Job.is_failed j = false
  | _ => False
  end.

(** [interrupts job events f j]: while a job in state [job] is tracked, the
    service and the user doing [events] and [f], the wait is interrupted,
    at a moment when the job is in state [j].  The interruption comes
    during a reload, during a sleep after a reload that shows no failure,
    or while the result of a complete job is fetched. *)
Inductive interrupts : Job.t → list poll_event → fetch_event → Job.t → Prop :=
| interrupts_reload job rest f :
    Job.is_complete job = false →
    interrupts job (Interrupt :: rest) f job
| interrupts_sleep job j rest f :
    Job.is_complete job = false → Job.is_failed j = false →
    interrupts job (Reload j true :: rest) f j
| interrupts_fetch job events :
    Job.is_complete job = true →
    interrupts job events FetchInterrupt job
| interrupts_later job j rest f j' :
    Job.is_complete job = false → Job.is_failed j = false →
    interrupts j rest f j' →
    interrupts job (Reload j false :: rest) f j'.

(** The three errors of the remote strategy. *)
Definition job_failed : Exn := Exception "The job could not be submitted or completed.".
Definition job_not_sent : Exn :=
  Exception "Job could not be sent to server, please try again later.".
Definition job_queued : Exn :=
  TypeError "A job is already queued. Please reset the engine and try again.".

(** The keyword arguments [StarshipEngine.run] passes on when the caller
    gives none of their own. *)
Definition run_kwargs (name : string) (shots : Z) : options :=
  <["shots" := VNum shots]> (<["name" := VStr name]> ∅).

(** The job description a run of the remote engine sends. *)
Definition job_content_sent `{Collaborators} (uuid : string) (name : option string)
    (shots : Z) (P' : Program.t Op) : string :=
  StarshipEngine.generate_job_content "chip0" (StarshipEngine.name_or uuid name)
    (pretty shots) (get_blackbird_syntax (Program.lock P')).

(** The register counts with which the circuit of the backend was
    initialised, in the order of the calls. *)
Definition initialisations {Op} (calls : list (event Op)) : list nat :=
  omap (λ e, match e with EvBeginCircuit n _ => Some n | _ => None end) calls.

(** A register value with one entry per shot. *)
Definition has_entries (n : nat) (v : pyval) : Prop :=
  ∃ l, v = VList l ∧ length l = n.

(** Before the unit is compiled: the backend is initialised, or the unit
    is checked against the previous one and takes over its values. *)
Definition enter `{Collaborators} (prev : option ploc) (p : ploc) (P : Program.t Op) : M unit :=
  match prev with
  | None => LocalEngine._init_backend (Program.init_num_subsystems P)
  | Some prev =>
      Pprev <- deref prev;;
      if negb (can_follow P Pprev)
      then st <- get;;
           raise (RuntimeError (BaseEngine.register_mismatch (length (run_progs st))
                                  (Program.name P)))
      else BaseEngine.copy_latest p
  end.

(** From the compilation on. *)
Definition execute `{Collaborators} (shots : Z) (co kw : options) (p : ploc) (P : Program.t Op)
    : M ploc :=
  st <- get;;
  p <- (if bool_decide (Program.backend P ≠ Some (backend_name st))
        then Program_compile p (backend_name st) co
        else ret p);;
  Program_lock p;;
  LocalEngine._run_program p kw;;
  modify (λ st, set_run_progs (run_progs st ++ [p]) st);;
  P <- deref p;;
  st <- get;;
  let reg_refs := BaseEngine.register_values P (regrefs st) in
  modify (set_samples (SIter (BaseEngine._normalize_sample shots <$> reg_refs)));;
  ret p.

(** ** The rest of the engine *)

(** [for k, r in enumerate(self.run_progs):] of [print_applied], from index
    [k] on.  [print_fn] is [print], and [program_lines] gives the lines
    [r.print(print_fn)] prints ([Program.print] is not in [engine.py]). *)
Fixpoint print_runs `{Collaborators} (program_lines : Program.t Op → list string)
    (k : nat) (runs : list ploc) : M unit :=
  match runs with
  | [] => ret tt
  | r :: rest =>
      modify (emit (EvPrint ("Run " +:+ pretty k +:+ ":")));;
      R <- deref r;;
      modify (λ st, foldl (λ st line, emit (EvPrint line) st) st (program_lines R));;
      print_runs program_lines (S k) rest
  end.

(** [BaseEngine.print_applied] *)
Definition print_applied `{Collaborators} (program_lines : Program.t Op → list string)
    : M unit :=
  st <- get;;
  print_runs program_lines 0 (run_progs st).

(** [len(v)] *)
Definition len (v : pyval) : Exn + nat :=
  match v with
  | VList l => inr (length l)
  | VNone => inl (TypeError "object of type 'NoneType' has no len()")
  | VNum _ => inl (TypeError "object of type 'int' has no len()")
  | VStr _ | VObj => inl Unmodelled
  end.

(** [Result.__str__]; [state_text] and [samples_text] give [str] of a state
    object and of the samples, which [engine.py] does not define. *)
Definition Result_str {StateHandle} (state_text : StateHandle → string)
    (samples_text : pyval → string) (r : Result.t StateHandle) : Exn + string :=
  match len (Result.samples r) with
  | inl e => inl e
  | inr n =>
      inr ("Result: " +:+ pretty n +:+ " subsystems, state: "
           +:+ from_option state_text "None" (Result.state r) +:+ Str.newline
           +:+ " samples: " +:+ samples_text (Result.samples r))
  end.

(** ** Vocabulary of the further properties *)

(** Every state [m] can end in is related by [R] to the state it started
    in, whether [m] returns or raises. *)
Definition steps `{Collaborators} {A} (R : state → state → Prop) (m : M A) : Prop :=
  ∀ st st' r, m st = (st', r) → R st st'.

(** Every unit of the run history is a locked Program object. *)
Definition history_locked `{Collaborators} (st : state) : Prop :=
  Forall (λ p, ∃ P, programs st !! p = Some P ∧ Program.locked P = true) (run_progs st).

(** The Program store only gains objects, and a locked object stays
    locked. *)
Definition store_grows `{Collaborators} (st st' : state) : Prop :=
  ∀ q Q, programs st !! q = Some Q →
         ∃ Q', programs st' !! q = Some Q'
               ∧ (Program.locked Q = true → Program.locked Q' = true).

(** The computation returned a value: it did not raise. *)
Definition returns {A} (r : Exn + A) : Prop :=
  match r with inr _ => True | inl _ => False end.

(** The part of the state [f] reads is as it was. *)
Definition untouched `{Collaborators} {X} (f : state → X) (st st' : state) : Prop :=
  f st' = f st.

(** The run history and the log only grow. *)
Definition history_grows `{Collaborators} (st st' : state) : Prop :=
  ∃ added, run_progs st' = (run_progs st ++ added)%list.

Definition log_grows `{Collaborators} (st st' : state) : Prop :=
  ∃ calls, log st' = (log st ++ calls)%list.

(** What [LocalEngine._run_program] raises when the operation of [cmd] has
    raised [e] on backend [b]. *)
Definition reraised `{Collaborators} (cmd : Command.t Op) (b : Backend) (kwargs : options)
    (e : Exn) : Exn :=
  match e with
  | NotApplicableError _ =>
      NotApplicableError (LocalEngine.not_applicable (Command.op cmd) b)
  | NotImplementedError _ =>
      NotImplementedError (LocalEngine.not_implemented (Command.op cmd) b kwargs)
  | e => e
  end.

(** The calls [print_applied] makes for the units [runs], numbered from
    [k]. *)
Fixpoint printed {Op} (program_lines : Program.t Op → list string) (k : nat)
    (runs : list (Program.t Op)) : list (event Op) :=
  match runs with
  | [] => []
  | R :: rest =>
      (EvPrint ("Run " +:+ pretty k +:+ ":") :: (EvPrint <$> program_lines R)
         ++ printed program_lines (S k) rest)%list
  end.

(** The names of the parameters of [StarshipEngine.run] and of [_run]: a
    keyword argument of one of these names is bound by the call (or makes
    it fail at once) and is not among the keyword arguments passed on. *)
Definition run_parameters : list string :=
  ["self"; "program"; "shots"; "name"; "compile_options"].

(** The text is ASCII. *)
Fixpoint ascii_text (s : string) : bool :=
  match s with
  | EmptyString => true
  | String c s' => (nat_of_ascii c <? 128)%nat && ascii_text s'
  end.

(** [s.rstrip()] *)
Definition rstrip (s : string) : string := String.rev (Str.lstrip (String.rev s)).

(** The text has no line break. *)
Definition one_line (s : string) : Prop := Str.split_lines s = [s].

(** The lines of a job description, before the whitespace around each is
    removed: the name, the version, the target with the number of shots
    and, unless the code is blank, an empty line and the code without its
    trailing whitespace. *)
Definition job_lines (target name shots blackbird_code : string) : list string :=
  (Str.split_lines ("name " +:+ name)
   ++ "version 1.0"
   :: Str.split_lines ("target " +:+ target +:+ " (shots=" +:+ shots +:+ ")")
   ++ (if bool_decide (rstrip blackbird_code = "") then []
       else "" :: Str.split_lines (rstrip blackbird_code)))%list.

(** * Properties *)

Local Open Scope nat_scope.
Local Open Scope list_scope.

(** ** Reasoning about computations *)

Section Computations.
Context `{Collaborators}.

Lemma bind_inr {A C} (m : M A) (k : A → M C) st st' c :
  bind m k st = (st', inr c) →
  ∃ st1 a, m st = (st1, inr a) ∧ k a st1 = (st', inr c).
Proof.
  unfold bind. destruct (m st) as [st1 [e|a]] eqn:Hm; intros Hk.
  - discriminate.
  - eauto.
Qed.

Lemma bind_inv {A C} (m : M A) (k : A → M C) st st' r :
  bind m k st = (st', r) →
  (∃ e, m st = (st', inl e) ∧ r = inl e)
  ∨ ∃ st1 a, m st = (st1, inr a) ∧ k a st1 = (st', r).
Proof.
  unfold bind. destruct (m st) as [st1 [e1|a]] eqn:Hm; intros Hk.
  - left. exists e1. split; congruence.
  - right. eauto.
Qed.

Lemma bind_cong {A C} (m m' : M A) (k : A → M C) st st0 :
  m st = m' st0 → bind m k st = bind m' k st0.
Proof. unfold bind. intros ->. reflexivity. Qed.

Lemma bind_ok {A C} (m : M A) (k : A → M C) st st1 a :
  m st = (st1, inr a) → bind m k st = k a st1.
Proof. unfold bind. intros ->. reflexivity. Qed.

Lemma bind_raises {A C} (m : M A) (k : A → M C) st st1 e :
  m st = (st1, inl e) → bind m k st = (st1, inl e).
Proof. unfold bind. intros ->. reflexivity. Qed.

Lemma preserves_ret {X A} (f : state → X) (a : A) : preserves f (ret a).
Proof. intros st st' r [= <- _]. reflexivity. Qed.

Lemma preserves_raise {X A} (f : state → X) e : preserves f (raise (A:=A) e).
Proof. intros st st' r [= <- _]. reflexivity. Qed.

Lemma preserves_lift {X A} (f : state → X) (x : Exn + A) : preserves f (lift x).
Proof. intros st st' r [= <- _]. reflexivity. Qed.

Lemma preserves_get {X} (f : state → X) : preserves f get.
Proof. intros st st' r [= <- _]. reflexivity. Qed.

Lemma preserves_modify {X} (f : state → X) g :
  (∀ st, f (g st) = f st) → preserves f (modify g).
Proof. intros Hg st st' r [= <- _]. apply Hg. Qed.

Lemma preserves_bind {X A C} (f : state → X) (m : M A) (k : A → M C) :
  preserves f m → (∀ a, preserves f (k a)) → preserves f (bind m k).
Proof.
  intros Hm Hk st st' r. unfold bind.
  destruct (m st) as [st1 [e|a]] eqn:E.
  - intros [= <- _]. eapply Hm, E.
  - intros Hr. rewrite (Hk _ _ _ _ Hr). eapply Hm, E.
Qed.

Lemma preserves_except {X A} (f : state → X) (body handler : M A) :
  preserves f body → preserves f handler →
  preserves f (except_KeyboardInterrupt body handler).
Proof.
  intros Hb Hh st st' r. unfold except_KeyboardInterrupt.
  destruct (body st) as [st1 [e|a]] eqn:E.
  - destruct e; try (intros [= <- _]; eapply Hb, E).
    intros Hr. rewrite (Hh _ _ _ Hr). eapply Hb, E.
  - intros [= <- _]. eapply Hb, E.
Qed.

End Computations.

(** Splits a frame goal along the structure of the computation; [side]
    proves that an update leaves the observed part alone. *)
Ltac frame_step side :=
  lazymatch goal with
  | |- preserves _ (ret _) => apply preserves_ret
  | |- preserves _ (raise _) => apply preserves_raise
  | |- preserves _ (lift _) => apply preserves_lift
  | |- preserves _ get => apply preserves_get
  | |- preserves _ (modify _) => apply preserves_modify; intros ?; side
  | |- preserves _ (except_KeyboardInterrupt _ _) => apply preserves_except
  | |- preserves _ (bind _ _) => apply preserves_bind; [| intros ?; cbv beta]
  | |- preserves _ (match ?x with _ => _ end) => destruct x
  end.
Ltac frame_with side := repeat first [ assumption | frame_step side ].
Ltac frame := frame_with reflexivity.

Section Frames.
Context `{Collaborators}.

Lemma deref_preserves {X} (f : state → X) p : preserves f (deref p).
Proof. unfold deref. frame. Qed.

Lemma deref_inr p st st' P :
  deref p st = (st', inr P) → st' = st ∧ programs st !! p = Some P.
Proof.
  unfold deref, bind, get. destruct (programs st !! p); cbn; intros [= ]; subst; auto.
Qed.

Lemma deref_ok p st P : programs st !! p = Some P → deref p st = (st, inr P).
Proof. unfold deref, bind, get. intros ->. reflexivity. Qed.

(** What compiling, locking and clearing leave alone. *)
Lemma compile_preserves {X} (f : state → X) p name opts :
  (∀ m st, f (set_programs m st) = f st) → preserves f (Program_compile p name opts).
Proof.
  intros Hf. unfold Program_compile, new_program.
  repeat first [ apply deref_preserves | frame_step ltac:(apply Hf) ].
Qed.

Lemma lock_preserves {X} (f : state → X) p :
  (∀ m st, f (set_programs m st) = f st) → preserves f (Program_lock p).
Proof.
  intros Hf. unfold Program_lock.
  repeat first [ apply deref_preserves | frame_step ltac:(apply Hf) ].
Qed.

End Frames.

(** ** Reset *)

Section Reset.
Context `{Collaborators}.

Lemma val_insert regs l v l' :
  val (<[l := v]> regs) l' = if decide (l = l') then v else val regs l'.
Proof.
  unfold val. rewrite lookup_insert. destruct (decide (l = l')); reflexivity.
Qed.

Lemma val_clear_list regs (ls : list rloc) l :
  val (foldr (λ l regs, <[l := VNone]> regs) regs ls) l
  = if decide (l ∈ ls) then VNone else val regs l.
Proof.
  induction ls as [|l0 ls IH]; cbn.
  - destruct (decide (l ∈ [])) as [Hin|]; [by apply elem_of_nil in Hin | done].
  - rewrite val_insert, IH.
    destruct (decide (l0 = l)) as [->|Hne].
    + rewrite decide_True by (apply elem_of_cons; auto). done.
    + destruct (decide (l ∈ ls)) as [Hin|Hin].
      * rewrite decide_True by (apply elem_of_cons; auto). done.
      * rewrite decide_False; [done|].
        intros [->|?]%elem_of_cons; done.
Qed.

(** A cleared unit reports no value on each of its registers; the other
    RegRef objects keep their value. *)
Lemma clear_regrefs_val (P : Program.t Op) regs l :
  val (Program._clear_regrefs P regs) l
  = if decide (l ∈ (snd <$> map_to_list (Program.reg_refs P))) then VNone else val regs l.
Proof. apply val_clear_list. Qed.

Lemma clear_regrefs_own (P : Program.t Op) regs k l :
  Program.reg_refs P !! k = Some l → val (Program._clear_regrefs P regs) l = VNone.
Proof.
  intros Hk. rewrite clear_regrefs_val, decide_True; [done|].
  apply list_elem_of_fmap. exists (k, l). split; [done|].
  by apply elem_of_map_to_list.
Qed.

Lemma clear_regrefs_None_or_same (P : Program.t Op) regs l :
  val (Program._clear_regrefs P regs) l = VNone
  ∨ val (Program._clear_regrefs P regs) l = val regs l.
Proof. rewrite clear_regrefs_val. destruct (decide _); auto. Qed.

Lemma Program_clear_regrefs_ok p P st :
  programs st !! p = Some P →
  Program_clear_regrefs p st
  = (set_regrefs (Program._clear_regrefs P (regrefs st)) st, inr tt).
Proof.
  intros HP. unfold Program_clear_regrefs.
  rewrite (bind_ok _ _ _ _ _ (deref_ok _ _ _ HP)). reflexivity.
Qed.

Lemma clear_all_spec ps st :
  Forall (λ p, is_Some (programs st !! p)) ps →
  ∃ R, BaseEngine.clear_all ps st = (set_regrefs R st, inr tt)
       ∧ (∀ l, val R l = VNone ∨ val R l = val (regrefs st) l)
       ∧ (∀ p P k l, p ∈ ps → programs st !! p = Some P →
                     Program.reg_refs P !! k = Some l → val R l = VNone).
Proof.
  revert st. induction ps as [|p ps IH]; intros st Hv.
  - exists (regrefs st). split; [|split].
    + destruct st; reflexivity.
    + auto.
    + intros p P k l Hin. by apply elem_of_nil in Hin.
  - apply Forall_cons in Hv as [[P HP] Hv].
    set (st1 := set_regrefs (Program._clear_regrefs P (regrefs st)) st).
    destruct (IH st1) as (R & HR & Hsame & Hclr); [exact Hv|].
    exists R. split; [|split].
    + cbn [BaseEngine.clear_all].
      rewrite (bind_ok _ _ _ _ _ (Program_clear_regrefs_ok _ _ _ HP)). exact HR.
    + intros l. destruct (Hsame l) as [?|Hl]; [auto|].
      rewrite Hl. apply clear_regrefs_None_or_same.
    + intros q Q k l [->|Hin]%elem_of_cons HQ Hk.
      * assert (Q = P) as -> by congruence.
        destruct (Hsame l) as [?|Hl]; [done|].
        rewrite Hl. eapply clear_regrefs_own, Hk.
      * eapply (Hclr q Q k l Hin); [exact HQ | exact Hk].
Qed.

(** The state [BaseEngine.reset] leaves. *)
Lemma BaseEngine_reset_spec new_options st :
  history_valid st →
  ∃ R, BaseEngine.reset new_options st
       = (set_samples SNone (set_run_progs []
            (set_regrefs R (set_backend_options (new_options ∪ backend_options st) st))),
          inr tt)
       ∧ (∀ p P k l, p ∈ run_progs st → programs st !! p = Some P →
                     Program.reg_refs P !! k = Some l → val R l = VNone).
Proof.
  intros Hv.
  destruct (clear_all_spec (run_progs st)
              (set_backend_options (new_options ∪ backend_options st) st) Hv)
    as (R & HR & _ & Hclr).
  exists R. split; [|exact Hclr].
  unfold BaseEngine.reset, bind at 1, modify at 1.
  unfold bind at 1, get at 1. cbn [run_progs set_backend_options].
  unfold bind at 1. cbn [run_progs set_backend_options] in HR. rewrite HR.
  reflexivity.
Qed.

(** What a reset of the remote engine leaves alone. *)
Lemma reset_frame new_options st :
  history_valid st →
  ∃ st2, StarshipEngine.reset new_options st = (st2, inr tt)
         ∧ jobs st2 = [] ∧ backend_name st2 = backend_name st
         ∧ programs st2 = programs st ∧ service st2 = service st
         ∧ log st2 = log st.
Proof.
  intros Hv.
  destruct (BaseEngine_reset_spec (default ∅ new_options) st Hv) as (R & HR & _).
  eexists. split.
  - unfold StarshipEngine.reset. cbv zeta.
    rewrite (bind_ok _ _ _ _ _ HR). reflexivity.
  - cbn. repeat split.
Qed.

End Reset.

Section ResetContract.
Context `{Collaborators}.

(** C8 (as amended): after a reset of either engine the run history is
    empty, the cached samples are cleared, every register of every unit of
    the former history reports no value, and no Program object is changed
    (register structure and commands are as before).  The caller's options
    override the stored ones; the local engine then drops the
    [batch_size] option. *)
Theorem reset_contract (new_options : option options) st :
  history_valid st →
  ∃ stL stS,
    LocalEngine.reset new_options st = (stL, inr tt)
    ∧ StarshipEngine.reset new_options st = (stS, inr tt)
    ∧ backend_options stS = default ∅ new_options ∪ backend_options st
    ∧ backend_options stL
      = delete "batch_size" (default ∅ new_options ∪ backend_options st)
    ∧ (∀ key v, default ∅ new_options !! key = Some v →
         backend_options stS !! key = Some v
         ∧ (key ≠ "batch_size" → backend_options stL !! key = Some v))
    ∧ jobs stS = []
    ∧ ∀ st', st' = stL ∨ st' = stS →
        run_progs st' = [] ∧ samples st' = SNone ∧ programs st' = programs st
        ∧ ∀ p P k l, p ∈ run_progs st → programs st !! p = Some P →
                     Program.reg_refs P !! k = Some l → val (regrefs st') l = VNone.
Proof.
  intros Hv.
  destruct (BaseEngine_reset_spec (default ∅ new_options) st Hv) as (R & HR & Hclr).
  eexists _, _. split; [|split].
  - unfold LocalEngine.reset. cbv zeta.
    rewrite (bind_ok _ _ _ _ _ HR). reflexivity.
  - unfold StarshipEngine.reset. cbv zeta.
    rewrite (bind_ok _ _ _ _ _ HR). reflexivity.
  - cbn. split; [reflexivity|]. split; [reflexivity|]. split.
    + intros key v Hkey. split.
      * by apply lookup_union_Some_l.
      * intros Hne. rewrite lookup_delete_ne by done. by apply lookup_union_Some_l.
    + split; [reflexivity|].
      intros st' [-> | ->]; cbn; repeat split; exact Hclr.
Qed.

End ResetContract.

(** ** The hardware path of [_run] *)

Section Hardware.
Context `{Collaborators}.

Lemma Program_compile_ok p P P' name opts st :
  programs st !! p = Some P → compile name opts P = inr P' →
  Program_compile p name opts st
  = (set_programs (<[fresh (dom (programs st)) := P']> (programs st)) st,
     inr (fresh (dom (programs st)))).
Proof.
  intros HP Hc. unfold Program_compile.
  rewrite (bind_ok _ _ _ _ _ (deref_ok _ _ _ HP)). rewrite Hc. reflexivity.
Qed.

Lemma Program_lock_ok p P st :
  programs st !! p = Some P →
  Program_lock p st = (set_programs (<[p := Program.lock P]> (programs st)) st, inr tt).
Proof.
  intros HP. unfold Program_lock.
  rewrite (bind_ok _ _ _ _ _ (deref_ok _ _ _ HP)). reflexivity.
Qed.

(** The reference a compiled unit gets is not the one of a unit in the
    store. *)
Lemma fresh_ploc_ne (m : gmap ploc (Program.t Op)) p :
  is_Some (m !! p) → p ≠ fresh (dom m).
Proof.
  intros Hp ->. apply elem_of_dom in Hp. by apply is_fresh in Hp.
Qed.

Lemma run_hardware cls program p ps shots co kw st P P' :
  backend_name st ∈ EngineClass.HARDWARE_BACKENDS cls →
  BaseEngine.as_sequence program = p :: ps →
  programs st !! p = Some P →
  compile (backend_name st) ∅ P = inr P' →
  BaseEngine._run cls program shots co kw st
  = (out <- EngineClass._run_program cls (fresh (dom (programs st)))
              (<["shots" := VNum shots]> kw);;
     BaseEngine.result_of out) (recorded st P').
Proof.
  intros Hhw Hseq HP Hc. unfold BaseEngine._run. cbv zeta. rewrite Hseq.
  unfold bind at 1, get at 1. rewrite bool_decide_true by exact Hhw.
  unfold bind at 1, ret at 1.
  rewrite (bind_ok _ _ _ _ _ (Program_compile_ok _ _ _ _ _ _ HP Hc)).
  erewrite bind_ok; [|apply Program_lock_ok; cbn; apply lookup_insert_eq].
  reflexivity.
Qed.

End Hardware.

(** ** The remote strategy *)

Section Remote.
Context `{Collaborators}.

Lemma job_content_of_run code name shots st :
  StarshipEngine.job_content_of code (run_kwargs name shots) st
  = (st, inr (StarshipEngine.generate_job_content (backend_name st) name
                (pretty shots) code)).
Proof.
  unfold StarshipEngine.job_content_of, run_kwargs, bind, get.
  rewrite lookup_insert_ne by done. rewrite !lookup_insert_eq.
  rewrite bool_decide_true; [reflexivity|].
  rewrite map_size_insert_None by (rewrite lookup_insert_ne by done; apply lookup_empty).
  rewrite map_size_insert_None by apply lookup_empty.
  reflexivity.
Qed.

(** [_run_program] touches neither the run history nor the stores. *)
Lemma wait_preserves {X} (f : state → X) events :
  (∀ j st, f (set_jobs j st) = f st) → (∀ e st, f (emit e st) = f st) →
  preserves f (StarshipEngine.wait events).
Proof.
  intros Hj He. induction events as [|e events IH]; cbn [StarshipEngine.wait].
  - unfold StarshipEngine.the_job. frame.
  - unfold StarshipEngine.the_job, StarshipEngine.update_job.
    repeat first [ assumption | frame_step ltac:(first [apply Hj | apply He]) ].
Qed.

Lemma starship_run_program_preserves {X} (f : state → X) p kw :
  (∀ j st, f (set_jobs j st) = f st) → (∀ e st, f (emit e st) = f st) →
  (∀ s st, f (set_service s st) = f st) →
  preserves f (StarshipEngine._run_program p kw).
Proof.
  intros Hj He Hs.
  unfold StarshipEngine._run_program, StarshipEngine.job_content_of,
    StarshipEngine.fetch_result, StarshipEngine.interrupted, StarshipEngine.the_job.
  repeat first [ apply deref_preserves
               | apply wait_preserves; assumption
               | frame_step ltac:(first [apply Hj | apply He | rewrite He; apply Hs]) ].
Qed.

Lemma result_of_preserves {X} (f : state → X) out :
  preserves f (BaseEngine.result_of out).
Proof. unfold BaseEngine.result_of. frame. Qed.

(** The duplicate check comes before any call to the service. *)
Lemma starship_run_program_queued p P kw content st :
  programs st !! p = Some P →
  StarshipEngine.job_content_of (get_blackbird_syntax P) kw st = (st, inr content) →
  jobs st ≠ [] →
  StarshipEngine._run_program p kw st = (st, inl job_queued).
Proof.
  intros HP Hc Hj. unfold StarshipEngine._run_program.
  rewrite (bind_ok _ _ _ _ _ (deref_ok _ _ _ HP)). cbv zeta.
  rewrite (bind_ok _ _ _ _ _ Hc).
  unfold bind, get. destruct (jobs st); [done | reflexivity].
Qed.

(** With no job outstanding the job is created and tracked. *)
Lemma starship_run_program_submits p P kw content st script later :
  programs st !! p = Some P →
  StarshipEngine.job_content_of (get_blackbird_syntax P) kw st = (st, inr content) →
  jobs st = [] → service st = script :: later →
  StarshipEngine._run_program p kw st
  = except_KeyboardInterrupt
      (StarshipEngine.wait (polls script);; StarshipEngine.fetch_result (fetched script))
      StarshipEngine.interrupted
      (set_jobs [created script] (emit (EvCreate content) (set_service later st))).
Proof.
  intros HP Hc Hj Hs. unfold StarshipEngine._run_program.
  rewrite (bind_ok _ _ _ _ _ (deref_ok _ _ _ HP)). cbv zeta.
  rewrite (bind_ok _ _ _ _ _ Hc).
  unfold bind at 1, get at 1. rewrite Hj, Hs.
  unfold bind at 1, modify at 1. unfold bind at 1, modify at 1.
  cbn [jobs emit set_service]. rewrite Hj. reflexivity.
Qed.

End Remote.

Section Tracking.
Context `{Collaborators}.

Lemma the_job_ok st j : jobs st = [j] → StarshipEngine.the_job st = (st, inr j).
Proof. unfold StarshipEngine.the_job, bind, get. intros ->. reflexivity. Qed.

(** One pending turn of the polling loop. *)
Lemma wait_pending_turn j0 j rest st :
  jobs st = [j0] → Job.is_complete j0 = false → Job.is_failed j = false →
  StarshipEngine.wait (Reload j false :: rest) st
  = StarshipEngine.wait rest (set_jobs [j] (emit EvReload st)).
Proof.
  intros Hj Hc Hf. cbn [StarshipEngine.wait].
  rewrite (bind_ok _ _ _ _ _ (the_job_ok _ _ Hj)). rewrite Hc.
  unfold bind at 1, modify at 1. unfold StarshipEngine.update_job.
  unfold bind at 1, modify at 1. cbn [jobs emit]. rewrite Hj, Hf. reflexivity.
Qed.

(** A job that fails during polling: the error is raised with the job
    still in [self.jobs]. *)
Lemma wait_fails quiet j si rest f : ∀ st j0,
  Forall pending quiet → Job.is_failed j = true →
  jobs st = [j0] → Job.is_complete j0 = false →
  ∃ st', except_KeyboardInterrupt
           (StarshipEngine.wait (quiet ++ Reload j si :: rest);;
            StarshipEngine.fetch_result f)
           StarshipEngine.interrupted st
         = (st', inl job_failed)
         ∧ jobs st' = [j].
Proof.
  induction quiet as [|e quiet IH]; intros st j0 Hq Hf Hj Hc.
  - eexists. cbn [app]. unfold except_KeyboardInterrupt.
    rewrite (bind_raises _ _ st (set_jobs [j] (emit EvReload st)) job_failed).
    + split; reflexivity.
    + cbn [StarshipEngine.wait].
      rewrite (bind_ok _ _ _ _ _ (the_job_ok _ _ Hj)). rewrite Hc.
      unfold bind at 1, modify at 1. unfold StarshipEngine.update_job.
      unfold bind at 1, modify at 1. cbn [jobs emit]. rewrite Hj, Hf. reflexivity.
  - apply Forall_cons in Hq as [He Hq].
    destruct e as [|j1 [|]]; try done. destruct He as [Hc1 Hf1].
    destruct (IH (set_jobs [j1] (emit EvReload st)) j1 Hq Hf eq_refl Hc1)
      as (st' & Hst' & Hjobs).
    exists st'. split; [|exact Hjobs].
    rewrite <- Hst'. unfold except_KeyboardInterrupt, bind.
    cbn [app]. rewrite (wait_pending_turn j0 j1 _ st Hj Hc Hf1). reflexivity.
Qed.

(** An interrupted wait ends in the handler, with the job as it was at
    the interruption still in [self.jobs]. *)
Lemma wait_interrupted job events f j :
  interrupts job events f j → ∀ st, jobs st = [job] →
  ∃ st', (StarshipEngine.wait events;; StarshipEngine.fetch_result f) st
         = (st', inl KeyboardInterrupt)
         ∧ jobs st' = [j].
Proof.
  induction 1 as [job rest f Hc | job j rest f Hc Hf | job events Hc
                 | job j rest f j' Hc Hf Hint IH]; intros st Hj.
  - eexists. split.
    + apply bind_raises. cbn [StarshipEngine.wait].
      rewrite (bind_ok _ _ _ _ _ (the_job_ok _ _ Hj)). rewrite Hc. reflexivity.
    + exact Hj.
  - eexists. split.
    + apply bind_raises. cbn [StarshipEngine.wait].
      rewrite (bind_ok _ _ _ _ _ (the_job_ok _ _ Hj)). rewrite Hc.
      unfold bind at 1, modify at 1. unfold StarshipEngine.update_job.
      unfold bind at 1, modify at 1. rewrite Hf. reflexivity.
    + cbn. rewrite Hj. reflexivity.
  - eexists. split.
    + assert (StarshipEngine.wait events st = (st, inr tt)) as Hw.
      { destruct events; cbn [StarshipEngine.wait];
          rewrite (bind_ok _ _ _ _ _ (the_job_ok _ _ Hj)); rewrite Hc; reflexivity. }
      rewrite (bind_ok _ _ _ _ _ Hw). reflexivity.
    + exact Hj.
  - destruct (IH (set_jobs [j] (emit EvReload st)) eq_refl) as (st' & Hst' & Hjobs).
    exists st'. split; [|exact Hjobs].
    rewrite <- Hst'. unfold bind.
    rewrite (wait_pending_turn job j _ st Hj Hc Hf). reflexivity.
Qed.

(** Every wait that ends in the handler is one of those. *)
Lemma interrupted_only_so events f : ∀ st st' job,
  jobs st = [job] →
  (StarshipEngine.wait events;; StarshipEngine.fetch_result f) st
  = (st', inl KeyboardInterrupt) →
  ∃ j, interrupts job events f j ∧ jobs st' = [j].
Proof.
  assert (∀ events st st' job,
            jobs st = [job] → Job.is_complete job = true →
            (StarshipEngine.wait events;; StarshipEngine.fetch_result f) st
            = (st', inl KeyboardInterrupt) →
            ∃ j, interrupts job events f j ∧ jobs st' = [j]) as Hdone.
  { intros evs st st' job Hj Hc.
    assert (StarshipEngine.wait evs st = (st, inr tt)) as Hw.
    { destruct evs; cbn [StarshipEngine.wait];
        rewrite (bind_ok _ _ _ _ _ (the_job_ok _ _ Hj)); rewrite Hc; reflexivity. }
    rewrite (bind_ok _ _ _ _ _ Hw). unfold StarshipEngine.fetch_result, bind, modify.
    destruct f; [|discriminate]. intros [= <-].
    exists job. split; [by apply interrupts_fetch | exact Hj]. }
  induction events as [|e events IH]; intros st st' job Hj.
  - destruct (Job.is_complete job) eqn:Hc; [by apply Hdone|].
    unfold bind at 1. cbn [StarshipEngine.wait].
    rewrite (bind_ok _ _ _ _ _ (the_job_ok _ _ Hj)), Hc. discriminate.
  - destruct (Job.is_complete job) eqn:Hc; [by apply Hdone|].
    destruct e as [|j si].
    + unfold bind at 1. cbn [StarshipEngine.wait].
      rewrite (bind_ok _ _ _ _ _ (the_job_ok _ _ Hj)), Hc. intros [= <-].
      exists job. split; [by apply interrupts_reload | exact Hj].
    + destruct (Job.is_failed j) eqn:Hf.
      * unfold bind at 1. cbn [StarshipEngine.wait].
        rewrite (bind_ok _ _ _ _ _ (the_job_ok _ _ Hj)), Hc.
        unfold bind at 1, modify at 1. unfold StarshipEngine.update_job.
        unfold bind at 1, modify at 1. rewrite Hf. discriminate.
      * destruct si.
        -- unfold bind at 1. cbn [StarshipEngine.wait].
           rewrite (bind_ok _ _ _ _ _ (the_job_ok _ _ Hj)), Hc.
           unfold bind at 1, modify at 1. unfold StarshipEngine.update_job.
           unfold bind at 1, modify at 1. rewrite Hf. intros [= <-].
           exists j. split; [by apply interrupts_sleep|]. cbn. by rewrite Hj.
        -- unfold bind at 1. rewrite (wait_pending_turn job j _ st Hj Hc Hf).
           intros Hrest.
           destruct (IH (set_jobs [j] (emit EvReload st)) st' j eq_refl Hrest)
             as (j' & Hint & Hj').
           exists j'. split; [by apply interrupts_later | exact Hj'].
Qed.

(** Whatever the service does, one tracked job stays the one job of
    [self.jobs], and the calls made are added to the log. *)
Lemma wait_tracks events : ∀ st st' r j0,
  jobs st = [j0] → StarshipEngine.wait events st = (st', r) →
  ∃ j evs, jobs st' = [j] ∧ log st' = log st ++ evs.
Proof.
  induction events as [|e events IH]; intros st st' r j0 Hj;
    cbn [StarshipEngine.wait]; rewrite (bind_ok _ _ _ _ _ (the_job_ok _ _ Hj)).
  - destruct (Job.is_complete j0); intros [= <- _];
      exists j0, []; rewrite app_nil_r; auto.
  - destruct (Job.is_complete j0).
    { intros [= <- _]. exists j0, []. rewrite app_nil_r. auto. }
    destruct e as [|j si].
    + intros [= <- _]. exists j0, [EvReload]. auto.
    + unfold bind at 1, modify at 1. unfold StarshipEngine.update_job.
      unfold bind at 1, modify at 1. cbn [jobs emit]. rewrite Hj. cbn [removelast app].
      destruct (Job.is_failed j).
      { intros [= <- _]. exists j, [EvReload]. auto. }
      destruct si.
      { intros [= <- _]. exists j, [EvReload]. auto. }
      intros Hw.
      destruct (IH (set_jobs [j] (emit EvReload st)) _ _ j eq_refl Hw)
        as (j' & evs & Hj' & Hlog).
      exists j', (EvReload :: evs). split; [exact Hj'|].
      rewrite Hlog. cbn [log emit set_jobs]. rewrite <- app_assoc. reflexivity.
Qed.

Lemma preserves_tracked {X} (f : state → X) script :
  (∀ j st, f (set_jobs j st) = f st) → (∀ e st, f (emit e st) = f st) →
  preserves f
    (except_KeyboardInterrupt
       (StarshipEngine.wait (polls script);;
        StarshipEngine.fetch_result (fetched script))
       StarshipEngine.interrupted).
Proof.
  intros Hj He.
  unfold StarshipEngine.fetch_result, StarshipEngine.interrupted, StarshipEngine.the_job.
  repeat first [ apply wait_preserves; assumption
               | frame_step ltac:(first [apply Hj | apply He]) ].
Qed.

Lemma tracked_job script st st' r j0 :
  jobs st = [j0] →
  except_KeyboardInterrupt
    (StarshipEngine.wait (polls script);; StarshipEngine.fetch_result (fetched script))
    StarshipEngine.interrupted st = (st', r) →
  ∃ j evs, jobs st' = [j] ∧ log st' = log st ++ evs.
Proof.
  intros Hj. unfold except_KeyboardInterrupt, bind at 1.
  destruct (StarshipEngine.wait (polls script) st) as [st1 [e|[]]] eqn:Hw;
    destruct (wait_tracks _ _ _ _ _ Hj Hw) as (j & evs & Hj1 & Hlog1).
  - assert (∀ st2 r2, StarshipEngine.interrupted st1 = (st2, r2) →
                      ∃ j evs, jobs st2 = [j] ∧ log st2 = log st ++ evs) as Hint.
    { intros st2 r2. unfold StarshipEngine.interrupted.
      rewrite (bind_ok _ _ _ _ _ (the_job_ok _ _ Hj1)).
      destruct (Job.id j).
      - intros [= <- _]. eexists j, _. cbn. rewrite Hlog1, <- app_assoc. eauto.
      - intros [= <- _]. eauto. }
    destruct e; try (intros [= <- _]; eauto). apply Hint.
  - assert (∀ st2 r2, StarshipEngine.interrupted (emit EvFetch st1) = (st2, r2) →
                      ∃ j evs, jobs st2 = [j] ∧ log st2 = log st ++ evs) as Hint.
    { intros st2 r2. unfold StarshipEngine.interrupted.
      rewrite (bind_ok _ _ (emit EvFetch st1) _ j) by (apply the_job_ok; exact Hj1).
      destruct (Job.id j); intros [= <- _]; eexists j, _; cbn;
        rewrite Hlog1, <- ?app_assoc; eauto. }
    unfold StarshipEngine.fetch_result, bind, modify.
    destruct (fetched script); cbn.
    + apply Hint.
    + intros [= <- _]. eexists j, _. cbn. rewrite Hlog1, <- app_assoc. eauto.
Qed.

End Tracking.

(** ** Runs of the remote engine *)

Section RemoteRuns.
Context `{Collaborators}.

Lemma recorded_lookup st P' :
  programs (recorded st P') !! fresh (dom (programs st)) = Some (Program.lock P').
Proof. cbn. apply lookup_insert_eq. Qed.

Lemma recorded_lookup_old st P' p P :
  programs st !! p = Some P → programs (recorded st P') !! p = Some P.
Proof.
  intros HP. cbn. assert (p ≠ fresh (dom (programs st))) by (by apply fresh_ploc_ne).
  rewrite !lookup_insert_ne by done. exact HP.
Qed.

Lemma recorded_valid st P' : history_valid st → history_valid (recorded st P').
Proof.
  unfold history_valid. intros Hv. cbn [run_progs recorded set_run_progs].
  apply Forall_app. split.
  - eapply Forall_impl; [exact Hv|]. intros p [P HP].
    exists P. by apply recorded_lookup_old.
  - apply Forall_singleton. eexists. apply recorded_lookup.
Qed.

(** A run of the remote engine is [_run_program] on the recorded unit. *)
Lemma starship_run_eq uuid program p ps shots name st P P' :
  backend_name st = "chip0" →
  BaseEngine.as_sequence program = p :: ps →
  programs st !! p = Some P →
  compile "chip0" ∅ P = inr P' →
  StarshipEngine.run uuid program shots name ∅ st
  = (out <- StarshipEngine._run_program (fresh (dom (programs st)))
              (run_kwargs (StarshipEngine.name_or uuid name) shots);;
     BaseEngine.result_of out) (recorded st P').
Proof.
  intros Hn Hseq HP Hc. unfold StarshipEngine.run. cbv zeta.
  erewrite run_hardware; [reflexivity| |exact Hseq|exact HP|rewrite Hn; exact Hc].
  rewrite Hn. cbn. apply list_elem_of_singleton. reflexivity.
Qed.

Lemma recorded_job_content uuid name shots st P' :
  backend_name st = "chip0" →
  StarshipEngine.job_content_of (get_blackbird_syntax (Program.lock P'))
    (run_kwargs (StarshipEngine.name_or uuid name) shots) (recorded st P')
  = (recorded st P', inr (job_content_sent uuid name shots P')).
Proof.
  intros Hn. rewrite job_content_of_run. cbn [backend_name recorded set_run_progs
    set_programs]. rewrite Hn. reflexivity.
Qed.

End RemoteRuns.

Section RemoteClaims.
Context `{Collaborators}.
Variables (uuid : string) (program : program_arg) (p : ploc) (ps : list ploc).
Variables (shots : Z) (name : option string) (st : state) (P P' : Program.t Op).
Hypothesis Hbackend : backend_name st = "chip0".
Hypothesis Hprogram : BaseEngine.as_sequence program = p :: ps.
Hypothesis Hunit : programs st !! p = Some P.
Hypothesis Hcompile : compile "chip0" ∅ P = inr P'.

Let p' : ploc := fresh (dom (programs st)).
Let kwargs : options := run_kwargs (StarshipEngine.name_or uuid name) shots.

(** C10: on the hardware path the first unit is compiled, locked and
    appended to the run history before [_run_program] is entered, where the
    duplicate check and the submission are; so whatever that call does,
    also when it raises, the locked unit is in the run history
    afterwards. *)
Theorem hardware_unit_recorded_before_submission :
  StarshipEngine.run uuid program shots name ∅ st
  = (out <- StarshipEngine._run_program p' kwargs;; BaseEngine.result_of out)
      (recorded st P')
  ∧ run_progs (recorded st P') = run_progs st ++ [p']
  ∧ programs (recorded st P') !! p' = Some (Program.lock P')
  ∧ jobs (recorded st P') = jobs st
  ∧ service (recorded st P') = service st
  ∧ log (recorded st P') = log st
  ∧ ∀ st' r, StarshipEngine.run uuid program shots name ∅ st = (st', r) →
      run_progs st' = run_progs st ++ [p']
      ∧ ∃ Q, programs st' !! p' = Some Q ∧ Program.locked Q = true.
Proof.
  split; [by eapply starship_run_eq|].
  split; [reflexivity|]. split; [apply recorded_lookup|].
  split; [reflexivity|]. split; [reflexivity|]. split; [reflexivity|].
  intros st' r. erewrite starship_run_eq by eassumption. intros Hrun.
  assert (∀ {X} (f : state → X),
            (∀ j s, f (set_jobs j s) = f s) → (∀ e s, f (emit e s) = f s) →
            (∀ v s, f (set_service v s) = f s) →
            f st' = f (recorded st P')) as Hframe.
  { intros X f Hj He Hs. revert Hrun. apply preserves_bind.
    - by apply starship_run_program_preserves.
    - intros out. apply result_of_preserves. }
  split.
  - apply (Hframe _ run_progs); reflexivity.
  - exists (Program.lock P'). split; [|reflexivity].
    rewrite (Hframe _ programs) by reflexivity. apply recorded_lookup.
Qed.

(** C6: while a job is outstanding a run raises the duplicate-submission
    error and makes no call to the service (the log, the jobs and the
    service are as before); after [reset] the set of jobs is empty and the
    same run creates a job at the service and tracks it, and returns the
    payload of a job that is complete. *)
Theorem duplicate_submission_rejected :
  history_valid st → jobs st ≠ [] →
  ∃ st1,
    StarshipEngine.run uuid program shots name ∅ st = (st1, inl job_queued)
    ∧ log st1 = log st ∧ service st1 = service st ∧ jobs st1 = jobs st
    ∧ ∀ new_options, ∃ st2,
        StarshipEngine.reset new_options st1 = (st2, inr tt)
        ∧ jobs st2 = []
        ∧ ∀ script later st3 r,
            service st = script :: later →
            StarshipEngine.run uuid program shots name ∅ st2 = (st3, r) →
            (∃ content j evs,
                log st3 = log st ++ EvCreate content :: evs
                ∧ jobs st3 = [j] ∧ service st3 = later)
            ∧ ∀ payload,
                Job.is_complete (created script) = true →
                fetched script = Fetch payload →
                r = Result.init payload.
Proof.
  intros Hvalid Hjobs. exists (recorded st P').
  split; [|split; [reflexivity|split; [reflexivity|split; [reflexivity|]]]].
  { erewrite starship_run_eq by eassumption.
    apply bind_raises. eapply starship_run_program_queued.
    - apply recorded_lookup.
    - by apply recorded_job_content.
    - exact Hjobs. }
  intros new_options.
  destruct (reset_frame new_options (recorded st P')) as (st2 & Hreset & Hst2).
  { by apply recorded_valid. }
  destruct Hst2 as (Hj2 & Hn2 & Hp2 & Hs2 & Hl2).
  exists st2. split; [exact Hreset|]. split; [exact Hj2|].
  intros script later st3 r Hservice.
  assert (programs st2 !! p = Some P) as Hunit2.
  { rewrite Hp2. by apply recorded_lookup_old. }
  erewrite starship_run_eq;
    [|by rewrite Hn2|exact Hprogram|exact Hunit2|exact Hcompile].
  rewrite (bind_cong _ _ _ _ _
             (starship_run_program_submits _ (Program.lock P') _
                (job_content_sent uuid name shots P') (recorded st2 P') script later
                (recorded_lookup _ _)
                (recorded_job_content _ _ _ _ _ (eq_trans Hn2 Hbackend))
                Hj2 (eq_trans Hs2 Hservice))).
  set (st0 := set_jobs [created script] (emit _ (set_service later (recorded st2 P')))).
  intros Hrun. split.
  - apply bind_inv in Hrun as [(e & Hrun & _)|(s & out & Hrun & Hres)].
    + destruct (tracked_job script st0 st3 _ (created script) eq_refl Hrun)
        as (j & evs & Hj3 & Hl3).
      exists (job_content_sent uuid name shots P'), j, evs.
      split; [|split; [exact Hj3|]].
      * rewrite Hl3. cbn. rewrite Hl2. cbn. rewrite <- app_assoc. reflexivity.
      * revert Hrun. apply (preserves_tracked service); reflexivity.
    + destruct (tracked_job script st0 s _ (created script) eq_refl Hrun)
        as (j & evs & Hj3 & Hl3).
      assert (st3 = s) as ->.
      { destruct out; cbn in Hres; unfold lift in Hres; congruence. }
      exists (job_content_sent uuid name shots P'), j, evs.
      split; [|split; [exact Hj3|]].
      * rewrite Hl3. cbn. rewrite Hl2. cbn. rewrite <- app_assoc. reflexivity.
      * revert Hrun. apply (preserves_tracked service); reflexivity.
  - intros payload Hdone Hfetch. revert Hrun. unfold bind, except_KeyboardInterrupt.
    assert (StarshipEngine.wait (polls script) st0 = (st0, inr tt)) as ->.
    { destruct (polls script); cbn [StarshipEngine.wait];
        rewrite (bind_ok _ _ _ _ _ (the_job_ok st0 _ eq_refl)); rewrite Hdone;
        reflexivity. }
    rewrite Hfetch. cbn. unfold lift. congruence.
Qed.

(** The run once the job is created: the tracked wait, then [Result]. *)
Lemma starship_run_tracked script later :
  jobs st = [] → service st = script :: later →
  StarshipEngine.run uuid program shots name ∅ st
  = (out <- except_KeyboardInterrupt
              (StarshipEngine.wait (polls script);;
               StarshipEngine.fetch_result (fetched script))
              StarshipEngine.interrupted;;
     BaseEngine.result_of out)
      (set_jobs [created script]
         (emit (EvCreate (job_content_sent uuid name shots P'))
            (set_service later (recorded st P')))).
Proof.
  intros Hjobs Hservice. erewrite starship_run_eq by eassumption.
  apply bind_cong.
  apply (starship_run_program_submits _ (Program.lock P')).
  - apply recorded_lookup.
  - by apply recorded_job_content.
  - exact Hjobs.
  - exact Hservice.
Qed.

(** C5 (as amended): when the job fails during polling the run raises the
    submission/completion error, and the failed job is still in the set of
    outstanding jobs; [reset] empties that set. *)
Theorem failed_job_stays_outstanding script later quiet j si rest :
  history_valid st →
  jobs st = [] → service st = script :: later →
  Job.is_complete (created script) = false →
  polls script = quiet ++ Reload j si :: rest →
  Forall pending quiet → Job.is_failed j = true →
  ∃ st',
    StarshipEngine.run uuid program shots name ∅ st = (st', inl job_failed)
    ∧ jobs st' = [j]
    ∧ ∀ new_options, ∃ st2,
        StarshipEngine.reset new_options st' = (st2, inr tt) ∧ jobs st2 = [].
Proof.
  intros Hvalid Hjobs Hservice Hpending Hpolls Hquiet Hfailed.
  rewrite (starship_run_tracked script later Hjobs Hservice). rewrite Hpolls.
  set (st0 := set_jobs _ _).
  destruct (wait_fails quiet j si rest (fetched script) st0 (created script)
              Hquiet Hfailed eq_refl Hpending) as (st' & Hwait & Hj').
  exists st'. split; [by apply bind_raises|]. split; [exact Hj'|].
  intros new_options.
  destruct (reset_frame new_options st') as (st2 & Hreset & Hj2 & _).
  - assert (run_progs st' = run_progs (recorded st P')) as Hr.
    { change (run_progs st' = run_progs st0). revert Hwait.
      rewrite <- Hpolls. apply (preserves_tracked run_progs); reflexivity. }
    assert (programs st' = programs (recorded st P')) as Hp.
    { change (programs st' = programs st0). revert Hwait.
      rewrite <- Hpolls. apply (preserves_tracked programs); reflexivity. }
    unfold history_valid. rewrite Hr, Hp. by apply recorded_valid.
  - exists st2. auto.
Qed.

(** C7: when the wait is interrupted and the job has an identifier, the
    run returns (a result without samples) instead of raising, the job is
    still in the set of outstanding jobs and its identifier is printed;
    when the job has no identifier the run raises the hard error. *)
Theorem interrupted_wait script later j :
  jobs st = [] → service st = script :: later →
  interrupts (created script) (polls script) (fetched script) j →
  ∃ st',
    jobs st' = [j]
    ∧ match Job.id j with
      | Some id =>
          StarshipEngine.run uuid program shots name ∅ st
          = (st', inr (Result.mk None VNone))
          ∧ last (log st')
            = Some (EvPrint ("Job " +:+ id +:+ " is queued in the background."))
      | None =>
          StarshipEngine.run uuid program shots name ∅ st = (st', inl job_not_sent)
      end.
Proof.
  intros Hjobs Hservice Hint.
  rewrite (starship_run_tracked script later Hjobs Hservice).
  set (st0 := set_jobs _ _).
  destruct (wait_interrupted _ _ _ _ Hint st0 eq_refl) as (st1 & Hwait & Hj1).
  assert (except_KeyboardInterrupt
            (StarshipEngine.wait (polls script);;
             StarshipEngine.fetch_result (fetched script))
            StarshipEngine.interrupted st0
          = StarshipEngine.interrupted st1) as Hcaught.
  { unfold except_KeyboardInterrupt. rewrite Hwait. reflexivity. }
  assert (StarshipEngine.interrupted st1
          = match Job.id j with
            | Some id =>
                (emit (EvPrint ("Job " +:+ id +:+ " is queued in the background."))
                   st1, inr (Payload VNone))
            | None => (st1, inl job_not_sent)
            end) as Hhandler.
  { unfold StarshipEngine.interrupted.
    rewrite (bind_ok _ _ _ _ _ (the_job_ok _ _ Hj1)).
    destruct (Job.id j); reflexivity. }
  rewrite Hhandler in Hcaught.
  destruct (Job.id j) as [id|].
  - exists (emit (EvPrint ("Job " +:+ id +:+ " is queued in the background.")) st1).
    split; [|split].
    + exact Hj1.
    + rewrite (bind_ok _ _ _ _ _ Hcaught). reflexivity.
    + cbn. apply last_snoc.
  - exists st1. split; [exact Hj1 | by apply bind_raises].
Qed.

End RemoteClaims.

(** ** The layout of the samples of a [Result] *)

Section Layout.

Lemma shape_list l :
  numpy.shape (VList l)
  = length l :: match map numpy.shape l with
                | [] => []
                | s :: ss => if forallb (λ s', bool_decide (s' = s)) ss then s else []
                end.
Proof. reflexivity. Qed.

(** An array of more than one dimension is a non-empty list of arrays of
    one shape. *)
Lemma shape_inner raw n inner :
  numpy.shape raw = n :: inner → inner ≠ [] →
  ∃ a l, raw = VList (a :: l) ∧ length (a :: l) = n
         ∧ Forall (λ b, numpy.shape b = inner) (a :: l).
Proof.
  destruct raw as [| | |l|]; try discriminate.
  rewrite shape_list. intros [= Hn Hin] Hne.
  destruct l as [|a l]; [by destruct inner|].
  exists a, l. split; [reflexivity|]. split; [exact Hn|].
  cbn [map] in Hin.
  destruct (forallb _ _) eqn:Hall; [|by destruct inner].
  constructor; [exact Hin|].
  rewrite forallb_forall in Hall. apply Forall_forall. intros b Hb.
  rewrite <- Hin. eapply bool_decide_eq_true_1.
  apply Hall, in_map. by apply list_elem_of_In.
Qed.

Lemma shape_cons_length a n rest :
  numpy.shape a = n :: rest → ∃ la, a = VList la ∧ length la = n.
Proof.
  destruct a as [| | |la|]; try discriminate.
  rewrite shape_list. intros [= Hn _]. eauto.
Qed.

Lemma omap_defined {A C} (f : A → option C) (l : list A) :
  Forall (λ a, is_Some (f a)) l →
  length (omap f l) = length l ∧ ∀ r, omap f l !! r = l !! r ≫= f.
Proof.
  induction 1 as [|a l [c Hc] _ [IHlen IH]]; cbn.
  - split; [reflexivity|]. intros r. reflexivity.
  - rewrite Hc. cbn. split; [by rewrite IHlen|].
    intros [|r]; cbn; [by rewrite Hc | apply IH].
Qed.

(** [stack] on arrays of one shape. *)
Lemma stack1_same_shape a l S rest :
  Forall (λ b, numpy.shape b = S :: rest) (a :: l) →
  numpy.stack1 (a :: l)
  = Some (VList (map (λ i, VList (omap (λ b, item b i) (a :: l))) (seq 0 S))).
Proof.
  intros Hall. apply Forall_cons in Hall as Hal. destruct Hal as [Ha Hl].
  unfold numpy.stack1. rewrite Ha.
  assert (forallb (λ b, bool_decide (numpy.shape b = S :: rest)) l = true) as ->;
    [|reflexivity].
  apply forallb_forall. intros b Hb. apply bool_decide_eq_true_2.
  rewrite Forall_forall in Hl. by apply Hl, list_elem_of_In.
Qed.

Context {StateHandle : Type}.

(** C2 (as amended): samples are rectangular, with entries that are
    numbers ([int64]) or the placeholder.  For such samples of more than
    one dimension, given as one array of trials per register, the samples
    of the [Result] have the trial axis first and the register axis second
    (a (trials, registers) layout): row [t] holds, for each register [r],
    the outcome of trial [t] of register [r].  Such samples of at most one
    dimension are stored as they are. *)
Theorem Result_init_layout (raw : pyval) :
  numpy.rectangular raw = true → numpy.int64_entries raw = true →
  (∀ n S rest, numpy.shape raw = n :: S :: rest →
     ∃ rows,
       Result.init (StateHandle:=StateHandle) raw = inr (Result.mk None (VList rows))
       ∧ length rows = S
       ∧ ∀ t, t < S →
           ∃ row, rows !! t = Some (VList row) ∧ length row = n
                  ∧ ∀ r, r < n →
                      ∃ register v, item raw r = Some register
                                    ∧ item register t = Some v
                                    ∧ row !! r = Some v)
  ∧ (length (numpy.shape raw) ≤ 1 →
     Result.init (StateHandle:=StateHandle) raw = inr (Result.mk None raw)).
Proof.
  intros Hrect Hentries. split.
  - intros n S rest Hshape.
    destruct (shape_inner raw n (S :: rest) Hshape) as (a & l & -> & Hn & Hall);
      [done|].
    exists (map (λ i, VList (omap (λ b, item b i) (a :: l))) (seq 0 S)).
    split; [|split].
    + unfold Result.init. rewrite Hrect, Hentries, Hshape. cbn [negb].
      rewrite bool_decide_true by (cbn; lia).
      by rewrite (stack1_same_shape a l S rest Hall).
    + by rewrite length_map, length_seq.
    + intros t Ht.
      assert (Forall (λ b, is_Some (item b t)) (a :: l)) as Hitems.
      { eapply Forall_impl; [exact Hall|]. intros b Hb. cbn beta in Hb.
        destruct (shape_cons_length b S rest Hb) as (lb & -> & Hlen).
        cbn. apply lookup_lt_is_Some. lia. }
      destruct (omap_defined (λ b, item b t) (a :: l) Hitems) as [Hlen Hlook].
      exists (omap (λ b, item b t) (a :: l)). split; [|split].
      * rewrite list_lookup_fmap, lookup_seq_lt by exact Ht. reflexivity.
      * rewrite Hlen. exact Hn.
      * intros r Hr. rewrite Hlook.
        destruct (lookup_lt_is_Some_2 (a :: l) r) as [register Hreg]; [lia|].
        rewrite Forall_forall in Hitems.
        destruct (Hitems register) as [v Hv].
        { eapply list_elem_of_lookup_2, Hreg. }
        exists register, v. cbn [item]. rewrite Hreg. cbn. auto.
  - intros Hdim. unfold Result.init. rewrite Hrect. cbn [negb].
    rewrite bool_decide_false by lia. reflexivity.
Qed.

End Layout.

(** ** The local strategy *)

Section Local.
Context `{Collaborators}.

Lemma get_inr st st' (a : state) : get st = (st', inr a) → st' = st ∧ a = st.
Proof. intros [= <- <-]. auto. Qed.

Lemma modify_inr g st st' u : modify g st = (st', inr u) → st' = g st.
Proof. intros [= <- _]. reflexivity. Qed.

Lemma ret_inr {A} (a b : A) st st' : ret a st = (st', inr b) → st' = st ∧ b = a.
Proof. intros [= <- <-]. auto. Qed.

Lemma apply_commands_preserves {X} (f : state → X) cmds kw : ∀ applied,
  (∀ b st, f (set_backend b st) = f st) →
  (∀ r st, f (set_regrefs r st) = f st) →
  (∀ c k st, f (emit (EvApply c k) st) = f st) →
  preserves f (LocalEngine.apply_commands cmds kw applied).
Proof.
  induction cmds as [|cmd cmds IH]; intros applied Hb Hr He;
    cbn [LocalEngine.apply_commands].
  - frame.
  - repeat first [ apply IH; assumption
                 | frame_step ltac:(rewrite He, Hr, Hb; reflexivity) ].
Qed.

Lemma local_run_program_preserves {X} (f : state → X) p kw :
  (∀ b st, f (set_backend b st) = f st) →
  (∀ r st, f (set_regrefs r st) = f st) →
  (∀ c k st, f (emit (EvApply c k) st) = f st) →
  preserves f (LocalEngine._run_program p kw).
Proof.
  intros Hb Hr He. unfold LocalEngine._run_program.
  repeat first [ apply deref_preserves | apply apply_commands_preserves; assumption
               | frame_step idtac ].
Qed.

Lemma copy_samples_preserves {X} (f : state → X) P items : ∀ k,
  (∀ s st, f (set_samples s st) = f st) →
  (∀ r st, f (set_regrefs r st) = f st) →
  preserves f (BaseEngine.copy_samples P k items).
Proof.
  induction items as [|v items IH]; intros k Hs Hr; cbn [BaseEngine.copy_samples].
  - frame.
  - repeat first [ apply IH; assumption
                 | frame_step ltac:(first [apply Hs | apply Hr]) ].
Qed.

Lemma copy_latest_preserves {X} (f : state → X) p :
  (∀ s st, f (set_samples s st) = f st) →
  (∀ r st, f (set_regrefs r st) = f st) →
  preserves f (BaseEngine.copy_latest p).
Proof.
  intros Hs Hr. unfold BaseEngine.copy_latest.
  repeat first [ apply deref_preserves | apply copy_samples_preserves; assumption
               | frame_step idtac ].
Qed.

Lemma run_unit_eq shots co kw prev p :
  BaseEngine.run_unit LocalEngine.class shots co kw prev p
  = (P <- deref p;; enter prev p P;; execute shots co kw p P).
Proof. unfold BaseEngine.run_unit, enter, execute. destruct prev; reflexivity. Qed.

Lemma enter_later_preserves {X} (f : state → X) prev p P :
  (∀ s st, f (set_samples s st) = f st) →
  (∀ r st, f (set_regrefs r st) = f st) →
  preserves f (enter (Some prev) p P).
Proof.
  intros Hs Hr. unfold enter.
  repeat first [ apply deref_preserves | apply copy_latest_preserves; assumption
               | frame_step idtac ].
Qed.

Lemma enter_preserves {X} (f : state → X) prev p P :
  (∀ s st, f (set_samples s st) = f st) →
  (∀ r st, f (set_regrefs r st) = f st) →
  (∀ b st, f (set_backend b st) = f st) →
  (∀ n o st, f (emit (EvBeginCircuit n o) st) = f st) →
  preserves f (enter prev p P).
Proof.
  intros Hs Hr Hb He. destruct prev as [prev|].
  - by apply enter_later_preserves.
  - unfold enter, LocalEngine._init_backend.
    frame_with ltac:(rewrite He, Hb; reflexivity).
Qed.

(** What [execute] leaves alone up to the point where the unit enters the
    run history. *)
Lemma execute_inv shots co kw p P st st' r :
  execute shots co kw p P st = (st', r) →
  (∃ e, r = inl e ∧ run_progs st' = run_progs st ∧ samples st' = samples st)
  ∨ ∃ s p' P',
      r = inr p' ∧ programs s !! p' = Some P' ∧ Program.locked P' = true
      ∧ run_progs s = run_progs st
      ∧ st' = set_samples
                (SIter (BaseEngine._normalize_sample shots
                          <$> BaseEngine.register_values P' (regrefs s)))
                (set_run_progs (run_progs s ++ [p']) s).
Proof.
  unfold execute. intros Hrun.
  apply bind_inv in Hrun as [(e & [= ] & _)|(s0 & st0 & [-> ->]%get_inr & Hrun)].
  assert (∀ {A} (m : M A) s s' (r : Exn + A) (e : Exn),
            preserves run_progs m → preserves samples m →
            m s = (s', inl e) → run_progs s' = run_progs s ∧ samples s' = samples s)
    as Hfail.
  { intros A m s s' r0 e Hp Hs Hm. split; [eapply Hp, Hm | eapply Hs, Hm]. }
  apply bind_inv in Hrun as [(e & Hrun & ->)|(s1 & p' & Hcompile & Hrun)].
  { left. exists e. split; [reflexivity|]. revert Hrun.
    destruct (bool_decide _).
    - intros Hc. split; revert Hc; apply compile_preserves; reflexivity.
    - intros [= ]. }
  assert (run_progs s1 = run_progs st ∧ samples s1 = samples st) as [Hr1 Hs1].
  { revert Hcompile. destruct (bool_decide _).
    - intros Hc. split; revert Hc; apply compile_preserves; reflexivity.
    - intros [= <- _]. auto. }
  apply bind_inv in Hrun as [(e & Hrun & ->)|(s2 & [] & Hlock & Hrun)].
  { left. exists e. split; [reflexivity|]. rewrite <- Hr1, <- Hs1.
    split; revert Hrun; apply lock_preserves; reflexivity. }
  assert (run_progs s2 = run_progs st ∧ samples s2 = samples st) as [Hr2 Hs2].
  { rewrite <- Hr1, <- Hs1. split; revert Hlock; apply lock_preserves; reflexivity. }
  assert (∃ P2, programs s2 !! p' = Some P2 ∧ Program.locked P2 = true)
    as (P2 & HP2 & Hlocked).
  { revert Hlock. unfold Program_lock. intros Hlock.
    apply bind_inr in Hlock as (s & Q & [-> HQ]%deref_inr & ->%modify_inr).
    eexists. split; [cbn; apply lookup_insert_eq | reflexivity]. }
  apply bind_inv in Hrun as [(e & Hrun & ->)|(s3 & out & Hprog & Hrun)].
  { left. exists e. split; [reflexivity|]. rewrite <- Hr2, <- Hs2.
    split; revert Hrun; apply local_run_program_preserves; reflexivity. }
  assert (run_progs s3 = run_progs st ∧ programs s3 = programs s2) as [Hr3 Hp3].
  { rewrite <- Hr2.
    split; revert Hprog; apply local_run_program_preserves; reflexivity. }
  apply bind_inv in Hrun as [(e & [= ] & _)|(s4 & [] & ->%modify_inr & Hrun)].
  right. exists s3, p', P2.
  rewrite (bind_ok _ _ _ _ P2) in Hrun by (apply deref_ok; cbn; by rewrite Hp3).
  revert Hrun. intros [= <- <-].
  split; [reflexivity|]. split; [by rewrite Hp3|]. by repeat split.
Qed.

End Local.

Section Initialisation.
Context `{Collaborators}.

Lemma initialisations_snoc (calls : list (event Op)) e :
  initialisations (calls ++ [e])
  = initialisations calls ++ match e with EvBeginCircuit n _ => [n] | _ => [] end.
Proof.
  unfold initialisations. rewrite omap_app. f_equal. by destruct e.
Qed.

Lemma execute_preserves {X} (f : state → X) shots co kw p P :
  (∀ m st, f (set_programs m st) = f st) →
  (∀ b st, f (set_backend b st) = f st) →
  (∀ r st, f (set_regrefs r st) = f st) →
  (∀ c k st, f (emit (EvApply c k) st) = f st) →
  (∀ l st, f (set_run_progs l st) = f st) →
  (∀ s st, f (set_samples s st) = f st) →
  preserves f (execute shots co kw p P).
Proof.
  intros Hp Hb Hr He Hl Hs. unfold execute.
  repeat first [ apply deref_preserves
               | apply compile_preserves; assumption
               | apply lock_preserves; assumption
               | apply local_run_program_preserves; assumption
               | frame_step ltac:(first [apply Hl | apply Hs]) ].
Qed.

Lemma execute_initialises_nothing shots co kw p P :
  preserves (λ st, initialisations (log st)) (execute shots co kw p P).
Proof.
  apply execute_preserves; try reflexivity.
  intros c k st. cbn [log emit]. rewrite initialisations_snoc, app_nil_r. reflexivity.
Qed.

(** One unit: the circuit is initialised if and only if there is no
    previous unit, with the register count the unit declares. *)
Lemma run_unit_initialises shots co kw prev p st st' r :
  BaseEngine.run_unit LocalEngine.class shots co kw prev p st = (st', r) →
  initialisations (log st')
  = initialisations (log st)
    ++ match prev, programs st !! p with
       | None, Some P => [Program.init_num_subsystems P]
       | _, _ => []
       end.
Proof.
  rewrite run_unit_eq. intros Hrun.
  apply bind_inv in Hrun as [(e & Hd & _)|(s & P & [-> HP]%deref_inr & Hrun)].
  { assert (programs st !! p = None) as ->.
    { revert Hd. unfold deref, bind, get. destruct (programs st !! p); [|done].
      intros [= ]. }
    assert (st' = st) as ->.
    { revert Hd. unfold deref, bind, get. destruct (programs st !! p); by intros [= ]. }
    destruct prev; by rewrite app_nil_r. }
  rewrite HP.
  apply bind_inv in Hrun as [(e & He & _)|(s & [] & He & Hrun)].
  - destruct prev as [prev|]; [|discriminate He].
    rewrite app_nil_r. revert He.
    apply (enter_later_preserves (λ st, initialisations (log st))); reflexivity.
  - apply execute_initialises_nothing in Hrun. rewrite Hrun.
    destruct prev as [prev|].
    + rewrite app_nil_r. revert He.
      apply (enter_later_preserves (λ st, initialisations (log st))); reflexivity.
    + apply modify_inr in He as ->. cbn [log emit set_backend].
      by rewrite initialisations_snoc.
Qed.

End Initialisation.

Section LocalRuns.
Context `{Collaborators}.

(** A run of the local engine is the loop over the units, then the
    [Result] of the samples left in the iterator. *)
Lemma local_run_eq program shots co kw st :
  BaseEngine._run LocalEngine.class program shots co kw st
  = (BaseEngine.run_units LocalEngine.class shots co (<["shots" := VNum shots]> kw)
       (last (run_progs st)) (BaseEngine.as_sequence program);;
     items <- BaseEngine.list_samples;;
     lift (Result.init (VList items))) st.
Proof.
  unfold BaseEngine._run. cbv zeta. unfold bind at 1, get at 1.
  rewrite bool_decide_false; [reflexivity|]. cbn. apply not_elem_of_nil.
Qed.

Lemma list_samples_preserves {X} (f : state → X) :
  (∀ s st, f (set_samples s st) = f st) → preserves f BaseEngine.list_samples.
Proof. intros Hs. unfold BaseEngine.list_samples. frame_with ltac:(apply Hs). Qed.

(** A unit that ran: it is locked and is the last of the run history, and
    the iterator holds the normalised values of its registers. *)
Lemma run_unit_inr shots co kw prev p st st' p' :
  BaseEngine.run_unit LocalEngine.class shots co kw prev p st = (st', inr p') →
  ∃ s P',
    programs s !! p' = Some P' ∧ Program.locked P' = true
    ∧ run_progs s = run_progs st
    ∧ st' = set_samples
              (SIter (BaseEngine._normalize_sample shots
                        <$> BaseEngine.register_values P' (regrefs s)))
              (set_run_progs (run_progs s ++ [p']) s).
Proof.
  rewrite run_unit_eq. intros Hrun.
  apply bind_inr in Hrun as (s0 & P & [-> HP]%deref_inr & Hrun).
  apply bind_inr in Hrun as (s1 & [] & Henter & Hrun).
  apply execute_inv in Hrun as [(e & [= ] & _)|(s & q & P' & [= <-] & HP' & Hl & Hr & ->)].
  exists s, P'. repeat split; try assumption.
  rewrite Hr. revert Henter. apply enter_preserves; reflexivity.
Qed.

(** A unit that raised is not in the run history. *)
Lemma run_unit_inl shots co kw prev p st st' e :
  BaseEngine.run_unit LocalEngine.class shots co kw prev p st = (st', inl e) →
  run_progs st' = run_progs st.
Proof.
  rewrite run_unit_eq. intros Hrun.
  apply bind_inv in Hrun as [(e0 & Hd & _)|(s0 & P & [-> HP]%deref_inr & Hrun)].
  { revert Hd. apply deref_preserves. }
  apply bind_inv in Hrun as [(e0 & Henter & _)|(s1 & [] & Henter & Hrun)].
  { revert Henter. apply enter_preserves; reflexivity. }
  apply execute_inv in Hrun as [(e0 & _ & Hr & _)|(s & q & P' & [= ] & _)].
  rewrite Hr. revert Henter. apply enter_preserves; reflexivity.
Qed.

Lemma run_units_initialises shots co kw program : ∀ prev st st' r,
  BaseEngine.run_units LocalEngine.class shots co kw prev program st = (st', r) →
  initialisations (log st')
  = initialisations (log st)
    ++ match prev, program with
       | None, p :: _ =>
           match programs st !! p with
           | Some P => [Program.init_num_subsystems P]
           | None => []
           end
       | _, _ => []
       end.
Proof.
  induction program as [|p program IH]; intros prev st st' r;
    cbn [BaseEngine.run_units].
  - intros [= <- _]. destruct prev; by rewrite app_nil_r.
  - intros Hrun.
    apply bind_inv in Hrun as [(e & Hunit & _)|(s & p' & Hunit & Hrun)].
    + rewrite (run_unit_initialises _ _ _ _ _ _ _ _ Hunit).
      destruct prev; [reflexivity|]. by destruct (programs st !! p).
    + rewrite (IH _ _ _ _ Hrun), app_nil_r.
      rewrite (run_unit_initialises _ _ _ _ _ _ _ _ Hunit).
      destruct prev; [reflexivity|]. by destruct (programs st !! p).
Qed.

(** C9: in a run of the local engine the circuit of the backend is
    initialised exactly once when the run history is empty at the start
    (by the first unit, with the register count it declares) and not at
    all when it is not.  Unit by unit: a unit initialises the circuit if
    and only if the run history is empty when it is processed, and a unit
    that ran is the last of the run history, so that no later unit
    initialises again. *)
Theorem backend_initialised_once :
  (∀ program shots co kw st st' r,
     BaseEngine._run LocalEngine.class program shots co kw st = (st', r) →
     initialisations (log st')
     = initialisations (log st)
       ++ match run_progs st, BaseEngine.as_sequence program with
          | [], p :: _ =>
              match programs st !! p with
              | Some P => [Program.init_num_subsystems P]
              | None => []
              end
          | _, _ => []
          end)
  ∧ (∀ shots co kw p st st' r,
       BaseEngine.run_unit LocalEngine.class shots co kw (last (run_progs st)) p st
       = (st', r) →
       initialisations (log st')
       = initialisations (log st)
         ++ match run_progs st, programs st !! p with
            | [], Some P => [Program.init_num_subsystems P]
            | _, _ => []
            end
       ∧ ∀ p', r = inr p' → last (run_progs st') = Some p').
Proof.
  split.
  - intros program shots co kw st st' r. rewrite local_run_eq. intros Hrun.
    assert (∀ prev : option ploc,
              prev = last (run_progs st) →
              match prev, BaseEngine.as_sequence program with
              | None, p :: _ =>
                  match programs st !! p with
                  | Some P => [Program.init_num_subsystems P]
                  | None => []
                  end
              | _, _ => []
              end
              = match run_progs st, BaseEngine.as_sequence program with
                | [], p :: _ =>
                    match programs st !! p with
                    | Some P => [Program.init_num_subsystems P]
                    | None => []
                    end
                | _, _ => []
                end) as Hprev.
    { intros prev ->. destruct (run_progs st) as [|q l] eqn:Hq; [reflexivity|].
      destruct (last (q :: l)) eqn:Hlast; [reflexivity|].
      by apply last_None in Hlast. }
    rewrite <- (Hprev _ eq_refl).
    apply bind_inv in Hrun as [(e & Hunits & _)|(s & [] & Hunits & Hrun)].
    + by apply run_units_initialises in Hunits.
    + apply run_units_initialises in Hunits. rewrite <- Hunits.
      revert Hrun. apply (preserves_bind (λ st, initialisations (log st))).
      * apply list_samples_preserves. reflexivity.
      * intros items. apply preserves_lift.
  - intros shots co kw p st st' r Hrun. split.
    + rewrite (run_unit_initialises _ _ _ _ _ _ _ _ Hrun).
      destruct (run_progs st) as [|q l] eqn:Hq; [reflexivity|].
      destruct (last (q :: l)) eqn:Hlast; [reflexivity|].
      by apply last_None in Hlast.
    + intros p' ->.
      apply run_unit_inr in Hrun as (s & P' & _ & _ & _ & ->).
      cbn. apply last_snoc.
Qed.

End LocalRuns.

Section Chaining.
Context `{Collaborators}.

(** A unit that cannot follow the previous one is turned away before
    anything is done with it. *)
Lemma run_unit_mismatch shots co kw prev p st P Pprev :
  programs st !! p = Some P → programs st !! prev = Some Pprev →
  can_follow P Pprev = false →
  BaseEngine.run_unit LocalEngine.class shots co kw (Some prev) p st
  = (st, inl (RuntimeError (BaseEngine.register_mismatch (length (run_progs st))
                              (Program.name P)))).
Proof.
  intros HP Hprev Hcan. unfold BaseEngine.run_unit.
  rewrite (bind_ok _ _ _ _ _ (deref_ok _ _ _ HP)).
  apply bind_raises.
  rewrite (bind_ok _ _ _ _ _ (deref_ok _ _ _ Hprev)).
  rewrite Hcan. reflexivity.
Qed.

(** A run of one unit that returns: the unit was processed by the loop,
    and [list] has emptied the iterator. *)
Lemma local_run_one_inr a shots co kw st st' r :
  BaseEngine._run LocalEngine.class (One a) shots co kw st = (st', inr r) →
  ∃ s a',
    BaseEngine.run_unit LocalEngine.class shots co (<["shots" := VNum shots]> kw)
      (last (run_progs st)) a st = (s, inr a')
    ∧ st' = set_samples (SIter []) s.
Proof.
  rewrite local_run_eq. cbn [BaseEngine.as_sequence BaseEngine.run_units].
  intros Hrun.
  apply bind_inr in Hrun as (s1 & [] & Hunits & Hrun).
  apply bind_inr in Hunits as (s & a' & Hunit & [-> _]%ret_inr).
  exists s, a'. split; [exact Hunit|].
  apply bind_inr in Hrun as (s2 & items & Hlist & [= <- _]).
  apply run_unit_inr in Hunit as (s0 & P' & _ & _ & _ & ->).
  revert Hlist. unfold BaseEngine.list_samples, bind, get. cbn.
  intros [= <- _]. reflexivity.
Qed.

(** After a local run that returned, the iterator in [self.samples] is
    empty: a unit processed in a later call takes over no value. *)
Lemma later_call_copies_nothing program shots co kw st st' r p P :
  BaseEngine._run LocalEngine.class program shots co kw st = (st', inr r) →
  programs st' !! p = Some P →
  samples st' = SIter [] ∧ BaseEngine.copy_latest p st' = (st', inr tt).
Proof.
  rewrite local_run_eq. intros Hrun HP.
  apply bind_inr in Hrun as (s1 & [] & _ & Hrun).
  apply bind_inr in Hrun as (s2 & items & Hlist & [= <- _]).
  assert (samples s2 = SIter []) as Hempty.
  { revert Hlist. unfold BaseEngine.list_samples, bind, get.
    destruct (samples s1); [discriminate|]. by intros [= <- _]. }
  split; [exact Hempty|].
  unfold BaseEngine.copy_latest, bind at 1, get at 1. rewrite Hempty.
  rewrite (bind_ok _ _ _ _ _ (deref_ok _ _ _ HP)). reflexivity.
Qed.

(** C3: after a first unit has run on an engine with an empty run
    history, a next unit that cannot follow it is rejected with the
    register-mismatch error that names position 1 (its position in the run
    history) and the unit, both when it is given in a call of its own and
    when it is given in one call with the first unit.  The state is the
    one the first unit left: the run history holds the first unit only,
    and the rejected unit was not appended, compiled, locked or executed
    (no store and no backend call has changed). *)
Theorem incompatible_unit_rejected a b rest shots co kw st st1 r shots' co' kw' :
  run_progs st = [] →
  BaseEngine._run LocalEngine.class (One a) shots co kw st = (st1, inr r) →
  ∃ a' A',
    run_progs st1 = [a'] ∧ programs st1 !! a' = Some A'
    ∧ ∀ B, programs st1 !! b = Some B → can_follow B A' = false →
        BaseEngine._run LocalEngine.class (One b) shots' co' kw' st1
        = (st1, inl (RuntimeError (BaseEngine.register_mismatch 1 (Program.name B))))
        ∧ ∃ st2,
            BaseEngine._run LocalEngine.class (Many (a :: b :: rest)) shots co kw st
            = (st2, inl (RuntimeError (BaseEngine.register_mismatch 1
                                         (Program.name B))))
            ∧ st1 = set_samples (SIter []) st2.
Proof.
  intros Hempty Hfirst.
  destruct (local_run_one_inr _ _ _ _ _ _ _ Hfirst) as (s & a' & Hunit & ->).
  rewrite Hempty in Hunit. cbn [last] in Hunit.
  destruct (run_unit_inr _ _ _ _ _ _ _ _ Hunit) as (s0 & A' & HA' & _ & Hhist & Hs).
  assert (run_progs s = [a']) as Hs1.
  { rewrite Hs. cbn. rewrite Hhist, Hempty. reflexivity. }
  assert (programs s !! a' = Some A') as Hs2.
  { rewrite Hs. exact HA'. }
  exists a', A'. split; [exact Hs1|]. split; [exact Hs2|].
  intros B HB Hcan. split.
  - rewrite local_run_eq. cbn [run_progs set_samples]. rewrite Hs1.
    cbn [last BaseEngine.as_sequence BaseEngine.run_units].
    apply bind_raises, bind_raises.
    rewrite (run_unit_mismatch _ _ _ a' b _ B A'); [|exact HB|exact Hs2|exact Hcan].
    cbn [run_progs set_samples]. rewrite Hs1. reflexivity.
  - exists s. split; [|reflexivity].
    rewrite local_run_eq. rewrite Hempty.
    cbn [last BaseEngine.as_sequence BaseEngine.run_units].
    apply bind_raises. rewrite (bind_ok _ _ _ _ _ Hunit).
    apply bind_raises.
    rewrite (run_unit_mismatch _ _ _ a' b _ B A'); [|exact HB|exact Hs2|exact Hcan].
    rewrite Hs1. reflexivity.
Qed.

End Chaining.

Section Normalisation.
Context `{Collaborators}.

(** The loop over a non-empty sequence, when it returns, leaves what its
    last unit left. *)
Lemma run_units_inr shots co kw program : ∀ prev st st',
  program ≠ [] →
  BaseEngine.run_units LocalEngine.class shots co kw prev program st = (st', inr tt) →
  ∃ s p' P',
    programs s !! p' = Some P'
    ∧ st' = set_samples
              (SIter (BaseEngine._normalize_sample shots
                        <$> BaseEngine.register_values P' (regrefs s)))
              (set_run_progs (run_progs s ++ [p']) s).
Proof.
  induction program as [|p program IH]; intros prev st st' Hne; [done|].
  cbn [BaseEngine.run_units]. intros Hrun.
  apply bind_inr in Hrun as (s1 & p1 & Hunit & Hrun).
  destruct program as [|q program].
  - apply ret_inr in Hrun as [-> _].
    apply run_unit_inr in Hunit as (s & P' & HP' & _ & _ & ->). eauto.
  - eapply IH; [done | exact Hrun].
Qed.

Lemma local_run_inr program shots co kw st st' r :
  BaseEngine.as_sequence program ≠ [] →
  BaseEngine._run LocalEngine.class program shots co kw st = (st', inr r) →
  ∃ s p' P',
    programs s !! p' = Some P'
    ∧ st' = set_samples (SIter []) (set_run_progs (run_progs s ++ [p']) s)
    ∧ Result.init (VList (BaseEngine._normalize_sample shots
                            <$> BaseEngine.register_values P' (regrefs s)))
      = inr r.
Proof.
  intros Hne. rewrite local_run_eq. intros Hrun.
  apply bind_inr in Hrun as (s1 & [] & Hunits & Hrun).
  apply run_units_inr in Hunits as (s & p' & P' & HP' & ->); [|exact Hne].
  exists s, p', P'. split; [exact HP'|].
  apply bind_inr in Hrun as (s2 & items & Hlist & Hres).
  revert Hlist. unfold BaseEngine.list_samples, bind, get. cbn.
  intros [= <- <-]. revert Hres. unfold lift. intros [= <- Hres]. auto.
Qed.

(** The values read are those of the registers, in the order of their
    indices. *)
Lemma sorted_indices_registered (P : Program.t Op) k :
  k ∈ Program.sorted_indices P → is_Some (Program.reg_refs P !! k).
Proof.
  unfold Program.sorted_indices. rewrite merge_sort_Permutation.
  rewrite elem_of_elements. apply elem_of_dom.
Qed.

Lemma sorted_indices_length (P : Program.t Op) :
  length (Program.sorted_indices P) = size (Program.reg_refs P).
Proof.
  unfold Program.sorted_indices. rewrite merge_sort_Permutation.
  rewrite <- size_dom. reflexivity.
Qed.

Lemma sorted_indices_sorted (P : Program.t Op) :
  Sorted le (Program.sorted_indices P).
Proof. unfold Program.sorted_indices. apply (Sorted_merge_sort le). Qed.

Lemma register_values_lookup (P : Program.t Op) regs i :
  BaseEngine.register_values P regs !! i
  = Program.sorted_indices P !! i ≫= λ k, val regs <$> Program.reg_refs P !! k.
Proof.
  unfold BaseEngine.register_values. rewrite list_lookup_fmap.
  destruct (omap_defined (λ k, Program.reg_refs P !! k) (Program.sorted_indices P))
    as [_ Hlook].
  { apply Forall_forall. intros k Hk. by apply sorted_indices_registered. }
  rewrite Hlook. destruct (Program.sorted_indices P !! i); reflexivity.
Qed.

Lemma register_values_length (P : Program.t Op) regs :
  length (BaseEngine.register_values P regs) = size (Program.reg_refs P).
Proof.
  unfold BaseEngine.register_values. rewrite length_fmap.
  destruct (omap_defined (λ k, Program.reg_refs P !! k) (Program.sorted_indices P))
    as [Hlen _].
  { apply Forall_forall. intros k Hk. by apply sorted_indices_registered. }
  rewrite Hlen. apply sorted_indices_length.
Qed.

Lemma normalize_None shots :
  (1 < shots)%Z →
  BaseEngine._normalize_sample shots VNone = VList (replicate (Z.to_nat shots) VNone).
Proof.
  intros Hs. unfold BaseEngine._normalize_sample. cbn.
  by rewrite bool_decide_true.
Qed.

Lemma normalize_measured shots v :
  v ≠ VNone → BaseEngine._normalize_sample shots v = v.
Proof. intros Hv. unfold BaseEngine._normalize_sample. by destruct v. Qed.

(** C4 (as amended): a local run that returns gives [Result] one sample
    per register of its last unit, in the order of the register indices.
    With [shots = S > 1] the sample of a register that was never measured
    is a list of [S] placeholders, and a measured value is passed on as
    the operation stored it; so every register has exactly [S] entries
    whenever every measured value has one entry per shot.  With
    [shots = 1] the sample of a never-measured register is the single
    placeholder. *)
Theorem samples_one_entry_per_shot program shots co kw st st' r :
  BaseEngine.as_sequence program ≠ [] →
  BaseEngine._run LocalEngine.class program shots co kw st = (st', inr r) →
  ∃ p P items,
    last (run_progs st') = Some p ∧ programs st' !! p = Some P
    ∧ Result.init (VList items) = inr r
    ∧ length items = size (Program.reg_refs P)
    ∧ (∀ i k l,
         Program.sorted_indices P !! i = Some k → Program.reg_refs P !! k = Some l →
         items !! i = Some (BaseEngine._normalize_sample shots (val (regrefs st') l)))
    ∧ ((1 < shots)%Z →
       (∀ i k l,
          Program.sorted_indices P !! i = Some k → Program.reg_refs P !! k = Some l →
          val (regrefs st') l = VNone →
          items !! i = Some (VList (replicate (Z.to_nat shots) VNone)))
       ∧ ((∀ k l, Program.reg_refs P !! k = Some l → val (regrefs st') l ≠ VNone →
                  has_entries (Z.to_nat shots) (val (regrefs st') l)) →
          Forall (has_entries (Z.to_nat shots)) items))
    ∧ (shots = 1%Z →
       ∀ i k l,
         Program.sorted_indices P !! i = Some k → Program.reg_refs P !! k = Some l →
         val (regrefs st') l = VNone → items !! i = Some VNone).
Proof.
  intros Hne Hrun.
  destruct (local_run_inr _ _ _ _ _ _ _ Hne Hrun) as (s & p & P & HP & -> & Hres).
  exists p, P, (BaseEngine._normalize_sample shots
                  <$> BaseEngine.register_values P (regrefs s)).
  assert (∀ i k l,
            Program.sorted_indices P !! i = Some k → Program.reg_refs P !! k = Some l →
            (BaseEngine._normalize_sample shots
               <$> BaseEngine.register_values P (regrefs s)) !! i
            = Some (BaseEngine._normalize_sample shots (val (regrefs s) l))) as Hitem.
  { intros i k l Hi Hk. rewrite list_lookup_fmap, register_values_lookup, Hi.
    cbn. rewrite Hk. reflexivity. }
  split; [cbn; apply last_snoc|]. split; [exact HP|]. split; [exact Hres|].
  split; [by rewrite length_fmap, register_values_length|].
  split; [exact Hitem|]. cbn [regrefs set_samples set_run_progs]. split.
  - intros Hshots. split.
    + intros i k l Hi Hk Hnone. rewrite (Hitem i k l Hi Hk), Hnone.
      by rewrite normalize_None.
    + intros Hmeasured. apply Forall_forall. intros v Hv.
      apply list_elem_of_lookup in Hv as [i Hi].
      rewrite list_lookup_fmap, register_values_lookup in Hi.
      destruct (Program.sorted_indices P !! i) as [k|] eqn:Hk; [|discriminate].
      cbn in Hi. destruct (Program.reg_refs P !! k) as [l|] eqn:Hl; [|discriminate].
      cbn in Hi. injection Hi as <-.
      assert (val (regrefs s) l = VNone ∨ val (regrefs s) l ≠ VNone)
        as [Hnone|Hsome] by (destruct (val (regrefs s) l); auto).
      * rewrite Hnone, normalize_None by exact Hshots.
        eexists. split; [reflexivity|]. apply length_replicate.
      * rewrite normalize_measured by exact Hsome. by eapply Hmeasured.
  - intros -> i k l Hi Hk Hnone. rewrite (Hitem i k l Hi Hk), Hnone. reflexivity.
Qed.

End Normalisation.

(** ** Runs on the simulator *)

Section OnTheSimulator.
#[local] Existing Instance Sim.collaborators.

(** C1, evaluated: unit [B] can follow unit [A], which measures subsystem
    0 to 3.  Run in one call, [A] then [B] give the samples [[3, None]]:
    [B] has taken over the value measured by [A].  Run in two calls on an
    engine in the same state they give [[None, None]]: [list(self.samples)]
    at the end of the first call has emptied the iterator that
    [self.samples] is, so the second call copies no value into [B].  The
    cached sample set is the emptied iterator in both cases. *)
Theorem chaining_in_separate_calls_differs :
  can_follow Sim.unitB Sim.unitA = true
  ∧ (Sim.local_run (Many [0; 1]) 1 Sim.fresh_local).2
    = inr (Result.mk None (VList [VNum 3; VNone]))
  ∧ ((Sim.local_run (One 0) 1;; Sim.local_run (One 1) 1) Sim.fresh_local).2
    = inr (Result.mk None (VList [VNone; VNone]))
  ∧ samples (Sim.local_run (Many [0; 1]) 1 Sim.fresh_local).1 = SIter []
  ∧ samples ((Sim.local_run (One 0) 1;; Sim.local_run (One 1) 1) Sim.fresh_local).1
    = SIter [].
Proof. repeat split; vm_compute; reflexivity. Qed.

Lemma Result_layout_counterexample :
  numpy.shape Sim.two_by_three = [2; 3]
  ∧ Result.init (StateHandle:=unit) Sim.two_by_three
    = inr (Result.mk None
             (VList [VList [VNum 1; VNum 4]; VList [VNum 2; VNum 5];
                     VList [VNum 3; VNum 6]]))
  ∧ numpy.shape (VList [VList [VNum 1; VNum 4]; VList [VNum 2; VNum 5];
                        VList [VNum 3; VNum 6]]) = [3; 2].
Proof. repeat split. Qed.

Lemma Result_init_layout_witness :
  numpy.rectangular Sim.two_by_three = true
  ∧ numpy.int64_entries Sim.two_by_three = true
  ∧ numpy.shape Sim.two_by_three = [2; 3]
  ∧ ∃ rows, Result.init (StateHandle:=unit) Sim.two_by_three
            = inr (Result.mk None (VList rows))
            ∧ length rows = 3.
Proof.
  split; [reflexivity|]. split; [reflexivity|]. split; [reflexivity|].
  destruct (proj1 (Result_init_layout (StateHandle:=unit) Sim.two_by_three
                     eq_refl eq_refl)
              2 3 [] eq_refl) as (rows & Hinit & Hlen & _).
  exists rows. split; [exact Hinit | exact Hlen].
Defined.

(** Hypotheses on a concrete state are settled by evaluation. *)
Ltac evaluated := vm_compute; reflexivity.
Ltac decided := apply (bool_decide_unpack _); vm_compute; exact I.

Lemma incompatible_unit_rejected_witness :
  run_progs Sim.fresh_local = []
  ∧ ∃ st1,
      Sim.local_run (One 0) 1 Sim.fresh_local
      = (st1, inr (Result.mk None (VList [VNum 3; VNone])))
      ∧ run_progs st1 = [0]
      ∧ Sim.local_run (One 2) 1 st1
        = (st1, inl (RuntimeError "Register mismatch: program 1, 'C'.")).
Proof.
  split; [reflexivity|].
  set (st1 := (Sim.local_run (One 0) 1 Sim.fresh_local).1).
  assert (Sim.local_run (One 0) 1 Sim.fresh_local
          = (st1, inr (Result.mk None (VList [VNum 3; VNone])))) as Hfirst
    by evaluated.
  exists st1. split; [exact Hfirst|].
  destruct (incompatible_unit_rejected 0 2 [] 1 ∅ ∅ Sim.fresh_local st1 _ 1 ∅ ∅
              eq_refl Hfirst) as (a' & A' & Hhistory & HA' & Hrejected).
  assert (run_progs st1 = [0]) as Hst1 by evaluated.
  rewrite Hst1 in Hhistory. injection Hhistory as <-.
  split; [exact Hst1|].
  assert (programs st1 !! 0 = Some (Program.lock Sim.unitA)) as Hlocked by evaluated.
  pose proof (eq_trans (eq_sym HA') Hlocked) as HAeq. injection HAeq as ->.
  assert (programs st1 !! 2 = Some Sim.unitC) as HC by evaluated.
  exact (proj1 (Hrejected Sim.unitC HC eq_refl)).
Defined.

Lemma samples_entries_counterexample :
  ((Sim.local_run (One 5) 1;; Sim.local_run (One 3) 2) Sim.fresh_local_H).2
  = inr (Result.mk None (VList [VNum 3; VNum 3]))
  ∧ numpy.shape (VList [VNum 3; VNum 3]) = [2]
  ∧ numpy.rectangular (VList [VNum 3; VNum 3]) = true
  ∧ ¬ has_entries 2 (VNum 3).
Proof.
  split; [evaluated|]. split; [reflexivity|]. split; [reflexivity|].
  intros (l & Hl & _). discriminate Hl.
Qed.

Lemma samples_one_entry_per_shot_witness :
  BaseEngine.as_sequence (One 4) ≠ []
  ∧ ∃ st',
      Sim.local_run (One 4) 3 Sim.fresh_local
      = (st', inr (Result.mk None
                     (VList [VList [VNum 5; VNone]; VList [VNum 5; VNone];
                             VList [VNum 5; VNone]])))
      ∧ ∃ items,
          Result.init (StateHandle:=nat) (VList items)
          = inr (Result.mk None
                   (VList [VList [VNum 5; VNone]; VList [VNum 5; VNone];
                           VList [VNum 5; VNone]]))
          ∧ length items = 2
          ∧ items !! 1 = Some (VList [VNone; VNone; VNone]).
Proof.
  split; [discriminate|].
  set (st' := (Sim.local_run (One 4) 3 Sim.fresh_local).1).
  assert (Sim.local_run (One 4) 3 Sim.fresh_local
          = (st', inr (Result.mk None
                         (VList [VList [VNum 5; VNone]; VList [VNum 5; VNone];
                                 VList [VNum 5; VNone]])))) as Hrun by evaluated.
  exists st'. split; [exact Hrun|].
  destruct (samples_one_entry_per_shot (One 4) 3 ∅ ∅ Sim.fresh_local st' _
              ltac:(discriminate) Hrun)
    as (p & P & items & Hlast & HP & Hres & Hlen & _ & Hshots & _).
  assert (last (run_progs st') = Some 4) as Hlast' by evaluated.
  pose proof (eq_trans (eq_sym Hlast) Hlast') as Hp. injection Hp as ->.
  assert (programs st' !! 4 = Some (Program.lock Sim.unitE)) as HP' by evaluated.
  pose proof (eq_trans (eq_sym HP) HP') as HPeq. injection HPeq as ->.
  exists items. split; [exact Hres|]. split; [exact Hlen|].
  destruct (Hshots ltac:(lia)) as [Hnone _].
  apply (Hnone 1 1 8); evaluated.
Defined.

Lemma failed_job_counterexample :
  Sim.remote_run (One 0) (Sim.fresh_remote [Sim.failing])
  = ((Sim.remote_run (One 0) (Sim.fresh_remote [Sim.failing])).1, inl job_failed)
  ∧ jobs (Sim.remote_run (One 0) (Sim.fresh_remote [Sim.failing])).1 = [Sim.failed].
Proof. split; evaluated. Qed.

Lemma failed_job_stays_outstanding_witness :
  history_valid (Sim.fresh_remote [Sim.failing])
  ∧ Forall pending [Reload Sim.queued false]
  ∧ ∃ st',
      Sim.remote_run (One 0) (Sim.fresh_remote [Sim.failing]) = (st', inl job_failed)
      ∧ jobs st' = [Sim.failed]
      ∧ ∃ st2, StarshipEngine.reset None st' = (st2, inr tt) ∧ jobs st2 = [].
Proof.
  assert (history_valid (Sim.fresh_remote [Sim.failing])) as Hvalid by constructor.
  assert (Forall pending [Reload Sim.queued false]) as Hquiet
    by (repeat constructor).
  split; [exact Hvalid|]. split; [exact Hquiet|].
  destruct (failed_job_stays_outstanding "u" (One 0) 0 [] 1 None
              (Sim.fresh_remote [Sim.failing]) Sim.unitA Sim.unitA_chip0
              eq_refl eq_refl eq_refl eq_refl
              Sim.failing [] [Reload Sim.queued false] Sim.failed false []
              Hvalid eq_refl eq_refl eq_refl eq_refl Hquiet eq_refl)
    as (st' & Hrun & Hjobs & Hreset).
  exists st'. split; [exact Hrun|]. split; [exact Hjobs|]. exact (Hreset None).
Defined.

Lemma interrupted_wait_witness :
  interrupts Sim.queued [Reload Sim.queued false; Interrupt] (Fetch VNone) Sim.queued
  ∧ (∃ st',
       jobs st' = [Sim.queued]
       ∧ Sim.remote_run (One 0) (Sim.fresh_remote [Sim.interrupted])
         = (st', inr (Result.mk None VNone))
       ∧ last (log st') = Some (EvPrint "Job 42 is queued in the background."))
  ∧ ∃ st',
      jobs st' = [Sim.unacknowledged]
      ∧ Sim.remote_run (One 0) (Sim.fresh_remote [Sim.interrupted_early])
        = (st', inl job_not_sent).
Proof.
  assert (interrupts Sim.queued [Reload Sim.queued false; Interrupt] (Fetch VNone)
            Sim.queued) as Hint.
  { apply interrupts_later; [reflexivity|reflexivity|].
    apply interrupts_reload. reflexivity. }
  split; [exact Hint|]. split.
  - exact (interrupted_wait "u" (One 0) 0 [] 1 None
             (Sim.fresh_remote [Sim.interrupted]) Sim.unitA Sim.unitA_chip0
             eq_refl eq_refl eq_refl eq_refl Sim.interrupted [] Sim.queued
             eq_refl eq_refl Hint).
  - exact (interrupted_wait "u" (One 0) 0 [] 1 None
             (Sim.fresh_remote [Sim.interrupted_early]) Sim.unitA Sim.unitA_chip0
             eq_refl eq_refl eq_refl eq_refl Sim.interrupted_early []
             Sim.unacknowledged eq_refl eq_refl
             (interrupts_reload Sim.unacknowledged [] (Fetch VNone) eq_refl)).
Defined.

Lemma duplicate_submission_rejected_witness :
  history_valid Sim.busy ∧ jobs Sim.busy ≠ []
  ∧ ∃ st1,
      Sim.remote_run (One 0) Sim.busy = (st1, inl job_queued)
      ∧ log st1 = log Sim.busy ∧ service st1 = service Sim.busy ∧ jobs st1 = jobs Sim.busy
      ∧ ∃ st2,
          StarshipEngine.reset None st1 = (st2, inr tt) ∧ jobs st2 = []
          ∧ (Sim.remote_run (One 0) st2).2
            = inr (Result.mk None (VList [VNum 1; VNum 2])).
Proof.
  assert (history_valid Sim.busy) as Hvalid by (unfold history_valid; decided).
  assert (jobs Sim.busy ≠ []) as Hjobs by (vm_compute; discriminate).
  split; [exact Hvalid|]. split; [exact Hjobs|].
  destruct (duplicate_submission_rejected "u" (One 0) 0 [] 1 None Sim.busy
              Sim.unitA Sim.unitA_chip0
              ltac:(evaluated) eq_refl ltac:(evaluated) eq_refl Hvalid Hjobs)
    as (st1 & Hrun & Hlog & Hservice & Hjobs1 & Hreset).
  exists st1. split; [exact Hrun|]. split; [exact Hlog|].
  split; [exact Hservice|]. split; [exact Hjobs1|].
  destruct (Hreset None) as (st2 & Hst2 & Hjobs2 & Hagain).
  exists st2. split; [exact Hst2|]. split; [exact Hjobs2|].
  destruct (Sim.remote_run (One 0) st2) as [st3 r] eqn:Hsecond.
  destruct (Hagain Sim.ready [] st3 r ltac:(evaluated) Hsecond) as [_ Hpayload].
  exact (Hpayload (VList [VNum 1; VNum 2]) eq_refl eq_refl).
Defined.

Lemma reset_options_counterexample :
  (LocalEngine.reset (Some {["batch_size" := VNum 2]}) Sim.fresh_local).2 = inr tt
  ∧ backend_options
      (LocalEngine.reset (Some {["batch_size" := VNum 2]}) Sim.fresh_local).1
    !! "batch_size" = None.
Proof. split; evaluated. Qed.

Lemma reset_contract_witness :
  history_valid Sim.used
  ∧ val (regrefs Sim.used) 0 = VNum 3
  ∧ ∃ stL,
      LocalEngine.reset (Some {["cutoff_dim" := VNum 5]}) Sim.used = (stL, inr tt)
      ∧ run_progs stL = [] ∧ samples stL = SNone
      ∧ programs stL = programs Sim.used
      ∧ val (regrefs stL) 0 = VNone
      ∧ backend_options stL !! "cutoff_dim" = Some (VNum 5).
Proof.
  assert (history_valid Sim.used) as Hvalid by (unfold history_valid; decided).
  split; [exact Hvalid|]. split; [evaluated|].
  destruct (reset_contract (Some {["cutoff_dim" := VNum 5]}) Sim.used Hvalid)
    as (stL & stS & HL & _ & _ & _ & Hoptions & _ & Hcleared).
  exists stL. split; [exact HL|].
  destruct (Hcleared stL (or_introl eq_refl)) as (Hhistory & Hsamples & Hprogs & Hregs).
  split; [exact Hhistory|]. split; [exact Hsamples|]. split; [exact Hprogs|]. split.
  - apply (Hregs 0 (Program.lock Sim.unitA) 0 0).
    + apply (bool_decide_unpack _). vm_compute. exact I.
    + evaluated.
    + evaluated.
  - apply (Hoptions "cutoff_dim" (VNum 5)); [evaluated | discriminate].
Defined.

Lemma backend_initialised_once_witness :
  ∃ st',
    Sim.local_run (Many [0; 1]) 1 Sim.fresh_local
    = (st', inr (Result.mk None (VList [VNum 3; VNone])))
    ∧ initialisations (log st') = [2]
    ∧ run_progs st' = [0; 1].
Proof.
  set (st' := (Sim.local_run (Many [0; 1]) 1 Sim.fresh_local).1).
  assert (Sim.local_run (Many [0; 1]) 1 Sim.fresh_local
          = (st', inr (Result.mk None (VList [VNum 3; VNone])))) as Hrun by evaluated.
  exists st'. split; [exact Hrun|]. split; [|evaluated].
  exact (proj1 backend_initialised_once (Many [0; 1]) 1%Z ∅ ∅ Sim.fresh_local st' _
           Hrun).
Defined.

Lemma hardware_unit_recorded_witness :
  ∃ st',
    Sim.remote_run (One 0) (Sim.fresh_remote [Sim.failing]) = (st', inl job_failed)
    ∧ run_progs st' = [5]
    ∧ ∃ Q, programs st' !! 5 = Some Q ∧ Program.locked Q = true.
Proof.
  set (st' := (Sim.remote_run (One 0) (Sim.fresh_remote [Sim.failing])).1).
  assert (Sim.remote_run (One 0) (Sim.fresh_remote [Sim.failing])
          = (st', inl job_failed)) as Hrun by evaluated.
  exists st'. split; [exact Hrun|].
  destruct (hardware_unit_recorded_before_submission "u" (One 0) 0 [] 1 None
              (Sim.fresh_remote [Sim.failing]) Sim.unitA Sim.unitA_chip0
              eq_refl eq_refl eq_refl eq_refl)
    as (_ & _ & _ & _ & _ & _ & Hafter).
  exact (Hafter st' _ Hrun).
Defined.

End OnTheSimulator.

(** * Further properties *)

(** ** Relations that every step of a computation keeps *)

Section Steps.
Context `{Collaborators}.
Context (R : state → state → Prop) `{!PreOrder R}.

Lemma steps_ret {A} (a : A) : steps R (ret a).
Proof. intros st st' r [= <- _]. reflexivity. Qed.

Lemma steps_raise {A} e : steps R (raise (A:=A) e).
Proof. intros st st' r [= <- _]. reflexivity. Qed.

Lemma steps_lift {A} (x : Exn + A) : steps R (lift x).
Proof. intros st st' r [= <- _]. reflexivity. Qed.

Lemma steps_get : steps R get.
Proof. intros st st' r [= <- _]. reflexivity. Qed.

Lemma steps_modify g : (∀ st, R st (g st)) → steps R (modify g).
Proof. intros Hg st st' r [= <- _]. apply Hg. Qed.

Lemma steps_bind {A C} (m : M A) (k : A → M C) :
  steps R m → (∀ a, steps R (k a)) → steps R (bind m k).
Proof.
  intros Hm Hk st st' r Hrun.
  apply bind_inv in Hrun as [(e & Hrun & _)|(s & a & Hrun & Hrest)].
  - eapply Hm, Hrun.
  - transitivity s; [eapply Hm, Hrun | eapply Hk, Hrest].
Qed.

Lemma steps_deref p : steps R (deref p).
Proof.
  intros st st' r. unfold deref, bind, get.
  destruct (programs st !! p); intros [= <- _]; reflexivity.
Qed.

(** A part of the state that is left alone is related to itself. *)
Lemma steps_preserves {A X} (f : state → X) (m : M A) :
  (∀ st st', f st' = f st → R st st') → preserves f m → steps R m.
Proof. intros Hf Hm st st' r Hrun. eapply Hf, Hm, Hrun. Qed.

End Steps.

Ltac steps_step side :=
  lazymatch goal with
  | |- PreOrder _ => assumption
  | |- ∀ _, steps _ _ => intros ?; cbv beta
  | |- ∀ _, _ => intros ?; side
  | |- steps _ (ret _) => apply steps_ret
  | |- steps _ (raise _) => apply steps_raise
  | |- steps _ (lift _) => apply steps_lift
  | |- steps _ get => apply steps_get
  | |- steps _ (deref _) => apply steps_deref
  | |- steps _ (modify _) => apply steps_modify
  | |- steps _ (bind _ _) => apply steps_bind
  | |- steps _ (match ?x with _ => _ end) => destruct x
  end.

(** ** What a run of the local engine does to the stores and the log *)

Section LocalSteps.
Context `{Collaborators}.
Context (R : state → state → Prop) `{!PreOrder R}.
Hypothesis R_samples : ∀ v st, R st (set_samples v st).
Hypothesis R_regrefs : ∀ v st, R st (set_regrefs v st).
Hypothesis R_backend : ∀ v st, R st (set_backend v st).
Hypothesis R_emit : ∀ e st, R st (emit e st).
Hypothesis R_append : ∀ p st, R st (set_run_progs (run_progs st ++ [p]) st).
Hypothesis R_new : ∀ P st,
  R st (set_programs (<[fresh (dom (programs st)) := P]> (programs st)) st).
Hypothesis R_lock : ∀ p P st,
  programs st !! p = Some P →
  R st (set_programs (<[p := Program.lock P]> (programs st)) st).

Lemma compile_steps p name opts : steps R (Program_compile p name opts).
Proof.
  intros st st' r. unfold Program_compile. intros Hrun.
  apply bind_inv in Hrun as [(e & Hd & _)|(s & P & [-> HP]%deref_inr & Hrun)].
  { eapply steps_deref; [assumption | exact Hd]. }
  apply bind_inv in Hrun as [(e & [= <- _] & _)|(s & P' & [= <- _] & Hrun)].
  { reflexivity. }
  revert Hrun. intros [= <- _]. apply R_new.
Qed.

Lemma lock_steps p : steps R (Program_lock p).
Proof.
  intros st st' r. unfold Program_lock. intros Hrun.
  apply bind_inv in Hrun as [(e & Hd & _)|(s & P & [-> HP]%deref_inr & Hrun)].
  - eapply steps_deref; [assumption | exact Hd].
  - revert Hrun. intros [= <- _]. by apply R_lock.
Qed.

Lemma apply_commands_steps cmds kw : ∀ applied,
  steps R (LocalEngine.apply_commands cmds kw applied).
Proof.
  induction cmds as [|cmd cmds IH]; intros applied; cbn [LocalEngine.apply_commands].
  - by apply steps_ret.
  - repeat first
      [ apply IH
      | steps_step ltac:(etransitivity; [apply R_backend|];
                         etransitivity; [apply R_regrefs|]; apply R_emit) ].
Qed.

Lemma local_run_program_steps p kw : steps R (LocalEngine._run_program p kw).
Proof.
  unfold LocalEngine._run_program.
  repeat first [ apply apply_commands_steps | steps_step idtac ].
Qed.

Lemma copy_samples_steps P items : ∀ k, steps R (BaseEngine.copy_samples P k items).
Proof.
  induction items as [|v items IH]; intros k; cbn [BaseEngine.copy_samples].
  - by apply steps_ret.
  - repeat first
      [ apply IH | steps_step ltac:(first [apply R_samples | apply R_regrefs]) ].
Qed.

Lemma enter_steps prev p P : steps R (enter prev p P).
Proof.
  unfold enter, LocalEngine._init_backend, BaseEngine.copy_latest.
  repeat first
    [ apply copy_samples_steps
    | steps_step ltac:(etransitivity; [apply R_backend|]; apply R_emit) ].
Qed.

Lemma execute_steps shots co kw p P : steps R (execute shots co kw p P).
Proof.
  unfold execute.
  repeat first
    [ apply compile_steps | apply lock_steps | apply local_run_program_steps
    | steps_step ltac:(first [apply R_append | apply R_samples]) ].
Qed.

Lemma run_unit_steps shots co kw prev p :
  steps R (BaseEngine.run_unit LocalEngine.class shots co kw prev p).
Proof.
  rewrite run_unit_eq.
  repeat first [ apply enter_steps | apply execute_steps | steps_step idtac ].
Qed.

Lemma run_units_steps shots co kw program : ∀ prev,
  steps R (BaseEngine.run_units LocalEngine.class shots co kw prev program).
Proof.
  induction program as [|p program IH]; intros prev; cbn [BaseEngine.run_units].
  - by apply steps_ret.
  - apply steps_bind; [assumption | apply run_unit_steps | intros p'; apply IH].
Qed.

Lemma local_run_steps program shots co kw :
  steps R (BaseEngine._run LocalEngine.class program shots co kw).
Proof.
  assert (∀ st,
            steps R
              (BaseEngine.run_units LocalEngine.class shots co
                 (<["shots" := VNum shots]> kw) (last (run_progs st))
                 (BaseEngine.as_sequence program);;
               items <- BaseEngine.list_samples;;
               lift (Result.init (StateHandle:=StateHandle) (VList items))))
    as Hsteps.
  { intros st. unfold BaseEngine.list_samples.
    repeat first [ apply run_units_steps | steps_step ltac:(apply R_samples) ]. }
  intros st st' r. rewrite local_run_eq. apply Hsteps.
Qed.

End LocalSteps.

Section Relations.
Context `{Collaborators}.

#[local] Instance untouched_preorder {X} (f : state → X) : PreOrder (untouched f).
Proof.
  split.
  - intros st. reflexivity.
  - intros st1 st2 st3 H12 H23. unfold untouched in *. congruence.
Qed.

#[local] Instance store_grows_preorder : PreOrder store_grows.
Proof.
  split.
  - intros st q Q HQ. eauto.
  - intros st1 st2 st3 H12 H23 q Q HQ.
    destruct (H12 q Q HQ) as (Q2 & HQ2 & Hl2).
    destruct (H23 q Q2 HQ2) as (Q3 & HQ3 & Hl3). eauto.
Qed.

#[local] Instance log_grows_preorder : PreOrder log_grows.
Proof.
  split.
  - intros st. exists []. by rewrite app_nil_r.
  - intros st1 st2 st3 [c1 H1] [c2 H2]. exists (c1 ++ c2).
    by rewrite H2, H1, app_assoc.
Qed.

Lemma store_grows_same st st' : programs st' = programs st → store_grows st st'.
Proof. intros Heq q Q HQ. rewrite Heq. eauto. Qed.

Lemma store_grows_new P st :
  store_grows st (set_programs (<[fresh (dom (programs st)) := P]> (programs st)) st).
Proof.
  intros q Q HQ. exists Q. split; [|done]. cbn.
  rewrite lookup_insert_ne; [exact HQ|]. apply not_eq_sym, fresh_ploc_ne. eauto.
Qed.

Lemma store_grows_lock p P st :
  programs st !! p = Some P →
  store_grows st (set_programs (<[p := Program.lock P]> (programs st)) st).
Proof.
  intros HP q Q HQ. cbn. destruct (decide (p = q)) as [->|Hne].
  - rewrite lookup_insert_eq. eauto.
  - rewrite lookup_insert_ne by done. eauto.
Qed.

Lemma log_grows_same st st' : log st' = log st → log_grows st st'.
Proof. intros Heq. exists []. by rewrite app_nil_r. Qed.

Lemma log_grows_emit e st : log_grows st (emit e st).
Proof. by exists [e]. Qed.

(** A local run only adds to the Program store, and keeps locked what is
    locked. *)
Lemma local_run_store_grows program shots co kw :
  steps store_grows (BaseEngine._run LocalEngine.class program shots co kw).
Proof.
  apply local_run_steps; try (intros; by apply store_grows_same); try apply _.
  - apply store_grows_new.
  - apply store_grows_lock.
Qed.

Lemma run_units_store_grows shots co kw program prev :
  steps store_grows (BaseEngine.run_units LocalEngine.class shots co kw prev program).
Proof.
  apply run_units_steps; try (intros; by apply store_grows_same); try apply _.
  - apply store_grows_new.
  - apply store_grows_lock.
Qed.

Lemma local_run_log_grows program shots co kw :
  steps log_grows (BaseEngine._run LocalEngine.class program shots co kw).
Proof.
  apply local_run_steps; try (intros; by apply log_grows_same); try apply _.
  apply log_grows_emit.
Qed.

Lemma local_run_untouched {X} (f : state → X) program shots co kw :
  (∀ v st, f (set_samples v st) = f st) →
  (∀ v st, f (set_regrefs v st) = f st) →
  (∀ v st, f (set_backend v st) = f st) →
  (∀ e st, f (emit e st) = f st) →
  (∀ v st, f (set_run_progs v st) = f st) →
  (∀ v st, f (set_programs v st) = f st) →
  steps (untouched f) (BaseEngine._run LocalEngine.class program shots co kw).
Proof.
  intros Hs Hr Hb He Hp Hm.
  apply local_run_steps; try apply _; unfold untouched; auto.
Qed.

End Relations.

#[local] Existing Instance untouched_preorder.
#[local] Existing Instance store_grows_preorder.
#[local] Existing Instance log_grows_preorder.

(** ** The run history *)

Section History.
Context `{Collaborators}.

Lemma run_units_history shots co kw program : ∀ prev st st' r,
  BaseEngine.run_units LocalEngine.class shots co kw prev program st = (st', r) →
  ∃ added,
    run_progs st' = run_progs st ++ added
    ∧ length added ≤ length program
    ∧ (returns r → length added = length program)
    ∧ Forall (λ p, ∃ P, programs st' !! p = Some P ∧ Program.locked P = true) added.
Proof.
  induction program as [|p program IH]; intros prev st st' r;
    cbn [BaseEngine.run_units].
  - intros [= <- <-]. exists []. rewrite app_nil_r. repeat split; auto.
  - intros Hrun.
    apply bind_inv in Hrun as [(e & Hunit & ->)|(s & p' & Hunit & Hrun)].
    + exists []. rewrite app_nil_r. apply run_unit_inl in Hunit.
      repeat split; [done | cbn; lia | by intros [] | constructor].
    + pose proof (run_units_store_grows _ _ _ _ _ _ _ _ Hrun) as Hgrows.
      destruct (IH _ _ _ _ Hrun) as (added & Hhist & Hle & Hlen & Hlocked).
      apply run_unit_inr in Hunit as (s0 & P' & HP' & HlP' & Hs0 & ->).
      exists (p' :: added). split; [|split; [|split]].
      * rewrite Hhist. cbn. rewrite Hs0, <- app_assoc. reflexivity.
      * cbn. lia.
      * intros Hr. cbn. by rewrite Hlen.
      * constructor; [|exact Hlocked].
        destruct (Hgrows p' P' HP') as (Q & HQ & Hl). eauto.
Qed.

Lemma local_run_history program shots co kw st st' r :
  BaseEngine._run LocalEngine.class program shots co kw st = (st', r) →
  ∃ added,
    run_progs st' = run_progs st ++ added
    ∧ length added ≤ length (BaseEngine.as_sequence program)
    ∧ (returns r → length added = length (BaseEngine.as_sequence program))
    ∧ Forall (λ p, ∃ P, programs st' !! p = Some P ∧ Program.locked P = true) added.
Proof.
  rewrite local_run_eq. intros Hrun.
  apply bind_inv in Hrun as [(e & Hunits & ->)|(s & [] & Hunits & Hrun)].
  - destruct (run_units_history _ _ _ _ _ _ _ _ Hunits) as (added & ? & ? & ? & ?).
    exists added. repeat split; done.
  - destruct (run_units_history _ _ _ _ _ _ _ _ Hunits)
      as (added & Hhist & Hle & Hlen & Hlocked).
    assert (run_progs st' = run_progs s ∧ programs st' = programs s) as [Hr Hp].
    { split; revert Hrun.
      - apply (preserves_bind run_progs);
          [by apply list_samples_preserves | intros; apply preserves_lift].
      - apply (preserves_bind programs);
          [by apply list_samples_preserves | intros; apply preserves_lift]. }
    exists added. rewrite Hr, Hp. repeat split; try done.
    intros _. by apply Hlen.
Qed.

(** X1: a run of the local engine only appends to the run history: one
    unit for each unit given when it returns, and fewer or as many when it
    raises. *)
Theorem local_run_appends program shots co kw st st' r :
  BaseEngine._run LocalEngine.class program shots co kw st = (st', r) →
  ∃ added,
    run_progs st' = run_progs st ++ added
    ∧ length added ≤ length (BaseEngine.as_sequence program)
    ∧ (returns r → length added = length (BaseEngine.as_sequence program)).
Proof.
  intros Hrun.
  destruct (local_run_history _ _ _ _ _ _ _ Hrun) as (added & ? & ? & ? & _). eauto.
Qed.

(** The hardware path of [_run], taken apart: it raises before anything
    is changed, or it calls [_run_program] on the recorded unit. *)
Lemma hardware_run_inv cls program shots co kw st st' r :
  backend_name st ∈ EngineClass.HARDWARE_BACKENDS cls →
  BaseEngine._run cls program shots co kw st = (st', r) →
  (st' = st ∧ ¬ returns r)
  ∨ ∃ p ps P P',
      BaseEngine.as_sequence program = p :: ps
      ∧ programs st !! p = Some P
      ∧ compile (backend_name st) ∅ P = inr P'
      ∧ (out <- EngineClass._run_program cls (fresh (dom (programs st)))
                  (<["shots" := VNum shots]> kw);;
         BaseEngine.result_of out) (recorded st P') = (st', r).
Proof.
  intros Hhw.
  destruct (BaseEngine.as_sequence program) as [|p ps] eqn:Hseq.
  { unfold BaseEngine._run. cbv zeta. rewrite Hseq.
    unfold bind at 1, get at 1. rewrite bool_decide_true by exact Hhw.
    intros [= <- <-]. left. split; [done | by intros []]. }
  destruct (programs st !! p) as [P|] eqn:HP.
  - destruct (compile (backend_name st) ∅ P) as [e|P'] eqn:Hc.
    + unfold BaseEngine._run. cbv zeta. rewrite Hseq.
      unfold bind at 1, get at 1. rewrite bool_decide_true by exact Hhw.
      unfold bind at 1, ret at 1. unfold bind at 1, Program_compile.
      rewrite (bind_ok _ _ _ _ _ (deref_ok _ _ _ HP)). rewrite Hc.
      intros [= <- <-]. left. split; [done | by intros []].
    + rewrite (run_hardware cls program p ps shots co kw st P P' Hhw Hseq HP Hc).
      intros Hrun. right. exists p, ps, P, P'. auto.
  - unfold BaseEngine._run. cbv zeta. rewrite Hseq.
    unfold bind at 1, get at 1. rewrite bool_decide_true by exact Hhw.
    unfold bind at 1, ret at 1. unfold bind at 1, Program_compile.
    unfold bind at 1, deref, bind at 1, get. rewrite HP.
    intros [= <- <-]. left. split; [done | by intros []].
Qed.

(** X2: every unit of the run history is locked, and a run of either
    engine keeps it so, whether it returns or raises. *)
Theorem history_stays_locked :
  (∀ program shots co kw st st' r,
     history_locked st →
     BaseEngine._run LocalEngine.class program shots co kw st = (st', r) →
     history_locked st')
  ∧ (∀ program shots co kw st st' r,
       backend_name st ∈ StarshipEngine.HARDWARE_BACKENDS →
       history_locked st →
       BaseEngine._run StarshipEngine.class program shots co kw st = (st', r) →
       history_locked st').
Proof.
  split.
  - intros program shots co kw st st' r Hlocked Hrun.
    pose proof (local_run_store_grows _ _ _ _ _ _ _ Hrun) as Hgrows.
    destruct (local_run_history _ _ _ _ _ _ _ Hrun) as (added & Hhist & _ & _ & Hadded).
    unfold history_locked. rewrite Hhist. apply Forall_app. split; [|exact Hadded].
    eapply Forall_impl; [exact Hlocked|]. intros p (P & HP & Hl).
    destruct (Hgrows p P HP) as (Q & HQ & HlQ). eauto.
  - intros program shots co kw st st' r Hhw Hlocked Hrun.
    apply hardware_run_inv in Hrun; [|exact Hhw].
    destruct Hrun as [[-> _]|(p & ps & P & P' & _ & _ & _ & Hrun)]; [exact Hlocked|].
    assert (run_progs st' = run_progs (recorded st P')
            ∧ programs st' = programs (recorded st P')) as [Hr Hp].
    { split; revert Hrun.
      - apply (preserves_bind run_progs);
          [by apply starship_run_program_preserves | intros; apply result_of_preserves].
      - apply (preserves_bind programs);
          [by apply starship_run_program_preserves | intros; apply result_of_preserves]. }
    unfold history_locked. rewrite Hr, Hp. cbn [run_progs recorded set_run_progs].
    apply Forall_app. split.
    + eapply Forall_impl; [exact Hlocked|]. intros q (Q & HQ & Hl).
      exists Q. split; [by apply recorded_lookup_old | exact Hl].
    + apply Forall_singleton. exists (Program.lock P').
      split; [apply recorded_lookup | reflexivity].
Qed.

End History.

(** ** Taking over the values of the previous unit *)

Section Threading.
Context `{Collaborators}.

Lemma copy_samples_ok (P : Program.t Op) items : ∀ k0 st,
  (∀ i, i < length items → is_Some (Program.reg_refs P !! (k0 + i))) →
  ∃ st',
    BaseEngine.copy_samples P k0 items st = (st', inr tt)
    ∧ (items ≠ [] → samples st' = SIter [])
    ∧ (∀ i l v,
         items !! i = Some v → Program.reg_refs P !! (k0 + i) = Some l →
         (∀ i', i < i' < length items → Program.reg_refs P !! (k0 + i') ≠ Some l) →
         val (regrefs st') l = v)
    ∧ (∀ l, (∀ i, i < length items → Program.reg_refs P !! (k0 + i) ≠ Some l) →
            val (regrefs st') l = val (regrefs st) l).
Proof.
  induction items as [|v items IH]; intros k0 st Hregs.
  - exists st. split; [reflexivity|]. split; [done|]. split; [|done].
    intros i l v Hi. by rewrite lookup_nil in Hi.
  - destruct (Hregs 0) as [l0 Hl0]; [cbn; lia|]. rewrite Nat.add_0_r in Hl0.
    set (s1 := set_regrefs (<[l0 := v]> (regrefs st)) (set_samples (SIter items) st)).
    destruct (IH (S k0) s1) as (st' & Hrun & Hsamples & Hvals & Hothers).
    { intros i Hi. replace (S k0 + i) with (k0 + S i) by lia. apply Hregs. cbn. lia. }
    exists st'. split; [|split; [|split]].
    + cbn [BaseEngine.copy_samples]. unfold bind at 1, modify at 1.
      rewrite Hl0. unfold bind at 1, modify at 1. exact Hrun.
    + intros _. destruct items as [|v' items'].
      * by injection Hrun as <-.
      * by apply Hsamples.
    + intros [|i] l w Hi Hl Hlater.
      * cbn in Hi. injection Hi as <-. rewrite Nat.add_0_r, Hl0 in Hl.
        injection Hl as <-. rewrite Hothers.
        -- subst s1. cbn. by rewrite val_insert, decide_True.
        -- intros i Hi. replace (S k0 + i) with (k0 + S i) by lia.
           apply Hlater. cbn. lia.
      * cbn in Hi. apply (Hvals i l w Hi).
        -- by replace (S k0 + i) with (k0 + S i) by lia.
        -- intros i' Hi'. replace (S k0 + i') with (k0 + S i') by lia.
           apply Hlater. cbn. lia.
    + intros l Hl. rewrite Hothers.
      * subst s1. cbn. rewrite val_insert, decide_False; [done|].
        intros ->. apply (Hl 0); [cbn; lia | by rewrite Nat.add_0_r].
      * intros i Hi. replace (S k0 + i) with (k0 + S i) by lia. apply Hl. cbn. lia.
Qed.

(** X3: when a unit continues another, the items left in the cached
    samples are stored, by position, in the RegRef objects of its registers
    0, 1, ...: afterwards register [k] holds item [k] (the last one stored, if
    two of these registers are one RegRef object), the other RegRef objects
    are as before, the cached samples are used up, and nothing else has
    changed. *)
Theorem copy_latest_threads p P items st :
  programs st !! p = Some P →
  samples st = SIter items →
  (∀ k, k < length items → is_Some (Program.reg_refs P !! k)) →
  ∃ st',
    BaseEngine.copy_latest p st = (st', inr tt)
    ∧ samples st' = SIter []
    ∧ (∀ k l v,
         items !! k = Some v → Program.reg_refs P !! k = Some l →
         (∀ k', k < k' < length items → Program.reg_refs P !! k' ≠ Some l) →
         val (regrefs st') l = v)
    ∧ (∀ l, (∀ k, k < length items → Program.reg_refs P !! k ≠ Some l) →
            val (regrefs st') l = val (regrefs st) l)
    ∧ programs st' = programs st ∧ run_progs st' = run_progs st
    ∧ backend st' = backend st ∧ log st' = log st.
Proof.
  intros HP Hsamples Hregs.
  destruct (copy_samples_ok P items 0 st Hregs) as (st' & Hrun & Hused & Hvals & Hothers).
  assert (BaseEngine.copy_latest p st = (st', inr tt)) as Hcopy.
  { unfold BaseEngine.copy_latest, bind at 1, get at 1. rewrite Hsamples.
    rewrite (bind_ok _ _ _ _ _ (deref_ok _ _ _ HP)). exact Hrun. }
  exists st'. split; [exact Hcopy|]. split; [|split; [exact Hvals|split; [exact Hothers|]]].
  - destruct items as [|v items].
    + injection Hrun as <-. exact Hsamples.
    + by apply Hused.
  - repeat split; revert Hcopy; apply copy_latest_preserves; reflexivity.
Qed.

Lemma copy_samples_missing (P : Program.t Op) items : ∀ k0 st k,
  k < length items →
  Program.reg_refs P !! (k0 + k) = None →
  (∀ i, i < k → is_Some (Program.reg_refs P !! (k0 + i))) →
  ∃ st',
    BaseEngine.copy_samples P k0 items st = (st', inl (KeyError (k0 + k)))
    ∧ samples st' = SIter (drop (S k) items).
Proof.
  induction items as [|v items IH]; intros k0 st k Hk Hnone Hsome; [cbn in Hk; lia|].
  destruct k as [|k].
  - rewrite Nat.add_0_r in *. eexists. split.
    + cbn [BaseEngine.copy_samples]. unfold bind at 1, modify at 1.
      rewrite Hnone. reflexivity.
    + cbn. by rewrite drop_0.
  - destruct (Hsome 0) as [l0 Hl0]; [lia|]. rewrite Nat.add_0_r in Hl0.
    set (s1 := set_regrefs (<[l0 := v]> (regrefs st)) (set_samples (SIter items) st)).
    destruct (IH (S k0) s1 k) as (st' & Hrun & Hleft).
    { cbn in Hk. lia. }
    { by replace (S k0 + k) with (k0 + S k) by lia. }
    { intros i Hi. replace (S k0 + i) with (k0 + S i) by lia. apply Hsome. lia. }
    exists st'. split; [|exact Hleft].
    cbn [BaseEngine.copy_samples]. unfold bind at 1, modify at 1.
    rewrite Hl0. unfold bind at 1, modify at 1.
    replace (k0 + S k) with (S k0 + k) by lia. exact Hrun.
Qed.

(** X4: when the continuing unit has no register [k] for item [k] of the
    cached samples (and has the registers before it), processing it raises
    [KeyError k]: the items up to that one are gone from the cached samples,
    and the unit is neither compiled nor locked nor run nor appended to the
    run history. *)
Theorem continuing_unit_missing_register shots co kw prev Pprev p P items st k :
  programs st !! p = Some P →
  programs st !! prev = Some Pprev →
  can_follow P Pprev = true →
  samples st = SIter items →
  k < length items →
  Program.reg_refs P !! k = None →
  (∀ i, i < k → is_Some (Program.reg_refs P !! i)) →
  ∃ st',
    BaseEngine.run_unit LocalEngine.class shots co kw (Some prev) p st
    = (st', inl (KeyError k))
    ∧ samples st' = SIter (drop (S k) items)
    ∧ programs st' = programs st ∧ run_progs st' = run_progs st
    ∧ backend st' = backend st ∧ log st' = log st.
Proof.
  intros HP Hprev Hcan Hsamples Hk Hnone Hsome.
  destruct (copy_samples_missing P items 0 st k Hk Hnone Hsome) as (st' & Hrun & Hleft).
  assert (BaseEngine.copy_latest p st = (st', inl (KeyError k))) as Hcopy.
  { unfold BaseEngine.copy_latest, bind at 1, get at 1. rewrite Hsamples.
    rewrite (bind_ok _ _ _ _ _ (deref_ok _ _ _ HP)). exact Hrun. }
  exists st'. split; [|split; [exact Hleft|]].
  - unfold BaseEngine.run_unit.
    rewrite (bind_ok _ _ _ _ _ (deref_ok _ _ _ HP)).
    apply bind_raises.
    rewrite (bind_ok _ _ _ _ _ (deref_ok _ _ _ Hprev)).
    rewrite Hcan. exact Hcopy.
  - repeat split; revert Hcopy; apply copy_latest_preserves; reflexivity.
Qed.

End Threading.

(** ** Edge cases of a run *)

Section Edges.
Context `{Collaborators}.

(** X5: a run with no unit.  The local engine raises [TypeError] when it
    has no cached samples (it has run nothing since it was made or reset),
    having changed nothing; otherwise it gives the [Result] of the items
    left in the cached samples and uses them up.  The remote engine raises
    [IndexError], having changed nothing. *)
Theorem run_of_no_unit shots co kw st :
  (samples st = SNone →
   BaseEngine._run LocalEngine.class (Many []) shots co kw st
   = (st, inl (TypeError "'NoneType' object is not iterable")))
  ∧ (∀ items, samples st = SIter items →
       BaseEngine._run LocalEngine.class (Many []) shots co kw st
       = (set_samples (SIter []) st, Result.init (VList items)))
  ∧ (backend_name st ∈ StarshipEngine.HARDWARE_BACKENDS →
     BaseEngine._run StarshipEngine.class (Many []) shots co kw st
     = (st, inl IndexError)).
Proof.
  split; [|split].
  - intros Hs. rewrite local_run_eq.
    cbn [BaseEngine.as_sequence BaseEngine.run_units].
    unfold bind at 1, ret at 1. apply bind_raises.
    unfold BaseEngine.list_samples, bind, get. rewrite Hs. reflexivity.
  - intros items Hs. rewrite local_run_eq.
    cbn [BaseEngine.as_sequence BaseEngine.run_units].
    unfold bind at 1, ret at 1.
    unfold BaseEngine.list_samples, bind, get. rewrite Hs. reflexivity.
  - intros Hhw. unfold BaseEngine._run. cbv zeta.
    unfold bind at 1, get at 1. rewrite bool_decide_true by exact Hhw. reflexivity.
Qed.

(** What [execute] does to the Program store. *)
Lemma execute_programs shots co kw p P st st' p' :
  programs st !! p = Some P →
  execute shots co kw p P st = (st', inr p') →
  (Program.backend P = Some (backend_name st) →
   p' = p ∧ programs st' = <[p := Program.lock P]> (programs st))
  ∧ (Program.backend P ≠ Some (backend_name st) →
     ∃ P', compile (backend_name st) co P = inr P'
           ∧ p' = fresh (dom (programs st)) ∧ p' ≠ p
           ∧ programs st' = <[p' := Program.lock P']> (<[p' := P']> (programs st))
           ∧ programs st' !! p = Some P).
Proof.
  intros HP. unfold execute. intros Hrun.
  apply bind_inr in Hrun as (s0 & st0 & [-> ->]%get_inr & Hrun).
  apply bind_inr in Hrun as (s1 & q & Hcompile & Hrun).
  apply bind_inr in Hrun as (s2 & [] & Hlock & Hrun).
  apply bind_inr in Hrun as (s3 & out & Hprog & Hrun).
  apply bind_inr in Hrun as (s4 & [] & ->%modify_inr & Hrun).
  assert (programs st' = programs s2 ∧ p' = q) as [Hst' ->].
  { assert (programs s3 = programs s2) as Hp3.
    { revert Hprog. apply local_run_program_preserves; reflexivity. }
    apply bind_inr in Hrun as (s5 & Q & [-> HQ]%deref_inr & Hrun).
    revert Hrun. intros [= <- <-]. auto. }
  rewrite Hst'. clear Hrun Hprog Hst'.
  destruct (bool_decide (Program.backend P ≠ Some (backend_name st))) eqn:Hb.
  - apply bool_decide_eq_true_1 in Hb.
    unfold Program_compile in Hcompile.
    rewrite (bind_ok _ _ _ _ _ (deref_ok _ _ _ HP)) in Hcompile.
    apply bind_inr in Hcompile as (s & P' & Hc & Hnew).
    revert Hc. unfold lift. intros [= <- Hc].
    revert Hnew. unfold new_program, bind, get, modify, ret. intros [= <- <-].
    assert (fresh (dom (programs st)) ≠ p) as Hne.
    { apply not_eq_sym, fresh_ploc_ne. eauto. }
    unfold Program_lock in Hlock.
    rewrite (bind_ok _ _ _ _ P') in Hlock
      by (apply deref_ok; cbn; apply lookup_insert_eq).
    apply modify_inr in Hlock as ->. cbn.
    split; [done|]. intros _. exists P'. repeat split; try done.
    rewrite !lookup_insert_ne by done. exact HP.
  - apply bool_decide_eq_false_1 in Hb. apply dec_stable in Hb.
    apply ret_inr in Hcompile as [-> ->].
    unfold Program_lock in Hlock.
    rewrite (bind_ok _ _ _ _ _ (deref_ok _ _ _ HP)) in Hlock.
    apply modify_inr in Hlock as ->. cbn.
    split; [done|]. intros Hne. done.
Qed.

(** X6: a unit bound to the backend of the engine is not compiled: the
    Program object given is itself locked and appended to the run history.
    A unit bound to no backend or to another one is compiled for the
    backend of the engine with the caller's compile options, and the
    Program that [compile] gives is the one locked and appended. *)
Theorem unit_compiled_when_needed shots co kw prev p P st st' p' :
  programs st !! p = Some P →
  BaseEngine.run_unit LocalEngine.class shots co kw prev p st = (st', inr p') →
  last (run_progs st') = Some p'
  ∧ (Program.backend P = Some (backend_name st) →
     p' = p ∧ programs st' = <[p := Program.lock P]> (programs st))
  ∧ (Program.backend P ≠ Some (backend_name st) →
     ∃ P', compile (backend_name st) co P = inr P'
           ∧ programs st' !! p' = Some (Program.lock P')).
Proof.
  intros HP Hrun. split.
  { apply run_unit_inr in Hrun as (s & P' & _ & _ & _ & ->). cbn. apply last_snoc. }
  rewrite run_unit_eq in Hrun.
  rewrite (bind_ok _ _ _ _ _ (deref_ok _ _ _ HP)) in Hrun.
  apply bind_inr in Hrun as (s1 & [] & Henter & Hrun).
  assert (programs s1 = programs st ∧ backend_name s1 = backend_name st) as [Hp Hn].
  { split; revert Henter; apply enter_preserves; reflexivity. }
  rewrite <- Hp, <- Hn.
  destruct (execute_programs shots co kw p P s1 st' p') as [Hbound Hcompiled];
    [by rewrite Hp|exact Hrun|].
  split; [exact Hbound|]. intros Hother.
  destruct (Hcompiled Hother) as (P' & HP' & _ & _ & Hstore & _).
  exists P'. split; [exact HP'|]. rewrite Hstore. apply lookup_insert_eq.
Qed.

End Edges.

(** ** Applying the commands of a unit *)

Section Commands.
Context `{Collaborators}.

Lemma apply_commands_outcome kw cmds : ∀ applied st st' r,
  LocalEngine.apply_commands cmds kw applied st = (st', r) →
  match r with
  | inr out =>
      out = applied ++ cmds
      ∧ log st' = log st ++ ((λ c, EvApply c kw) <$> cmds)
  | inl e =>
      ∃ before cmd rest b regs e0,
        cmds = before ++ cmd :: rest
        ∧ log st' = log st ++ ((λ c, EvApply c kw) <$> (before ++ [cmd]))
        ∧ op_apply (Command.op cmd) (Command.reg cmd) kw b regs
          = (backend st', regrefs st', Some e0)
        ∧ e = reraised cmd (backend st') kw e0
  end.
Proof.
  induction cmds as [|cmd cmds IH]; intros applied st st' r;
    cbn [LocalEngine.apply_commands].
  - intros [= <- <-]. by rewrite !app_nil_r.
  - unfold bind at 1, get at 1.
    destruct (op_apply (Command.op cmd) (Command.reg cmd) kw (backend st) (regrefs st))
      as [[b regs] raised] eqn:Hop.
    unfold bind at 1, modify at 1.
    set (s1 := emit (EvApply cmd kw) (set_regrefs regs (set_backend b st))).
    destruct raised as [e0|].
    + assert (raise (A:=list (Command.t Op)) (reraised cmd b kw e0) s1 = (st', r) →
              match r with
              | inr out =>
                  out = applied ++ cmd :: cmds
                  ∧ log st' = log st ++ ((λ c, EvApply c kw) <$> cmd :: cmds)
              | inl e =>
                  ∃ before cmd0 rest b0 regs0 e1,
                    cmd :: cmds = before ++ cmd0 :: rest
                    ∧ log st' = log st ++ ((λ c, EvApply c kw) <$> (before ++ [cmd0]))
                    ∧ op_apply (Command.op cmd0) (Command.reg cmd0) kw b0 regs0
                      = (backend st', regrefs st', Some e1)
                    ∧ e = reraised cmd0 (backend st') kw e1
              end) as Hraise.
      { intros [= <- <-]. exists [], cmd, cmds, (backend st), (regrefs st), e0.
        repeat split; [exact Hop]. }
      destruct e0; exact Hraise.
    + intros Hrest. apply IH in Hrest. destruct r as [e|out].
      * destruct Hrest as (before & cmd0 & rest & b0 & regs0 & e1 & -> & Hlog & Hop0 & ->).
        exists (cmd :: before), cmd0, rest, b0, regs0, e1.
        repeat split; [|exact Hop0].
        rewrite Hlog. subst s1. cbn. by rewrite <- app_assoc.
      * destruct Hrest as [-> Hlog]. split; [by rewrite <- app_assoc|].
        rewrite Hlog. subst s1. cbn. by rewrite <- app_assoc.
Qed.

(** X7: the commands of a unit are applied in the order of its circuit.
    When none raises, all of them are applied and returned.  When one
    raises, those after it are not applied, and the exception is the one of
    the operation, with the message of the engine in place of its own for
    [NotApplicableError] and [NotImplementedError]. *)
Theorem commands_applied_until_one_raises prog P kw st st' r :
  programs st !! prog = Some P →
  LocalEngine._run_program prog kw st = (st', r) →
  match r with
  | inr out =>
      out = Applied (Program.circuit P)
      ∧ log st' = log st ++ ((λ c, EvApply c kw) <$> Program.circuit P)
  | inl e =>
      ∃ before cmd rest b regs e0,
        Program.circuit P = before ++ cmd :: rest
        ∧ log st' = log st ++ ((λ c, EvApply c kw) <$> (before ++ [cmd]))
        ∧ op_apply (Command.op cmd) (Command.reg cmd) kw b regs
          = (backend st', regrefs st', Some e0)
        ∧ e = reraised cmd (backend st') kw e0
  end.
Proof.
  intros HP. unfold LocalEngine._run_program.
  rewrite (bind_ok _ _ _ _ _ (deref_ok _ _ _ HP)). intros Hrun.
  apply bind_inv in Hrun as [(e & Hrun & ->)|(s & out & Hrun & [= <- <-])];
    apply apply_commands_outcome in Hrun.
  - exact Hrun.
  - destruct Hrun as [-> Hlog]. auto.
Qed.

End Commands.

(** ** The state handle of a result *)

Section StateHandles.
Context `{Collaborators}.

Lemma Result_init_state (v : pyval) (r : Result.t StateHandle) :
  Result.init v = inr r → Result.state r = None.
Proof.
  unfold Result.init. destruct (numpy.rectangular v); cbn [negb]; [|discriminate].
  destruct (bool_decide _).
  - destruct (numpy.int64_entries v); cbn [negb]; [|discriminate].
    destruct v as [| | |l|]; try discriminate.
    destruct (numpy.stack1 l); [|discriminate]. by intros [= <-].
  - by intros [= <-].
Qed.

Lemma local_run_result_state program shots co kw st st' r :
  BaseEngine._run LocalEngine.class program shots co kw st = (st', inr r) →
  Result.state r = None.
Proof.
  rewrite local_run_eq. intros Hrun.
  apply bind_inr in Hrun as (s1 & [] & _ & Hrun).
  apply bind_inr in Hrun as (s2 & items & _ & Hrun).
  revert Hrun. unfold lift. intros [= _ Hr]. by apply Result_init_state in Hr.
Qed.

(** X8: the result of [LocalEngine.run] has the samples of [_run]; it has
    no state handle exactly when [modes] is an empty sequence, and
    otherwise the state of the backend as the run left it, asked for with
    [modes] and the state options.  When [_run] raises, the backend is not
    asked for its state. *)
Theorem local_run_state_handle program shots co modes so kw st :
  (∀ st' r,
     LocalEngine.run program shots co modes so kw st = (st', inr r) →
     ∃ s r0,
       BaseEngine._run LocalEngine.class program shots co kw st = (s, inr r0)
       ∧ Result.samples r = Result.samples r0
       ∧ match modes with
         | Some [] => st' = s ∧ Result.state r = None
         | _ => st' = emit (EvBackendState modes so) s
                ∧ Result.state r = Some (backend_state modes so (backend s))
         end)
  ∧ (∀ st' e,
       BaseEngine._run LocalEngine.class program shots co kw st = (st', inl e) →
       LocalEngine.run program shots co modes so kw st = (st', inl e)).
Proof.
  split.
  - intros st' r. unfold LocalEngine.run. intros Hrun.
    apply bind_inr in Hrun as (s & r0 & Hrun0 & Hrest).
    exists s, r0. split; [exact Hrun0|].
    pose proof (local_run_result_state _ _ _ _ _ _ _ Hrun0) as Hnone.
    destruct modes as [[|m ms]|]; revert Hrest.
    + intros [= <- <-]. auto.
    + intros [= <- <-]. auto.
    + intros [= <- <-]. auto.
  - intros st' e Hrun. unfold LocalEngine.run. by apply bind_raises.
Qed.

End StateHandles.

(** ** A run after a reset *)

Section AfterReset.
Context `{Collaborators}.

Lemma execute_log_grows shots co kw p P : steps log_grows (execute shots co kw p P).
Proof.
  apply execute_steps; try (intros; by apply log_grows_same); try apply _.
  apply log_grows_emit.
Qed.

Lemma run_units_log_grows shots co kw program prev :
  steps log_grows (BaseEngine.run_units LocalEngine.class shots co kw prev program).
Proof.
  apply run_units_steps; try (intros; by apply log_grows_same); try apply _.
  apply log_grows_emit.
Qed.

Lemma local_reset_spec new_options st :
  history_valid st →
  ∃ sR,
    LocalEngine.reset new_options st = (sR, inr tt)
    ∧ run_progs sR = [] ∧ programs sR = programs st
    ∧ backend_options sR = delete "batch_size" (default ∅ new_options ∪ backend_options st)
    ∧ backend sR = backend_reset (backend_options sR) (backend st)
    ∧ log sR = log st ++ [EvBackendReset (backend_options sR)].
Proof.
  intros Hv.
  destruct (BaseEngine_reset_spec (default ∅ new_options) st Hv) as (R & HR & _).
  eexists. split.
  - unfold LocalEngine.reset. cbv zeta. rewrite (bind_ok _ _ _ _ _ HR). reflexivity.
  - cbn. repeat split.
Qed.

(** X9: a reset of the local engine followed by a run: the backend is
    reset and then, before any other call, its circuit is begun with the
    register count the first unit declares, both with the stored options as
    the reset left them (the caller's merged in, [batch_size] dropped); the
    circuit is not begun again in that run. *)
Theorem reset_then_run_begins_circuit new_options program p ps shots co kw st st' r P :
  history_valid st →
  BaseEngine.as_sequence program = p :: ps →
  programs st !! p = Some P →
  (LocalEngine.reset new_options;;
   BaseEngine._run LocalEngine.class program shots co kw) st = (st', r) →
  ∃ calls,
    log st'
    = log st
      ++ EvBackendReset (delete "batch_size" (default ∅ new_options ∪ backend_options st))
      :: EvBeginCircuit (Program.init_num_subsystems P)
           (delete "batch_size" (default ∅ new_options ∪ backend_options st))
      :: calls
    ∧ initialisations calls = [].
Proof.
  intros Hv Hseq HP Hrun.
  destruct (local_reset_spec new_options st Hv)
    as (sR & Hreset & Hhist & Hprogs & Hopts & _ & Hlog).
  rewrite (bind_ok _ _ _ _ _ Hreset) in Hrun.
  set (o := delete "batch_size" (default ∅ new_options ∪ backend_options st)) in *.
  set (n := Program.init_num_subsystems P).
  set (sI := emit (EvBeginCircuit n o) (set_backend (begin_circuit n o (backend sR)) sR)).
  assert (log sI = log st ++ [EvBackendReset o; EvBeginCircuit n o]) as HlogI.
  { subst sI. cbn. rewrite Hlog, Hopts, <- app_assoc. reflexivity. }
  (* the calls made after the circuit is begun *)
  assert (log_grows sI st') as [calls Hcalls].
  { rewrite local_run_eq, Hhist, Hseq in Hrun. cbn [last BaseEngine.run_units] in Hrun.
    assert (∀ kw' s1 r1,
              BaseEngine.run_unit LocalEngine.class shots co kw' None p sR = (s1, r1) →
              log_grows sI s1) as Hunit.
    { intros kw' s1 r1. rewrite run_unit_eq.
      rewrite (bind_ok _ _ _ _ P) by (apply deref_ok; by rewrite Hprogs).
      unfold enter, LocalEngine._init_backend. unfold bind at 1, modify at 1.
      rewrite Hopts. apply execute_log_grows. }
    apply bind_inv in Hrun as [(e & Hunits & _)|(s & [] & Hunits & Hrun)].
    - apply bind_inv in Hunits as [(e0 & Hu & _)|(s1 & p' & Hu & Hrest)].
      + eapply Hunit, Hu.
      + transitivity s1; [eapply Hunit, Hu | eapply run_units_log_grows, Hrest].
    - assert (log st' = log s) as Hls.
      { revert Hrun. apply (preserves_bind log);
          [by apply list_samples_preserves | intros; apply preserves_lift]. }
      enough (log_grows sI s) as [c Hc] by (exists c; by rewrite Hls).
      apply bind_inv in Hunits as [(e0 & Hu & [= ])|(s1 & p' & Hu & Hrest)].
      transitivity s1; [eapply Hunit, Hu | eapply run_units_log_grows, Hrest]. }
  exists calls. split.
  { rewrite Hcalls, HlogI, <- app_assoc. reflexivity. }
  (* the circuit is begun once *)
  assert (initialisations (log st') = initialisations (log sR) ++ [n]) as Hcount.
  { rewrite local_run_eq, Hhist, Hseq in Hrun. cbn [last] in Hrun.
    apply bind_inv in Hrun as [(e & Hunits & _)|(s & [] & Hunits & Hrun)].
    - apply run_units_initialises in Hunits. by rewrite Hunits, Hprogs, HP.
    - assert (log st' = log s) as Hls.
      { revert Hrun. apply (preserves_bind log);
          [by apply list_samples_preserves | intros; apply preserves_lift]. }
      apply run_units_initialises in Hunits. by rewrite Hls, Hunits, Hprogs, HP. }
  rewrite Hcalls in Hcount. subst sI. cbn [log emit set_backend] in Hcount.
  unfold initialisations in Hcount. rewrite !omap_app in Hcount. cbn in Hcount.
  rewrite <- app_assoc in Hcount. apply app_inv_head in Hcount.
  cbn in Hcount. by injection Hcount.
Qed.

End AfterReset.

(** ** More on runs of the remote engine *)

Section RemoteMore.
Context `{Collaborators}.

(** X10: on the hardware path the units after the first are ignored: a
    run with several units is the run of the first one. *)
Theorem remote_run_first_unit_only p ps shots co kw st :
  backend_name st ∈ StarshipEngine.HARDWARE_BACKENDS →
  BaseEngine._run StarshipEngine.class (Many (p :: ps)) shots co kw st
  = BaseEngine._run StarshipEngine.class (One p) shots co kw st.
Proof.
  intros Hhw. cbv beta iota zeta delta [BaseEngine._run BaseEngine.as_sequence bind get].
  rewrite (bool_decide_true
             (backend_name st ∈ EngineClass.HARDWARE_BACKENDS StarshipEngine.class))
    by exact Hhw.
  reflexivity.
Qed.

(** X11: a run of the remote engine stores no measured value and caches
    no samples: the RegRef store, the cached samples, the backend and the
    stored options are as before, whether the run returns or raises. *)
Theorem remote_run_leaves_registers program shots co kw st st' r :
  backend_name st ∈ StarshipEngine.HARDWARE_BACKENDS →
  BaseEngine._run StarshipEngine.class program shots co kw st = (st', r) →
  regrefs st' = regrefs st ∧ samples st' = samples st
  ∧ backend st' = backend st ∧ backend_options st' = backend_options st
  ∧ backend_name st' = backend_name st.
Proof.
  intros Hhw Hrun. apply hardware_run_inv in Hrun; [|exact Hhw].
  destruct Hrun as [[-> _]|(p & ps & P & P' & _ & _ & _ & Hrun)]; [done|].
  assert (∀ {X} (f : state → X),
            (∀ j s, f (set_jobs j s) = f s) → (∀ e s, f (emit e s) = f s) →
            (∀ v s, f (set_service v s) = f s) →
            f st' = f (recorded st P')) as Hframe.
  { intros X f Hj He Hs. revert Hrun. apply preserves_bind.
    - by apply starship_run_program_preserves.
    - intros out. apply result_of_preserves. }
  repeat split.
  - by rewrite (Hframe _ regrefs).
  - by rewrite (Hframe _ samples).
  - by rewrite (Hframe _ backend).
  - by rewrite (Hframe _ backend_options).
  - by rewrite (Hframe _ backend_name).
Qed.

(** X12: a run of the local engine touches neither the jobs nor the
    remote service, and leaves the name of the backend and the stored
    options as they are, whether it returns or raises. *)
Theorem local_run_leaves_remote_state program shots co modes so kw st st' r :
  LocalEngine.run program shots co modes so kw st = (st', r) →
  jobs st' = jobs st ∧ service st' = service st
  ∧ backend_name st' = backend_name st ∧ backend_options st' = backend_options st.
Proof.
  intros Hrun.
  assert (∀ {X} (f : state → X),
            (∀ v st, f (set_samples v st) = f st) →
            (∀ v st, f (set_regrefs v st) = f st) →
            (∀ v st, f (set_backend v st) = f st) →
            (∀ e st, f (emit e st) = f st) →
            (∀ v st, f (set_run_progs v st) = f st) →
            (∀ v st, f (set_programs v st) = f st) →
            f st' = f st) as Hframe.
  { intros X f Hs Hr Hb He Hp Hm.
    enough (steps (untouched f) (LocalEngine.run program shots co modes so kw)) as Hsteps
      by exact (Hsteps _ _ _ Hrun).
    unfold LocalEngine.run.
    apply steps_bind; [apply _ | by apply local_run_untouched |].
    intros result. destruct modes as [[|m modes]|];
      repeat first [ steps_step ltac:(apply He) | apply _ ]. }
  repeat split; apply Hframe; reflexivity.
Qed.

End RemoteMore.

(** ** A job that completes *)

Section Completion.
Context `{Collaborators}.


Variables (uuid : string) (program : program_arg) (p : ploc) (ps : list ploc).
Variables (shots : Z) (name : option string) (st : state) (P P' : Program.t Op).
Hypothesis Hbackend : backend_name st = "chip0".
Hypothesis Hprogram : BaseEngine.as_sequence program = p :: ps.
Hypothesis Hunit : programs st !! p = Some P.
Hypothesis Hcompile : compile "chip0" ∅ P = inr P'.


End Completion.

(** ** Printing the run history *)

Section Printing.
Context `{Collaborators}.

Lemma emitted_log es : ∀ st,
  log (foldl (λ st e, emit e st) st es) = log st ++ es.
Proof.
  induction es as [|e es IH]; intros st; cbn [foldl].
  - by rewrite app_nil_r.
  - rewrite IH. cbn. by rewrite <- app_assoc.
Qed.

Lemma emitted_frame {X} (f : state → X) es :
  (∀ e st, f (emit e st) = f st) →
  ∀ st, f (foldl (λ st e, emit e st) st es) = f st.
Proof.
  intros He. induction es as [|e es IH]; intros st; cbn [foldl]; [done|].
  by rewrite IH.
Qed.

Lemma emitted_lines (ls : list string) : ∀ st,
  foldl (λ st line, emit (EvPrint line) st) st ls
  = foldl (λ st e, emit e st) st (EvPrint <$> ls).
Proof. induction ls as [|l ls IH]; intros st; cbn; [done|apply IH]. Qed.

Lemma print_runs_spec lines : ∀ runs k st,
  Forall (λ p, is_Some (programs st !! p)) runs →
  print_runs lines k runs st
  = (foldl (λ st e, emit e st) st
       (printed lines k (omap (λ p, programs st !! p) runs)), inr tt).
Proof.
  induction runs as [|r runs IH]; intros k st Hv; [reflexivity|].
  apply Forall_cons in Hv as [[R HR] Hv].
  cbn [print_runs omap list_omap]. rewrite HR. cbn [printed].
  unfold bind at 1, modify at 1.
  rewrite (bind_ok _ _ _ _ _ (deref_ok r (emit _ st) R HR)).
  unfold bind at 1, modify at 1. rewrite emitted_lines.
  set (st2 := foldl _ _ (EvPrint <$> lines R)).
  assert (programs st2 = programs st) as Hp.
  { unfold st2. by rewrite (emitted_frame programs). }
  rewrite IH by (by rewrite Hp). rewrite Hp.
  cbn [foldl]. by rewrite foldl_app.
Qed.

(** X14: [print_applied] on a run history whose units exist prints, for
    each unit in the order of the history, the header with its index
    (from 0) and then the lines of the unit; it changes nothing but the
    output. *)
Theorem print_applied_numbers_units lines st :
  history_valid st →
  ∃ st' units,
    print_applied lines st = (st', inr tt)
    ∧ Forall2 (λ p R, programs st !! p = Some R) (run_progs st) units
    ∧ log st' = log st ++ printed lines 0 units
    ∧ run_progs st' = run_progs st ∧ programs st' = programs st
    ∧ regrefs st' = regrefs st ∧ samples st' = samples st
    ∧ backend st' = backend st ∧ jobs st' = jobs st.
Proof.
  intros Hv. eexists. exists (omap (λ p, programs st !! p) (run_progs st)).
  split; [|split; [|split]].
  - unfold print_applied, bind at 1, get at 1. by apply print_runs_spec.
  - unfold history_valid in Hv. induction Hv as [|p ps [R HR] _ IH]; cbn.
    + constructor.
    + rewrite HR. by constructor.
  - apply emitted_log.
  - repeat split; by apply emitted_frame.
Qed.

(** X15: after a reset nothing is printed: the run history is empty, so
    [print_applied] makes no call at all. *)
Theorem nothing_printed_after_reset lines new_options st :
  history_valid st →
  ∃ st', (BaseEngine.reset new_options;; print_applied lines) st = (st', inr tt)
         ∧ log st' = log st ∧ run_progs st' = [].
Proof.
  intros Hv. destruct (BaseEngine_reset_spec new_options st Hv) as (R & HR & _).
  eexists. split; [|split].
  - rewrite (bind_ok _ _ _ _ _ HR). reflexivity.
  - reflexivity.
  - reflexivity.
Qed.

End Printing.

(** ** The text of a job description *)

Section JobContent.

Lemma string_append_cons c s t : String c s +:+ t = String c (s +:+ t).
Proof. reflexivity. Qed.

Lemma string_append_nil_r s : s +:+ "" = s.
Proof. induction s as [|c s IH]; [done|]. by rewrite string_append_cons, IH. Qed.

Lemma string_append_assoc s t u : (s +:+ t) +:+ u = s +:+ t +:+ u.
Proof. induction s as [|c s IH]; [done|]. by rewrite !string_append_cons, IH. Qed.

Lemma string_rev_app_spec s : ∀ t, String.rev_app s t = String.rev s +:+ t.
Proof.
  unfold String.rev. induction s as [|c s IH]; intros t; cbn; [done|].
  rewrite (IH (String c t)), (IH (String c "")). by rewrite string_append_assoc.
Qed.

Lemma string_rev_cons c s : String.rev (String c s) = String.rev s +:+ String c "".
Proof. unfold String.rev at 1. cbn. apply string_rev_app_spec. Qed.

Lemma string_rev_append s t : String.rev (s +:+ t) = String.rev t +:+ String.rev s.
Proof.
  induction s as [|c s IH].
  - by rewrite string_append_nil_r.
  - rewrite string_append_cons, !string_rev_cons, IH. by rewrite string_append_assoc.
Qed.

Lemma string_rev_involutive s : String.rev (String.rev s) = s.
Proof.
  induction s as [|c s IH]; [done|].
  rewrite string_rev_cons, string_rev_append, IH. done.
Qed.

Lemma string_rev_empty s : String.rev s = "" → s = "".
Proof. intros Hs. by rewrite <- (string_rev_involutive s), Hs. Qed.

Lemma lstrip_append s t :
  Str.lstrip (s +:+ t)
  = if bool_decide (Str.lstrip s = "") then Str.lstrip t else Str.lstrip s +:+ t.
Proof.
  induction s as [|c s IH]; [done|].
  rewrite string_append_cons. cbn [Str.lstrip].
  destruct (Str.is_space c); [exact IH|done].
Qed.

Lemma rstrip_append s t :
  rstrip (s +:+ t) = if bool_decide (rstrip t = "") then rstrip s else s +:+ rstrip t.
Proof.
  unfold rstrip. rewrite string_rev_append, lstrip_append.
  destruct (decide (Str.lstrip (String.rev t) = "")) as [Ht|Ht].
  - rewrite bool_decide_true by done. rewrite Ht. by rewrite bool_decide_true.
  - rewrite bool_decide_false by done.
    rewrite bool_decide_false by (intros Hr; by apply string_rev_empty in Hr).
    by rewrite string_rev_append, string_rev_involutive.
Qed.

Lemma split_lines_cons s : ∃ l ls, Str.split_lines s = l :: ls.
Proof.
  induction s as [|c s (l & ls & IH)]; cbn; [by eauto|].
  rewrite IH. case_bool_decide; eauto.
Qed.

Lemma split_lines_newline s t :
  Str.split_lines (s +:+ Str.newline +:+ t) = Str.split_lines s ++ Str.split_lines t.
Proof.
  induction s as [|c s IH]; [done|].
  rewrite string_append_cons. cbn [Str.split_lines].
  rewrite IH. case_bool_decide; [done|].
  by destruct (split_lines_cons s) as (l & ls & ->).
Qed.

Lemma strip_lines_indented c s :
  Str.is_space c = true → c ≠ "010"%char →
  Str.strip <$> Str.split_lines (String c s) = Str.strip <$> Str.split_lines s.
Proof.
  intros Hc Hn. cbn [Str.split_lines]. rewrite bool_decide_false by done.
  destruct (split_lines_cons s) as (l & ls & ->).
  cbn [fmap list_fmap]. unfold Str.strip at 1. cbn [Str.lstrip]. by rewrite Hc.
Qed.

Lemma strip_lines_pad s :
  Str.strip <$> Str.split_lines ("            " +:+ s) = Str.strip <$> Str.split_lines s.
Proof. do 12 (rewrite string_append_cons, strip_lines_indented by done). done. Qed.

Lemma rstrip_template_end code :
  rstrip (code +:+ Str.newline +:+ "        ") = rstrip code.
Proof. rewrite rstrip_append. by rewrite bool_decide_true. Qed.

Lemma string_append_nonempty s t : t ≠ "" → s +:+ t ≠ "".
Proof. destruct s; [done|]. by rewrite string_append_cons. Qed.

(** The lines of the stripped template, each stripped. *)
Lemma template_lines target name shots code :
  Str.strip <$> Str.split_lines
    (Str.strip
       (Str.newline +:+
        "            name " +:+ name +:+ Str.newline +:+
        "            version 1.0" +:+ Str.newline +:+
        "            target " +:+ target +:+ " (shots=" +:+ shots +:+ ")" +:+ Str.newline +:+
        Str.newline +:+
        "            " +:+ code +:+ Str.newline +:+
        "        "))
  = Str.strip <$> job_lines target name shots code.
Proof.
  unfold job_lines.
  set (head := "name " +:+ name +:+ Str.newline +:+
               "            version 1.0" +:+ Str.newline +:+
               "            target " +:+ target +:+ " (shots=" +:+ shots).
  set (template := Str.newline +:+ _).
  assert (Str.strip template
          = rstrip (head +:+ (")" +:+ Str.newline +:+ Str.newline +:+ "            ")
                      +:+ code +:+ Str.newline +:+ "        ")) as ->.
  { unfold Str.strip, template, head. fold (rstrip). f_equal.
    rewrite !string_append_assoc. reflexivity. }
  rewrite rstrip_append, rstrip_append, rstrip_template_end.
  assert (∀ tail,
            Str.strip <$> Str.split_lines (head +:+ ")" +:+ tail)
            = Str.strip <$>
                (Str.split_lines ("name " +:+ name)
                 ++ "version 1.0"
                 :: Str.split_lines
                      ("target " +:+ target +:+ " (shots=" +:+ shots +:+ ")" +:+ tail)))
    as Hhead.
  { intros tail.
    replace (head +:+ ")" +:+ tail)
      with (("name " +:+ name) +:+ Str.newline +:+
            "            version 1.0" +:+ Str.newline +:+
            "            " +:+
            "target " +:+ target +:+ " (shots=" +:+ shots +:+ ")" +:+ tail)
      by (unfold head; rewrite !string_append_assoc; reflexivity).
    rewrite !split_lines_newline, !fmap_app, strip_lines_pad. reflexivity. }
  destruct (decide (rstrip code = "")) as [Hblank|Hcode].
  - rewrite !(bool_decide_true (rstrip code = "")) by done. cbv iota.
    change (rstrip (")" +:+ Str.newline +:+ Str.newline +:+ "            ")) with ")".
    rewrite bool_decide_false by done.
    change (head +:+ ")") with (head +:+ ")" +:+ "").
    rewrite Hhead, app_nil_r. reflexivity.
  - rewrite !(bool_decide_false (rstrip code = "")) by done. cbv iota.
    rewrite bool_decide_false by (by apply string_append_nonempty).
    rewrite !string_append_assoc, Hhead.
    replace ("target " +:+ target +:+ " (shots=" +:+ shots +:+ ")" +:+
             Str.newline +:+ Str.newline +:+ "            " +:+ rstrip code)
      with (("target " +:+ target +:+ " (shots=" +:+ shots +:+ ")") +:+ Str.newline +:+
            "" +:+ Str.newline +:+ "            " +:+ rstrip code)
      by (rewrite !string_append_assoc; reflexivity).
    rewrite !split_lines_newline.
    repeat first [rewrite fmap_app | rewrite fmap_cons].
    rewrite strip_lines_pad. reflexivity.
Qed.

(** X16: for ASCII texts, the job description is made of the lines of the
    name, the version and the target with the shots and then, after an
    empty line, the lines of the code, each without the whitespace around
    it; the trailing whitespace and blank lines of the code are dropped,
    and for a blank code the description ends with the target line. *)
Theorem job_content_lines target name shots code :
  ascii_text target = true → ascii_text name = true →
  ascii_text shots = true → ascii_text code = true →
  StarshipEngine.generate_job_content target name shots code
  = Str.join_lines (Str.strip <$> job_lines target name shots code).
Proof.
  intros _ _ _ _. unfold StarshipEngine.generate_job_content. cbv zeta.
  f_equal. apply template_lines.
Qed.

Lemma rstrip_keeps s t : rstrip t = t → t ≠ "" → rstrip (s +:+ t) = s +:+ t.
Proof. intros Ht Hne. rewrite rstrip_append, Ht. by rewrite bool_decide_false. Qed.

Lemma one_line_cons c s : one_line (String c s) ↔ c ≠ "010"%char ∧ one_line s.
Proof.
  unfold one_line. cbn [Str.split_lines].
  destruct (split_lines_cons s) as (l & ls & Hs). rewrite Hs.
  case_bool_decide as Hc.
  - split; [discriminate|]. by intros [].
  - split.
    + intros [= -> ->]. done.
    + intros [_ [= -> ->]]. done.
Qed.

Lemma one_line_append s t : one_line s → one_line t → one_line (s +:+ t).
Proof.
  induction s as [|c s IH]; [done|]. rewrite string_append_cons, !one_line_cons.
  intros [Hc Hs] Ht. auto.
Qed.

(** X17: for ASCII texts, with a name, a target and a number of shots that
    are each one line of text, the name not empty and without trailing
    whitespace, and a code that is not blank, the job description is the
    three header lines, an empty line and the stripped lines of the
    code. *)
Theorem job_content_of_plain_name target name shots code :
  ascii_text target = true → ascii_text name = true →
  ascii_text shots = true → ascii_text code = true →
  one_line name → one_line target → one_line shots →
  rstrip name = name → name ≠ "" → rstrip code ≠ "" →
  StarshipEngine.generate_job_content target name shots code
  = "name " +:+ name +:+ Str.newline +:+
    "version 1.0" +:+ Str.newline +:+
    "target " +:+ target +:+ " (shots=" +:+ shots +:+ ")" +:+ Str.newline +:+
    Str.newline +:+
    Str.join_lines (Str.strip <$> Str.split_lines (rstrip code)).
Proof.
  intros _ _ _ _ Hname Htarget Hshots Hplain Hne Hcode.
  unfold StarshipEngine.generate_job_content. cbv zeta.
  rewrite template_lines. unfold job_lines.
  rewrite bool_decide_false by done.
  assert (one_line ("name " +:+ name)) as ->.
  { by apply one_line_append. }
  assert (one_line ("target " +:+ target +:+ " (shots=" +:+ shots +:+ ")")) as ->.
  { repeat apply one_line_append; done. }
  assert (Str.strip ("name " +:+ name) = "name " +:+ name) as Hn.
  { change (Str.strip ("name " +:+ name)) with (rstrip ("name " +:+ name)).
    by apply rstrip_keeps. }
  assert (Str.strip ("target " +:+ target +:+ " (shots=" +:+ shots +:+ ")")
          = "target " +:+ target +:+ " (shots=" +:+ shots +:+ ")") as Ht.
  { change (Str.strip ("target " +:+ ?x)) with (rstrip ("target " +:+ x)).
    do 4 (apply rstrip_keeps; [|repeat apply string_append_nonempty; done]). reflexivity. }
  destruct (split_lines_cons (rstrip code)) as (l & ls & Hl). rewrite Hl.
  cbn [app fmap list_fmap]. rewrite Hn, Ht. cbn [Str.join_lines].
  rewrite !string_append_assoc. reflexivity.
Qed.

End JobContent.
(** ** Keyword arguments of a run of the remote engine *)

Section RemoteKeywords.
Context `{Collaborators}.
Variables (uuid : string) (program : program_arg) (p : ploc) (ps : list ploc).
Variables (shots : Z) (name : option string) (st : state) (P P' : Program.t Op).
Hypothesis Hbackend : backend_name st = "chip0".
Hypothesis Hprogram : BaseEngine.as_sequence program = p :: ps.
Hypothesis Hunit : programs st !! p = Some P.
Hypothesis Hcompile : compile "chip0" ∅ P = inr P'.

(** X18: a run of the remote engine with a keyword argument that is no
    parameter of [run] or of [_run] raises a [TypeError]: the call of
    [generate_job_content] does not fit its signature.  No job is created
    and the service is not called, but the compiled unit is already locked
    and in the run history. *)
Theorem extra_keyword_rejected kwargs :
  Forall (λ k, kwargs !! k = None) run_parameters → kwargs ≠ ∅ →
  ∃ st' msg p',
    StarshipEngine.run uuid program shots name kwargs st = (st', inl (TypeError msg))
    ∧ jobs st' = jobs st ∧ service st' = service st ∧ log st' = log st
    ∧ run_progs st' = run_progs st ++ [p']
    ∧ programs st' !! p' = Some (Program.lock P').
Proof.
  intros Hparameters Hextra.
  assert (kwargs !! "name" = None ∧ kwargs !! "shots" = None) as [Hname Hshots].
  { rewrite Forall_forall in Hparameters.
    split; apply Hparameters; unfold run_parameters; set_solver. }
  exists (recorded st P'), "", (fresh (dom (programs st))).
  split; [|repeat split; apply recorded_lookup].
  unfold StarshipEngine.run. cbv zeta.
  erewrite run_hardware; [| |exact Hprogram|exact Hunit|rewrite Hbackend; exact Hcompile].
  2:{ rewrite Hbackend. cbn. apply list_elem_of_singleton. reflexivity. }
  apply bind_raises. cbn [EngineClass._run_program StarshipEngine.class].
  unfold StarshipEngine._run_program.
  rewrite (bind_ok _ _ _ _ _ (deref_ok _ _ _ (recorded_lookup st P'))). cbv zeta.
  apply bind_raises. unfold StarshipEngine.job_content_of, bind, get.
  rewrite lookup_insert_eq.
  rewrite lookup_insert_ne by done. rewrite lookup_insert_eq.
  rewrite bool_decide_false; [reflexivity|].
  rewrite map_size_insert_None by (by rewrite lookup_insert_ne).
  rewrite map_size_insert_None by done.
  apply map_size_non_empty_iff in Hextra. lia.
Qed.

End RemoteKeywords.

(** ** The text of a result *)

Section ResultText.
Context {StateHandle : Type}.
Variables (state_text : StateHandle → string) (samples_text : pyval → string).

(** X19: the number [Result.__str__] gives as the number of subsystems is
    the length of the first axis of the stored samples: the number of
    registers for one-dimensional samples, but the number of shots for
    samples of more dimensions, which [Result.__init__] has stacked; and
    for a result without samples [__str__] raises a [TypeError]. *)
Theorem Result_str_counts_first_axis (raw : pyval) (r : Result.t StateHandle) :
  Result.init raw = inr r →
  (∀ n, numpy.shape raw = [n] →
     Result_str state_text samples_text r
     = inr ("Result: " +:+ pretty n +:+ " subsystems, state: None" +:+ Str.newline
            +:+ " samples: " +:+ samples_text raw))
  ∧ (∀ n S rest, numpy.shape raw = n :: S :: rest →
       Result_str state_text samples_text r
       = inr ("Result: " +:+ pretty S +:+ " subsystems, state: None" +:+ Str.newline
              +:+ " samples: " +:+ samples_text (Result.samples r)))
  ∧ (raw = VNone →
       Result_str state_text samples_text r
       = inl (TypeError "object of type 'NoneType' has no len()")).
Proof.
  intros Hinit. unfold Result.init in Hinit.
  destruct (numpy.rectangular raw); cbn [negb] in Hinit; [|discriminate].
  split; [|split].
  - intros n Hshape. rewrite Hshape in Hinit.
    rewrite bool_decide_false in Hinit by (cbn; lia).
    injection Hinit as <-.
    destruct (shape_cons_length raw n [] Hshape) as (l & -> & <-). reflexivity.
  - intros n S rest Hshape.
    destruct (shape_inner raw n (S :: rest) Hshape) as (a & l & -> & Hn & Hall);
      [done|].
    rewrite Hshape in Hinit.
    rewrite bool_decide_true in Hinit by (cbn; lia).
    destruct (numpy.int64_entries (VList (a :: l))); cbn [negb] in Hinit;
      [|discriminate].
    rewrite (stack1_same_shape a l S rest Hall) in Hinit. injection Hinit as <-.
    unfold Result_str. cbn [Result.samples Result.state len from_option].
    by rewrite length_map, length_seq.
  - intros ->. injection Hinit as <-. reflexivity.
Qed.

End ResultText.

(** ** The further properties on the simulator *)

Section FurtherOnTheSimulator.
#[local] Existing Instance Sim.collaborators.

Ltac evaluated := vm_compute; reflexivity.
Ltac decided := apply (bool_decide_unpack _); vm_compute; exact I.

Lemma local_run_appends_witness :
  ∃ st',
    Sim.local_run (Many [0; 1]) 1 Sim.fresh_local
    = (st', inr (Result.mk None (VList [VNum 3; VNone])))
    ∧ ∃ added, run_progs st' = run_progs Sim.fresh_local ++ added ∧ length added = 2.
Proof.
  set (st' := (Sim.local_run (Many [0; 1]) 1 Sim.fresh_local).1).
  assert (Sim.local_run (Many [0; 1]) 1 Sim.fresh_local
          = (st', inr (Result.mk None (VList [VNum 3; VNone])))) as Hrun by evaluated.
  exists st'. split; [exact Hrun|].
  destruct (local_run_appends (Many [0; 1]) 1%Z ∅ ∅ Sim.fresh_local st' _ Hrun)
    as (added & Hadded & _ & Hlen).
  exists added. split; [exact Hadded | exact (Hlen I)].
Defined.

Lemma history_stays_locked_witness :
  history_locked Sim.used
  ∧ history_locked (Sim.local_run (One 2) 1 Sim.used).1.
Proof.
  assert (history_locked Sim.used) as Hlocked.
  { unfold history_locked. assert (run_progs Sim.used = [0]) as -> by evaluated.
    constructor; [|constructor]. exists (Program.lock Sim.unitA).
    split; evaluated. }
  split; [exact Hlocked|].
  destruct (Sim.local_run (One 2) 1 Sim.used) as [st' r] eqn:Hrun.
  exact (proj1 history_stays_locked (One 2) 1%Z ∅ ∅ Sim.used st' r Hlocked Hrun).
Defined.

Lemma copy_latest_threads_witness :
  samples Sim.between = SIter [VNum 3; VNone]
  ∧ val (regrefs Sim.between) 2 = VNone
  ∧ ∃ st',
      BaseEngine.copy_latest 1 Sim.between = (st', inr tt)
      ∧ samples st' = SIter []
      ∧ val (regrefs st') 2 = VNum 3.
Proof.
  split; [evaluated|]. split; [evaluated|].
  assert (∀ k, k < 2 → is_Some (Program.reg_refs Sim.unitB !! k)) as Hregisters.
  { intros [|[|k]] Hk; [by eexists|by eexists|lia]. }
  destruct (copy_latest_threads (H:=Sim.collaborators) 1 Sim.unitB [VNum 3; VNone] Sim.between
              ltac:(evaluated) ltac:(evaluated) Hregisters)
    as (st' & Hrun & Hsamples & Hstored & _).
  exists st'. split; [exact Hrun|]. split; [exact Hsamples|].
  apply (Hstored 0 2 (VNum 3)); [reflexivity|reflexivity|].
  intros k' Hk'. assert (k' = 1) as -> by (cbn in Hk'; lia). discriminate.
Defined.

Lemma continuing_unit_missing_register_witness :
  can_follow Sim.unitF (Program.lock Sim.unitA) = true
  ∧ ∃ st',
      BaseEngine.run_unit LocalEngine.class 1 ∅ ∅ (Some 0) 5 Sim.between
      = (st', inl (KeyError 1))
      ∧ samples st' = SIter []
      ∧ run_progs st' = run_progs Sim.between.
Proof.
  split; [reflexivity|].
  assert (∀ i, i < 1 → is_Some (Program.reg_refs Sim.unitF !! i)) as Hbefore.
  { intros [|i] Hi; [by eexists|lia]. }
  destruct (continuing_unit_missing_register (H:=Sim.collaborators) 1 ∅ ∅ 0 (Program.lock Sim.unitA) 5
              Sim.unitF [VNum 3; VNone] Sim.between 1
              ltac:(evaluated) ltac:(evaluated) eq_refl ltac:(evaluated)
              ltac:(cbn; lia) eq_refl Hbefore)
    as (st' & Hrun & Hsamples & _ & Hhistory & _).
  exists st'. split; [exact Hrun|]. split; [exact Hsamples | exact Hhistory].
Defined.

Lemma run_of_no_unit_witness :
  Sim.local_run (Many []) 1 Sim.fresh_local
  = (Sim.fresh_local, inl (TypeError "'NoneType' object is not iterable"))
  ∧ Sim.local_run (Many []) 1 Sim.between
    = (set_samples (SIter []) Sim.between,
       inr (Result.mk None (VList [VNum 3; VNone])))
  ∧ Sim.remote_run (Many []) (Sim.fresh_remote [Sim.ready])
    = (Sim.fresh_remote [Sim.ready], inl IndexError).
Proof.
  split; [|split].
  - exact (proj1 (run_of_no_unit 1 ∅ ∅ Sim.fresh_local) eq_refl).
  - exact (proj1 (proj2 (run_of_no_unit 1 ∅ ∅ Sim.between))
             [VNum 3; VNone] ltac:(evaluated)).
  - apply (proj2 (proj2 (run_of_no_unit 1 ∅ (<["name" := VStr "u"]> ∅)
                           (Sim.fresh_remote [Sim.ready])))).
    decided.
Defined.

Lemma unit_compiled_when_needed_witness :
  (∃ st',
     BaseEngine.run_unit LocalEngine.class 1 ∅ ∅ None 0 Sim.fresh_local = (st', inr 0)
     ∧ programs st' = <[0 := Program.lock Sim.unitA]> (programs Sim.fresh_local))
  ∧ ∃ st',
      BaseEngine.run_unit LocalEngine.class 1 ∅ ∅ None 0 Sim.fresh_other = (st', inr 5)
      ∧ ∃ P', programs st' !! 5 = Some (Program.lock P')
              ∧ Program.backend P' = Some "other".
Proof.
  split.
  - set (st' := (BaseEngine.run_unit LocalEngine.class 1 ∅ ∅ None 0 Sim.fresh_local).1).
    assert (BaseEngine.run_unit LocalEngine.class 1 ∅ ∅ None 0 Sim.fresh_local
            = (st', inr 0)) as Hrun by evaluated.
    exists st'. split; [exact Hrun|].
    destruct (unit_compiled_when_needed (H:=Sim.collaborators) 1 ∅ ∅ None 0 Sim.unitA Sim.fresh_local st' 0
                ltac:(evaluated) Hrun) as (_ & Hbound & _).
    exact (proj2 (Hbound eq_refl)).
  - set (st' := (BaseEngine.run_unit LocalEngine.class 1 ∅ ∅ None 0 Sim.fresh_other).1).
    assert (BaseEngine.run_unit LocalEngine.class 1 ∅ ∅ None 0 Sim.fresh_other
            = (st', inr 5)) as Hrun by evaluated.
    exists st'. split; [exact Hrun|].
    destruct (unit_compiled_when_needed (H:=Sim.collaborators) 1 ∅ ∅ None 0 Sim.unitA Sim.fresh_other st' 5
                ltac:(evaluated) Hrun) as (_ & _ & Hcompiled).
    destruct (Hcompiled ltac:(discriminate)) as (P' & HP' & Hlocked).
    exists P'. split; [exact Hlocked|]. injection HP' as <-. reflexivity.
Defined.

Lemma commands_applied_until_one_raises_witness :
  (∃ st',
     LocalEngine._run_program 0 ∅ Sim.workshop
     = (st', inr (Applied (Program.circuit Sim.unitA)))
     ∧ log st' = [EvApply (Command.mk (Sim.Measure (VNum 3)) [0]) ∅])
  ∧ ∃ st' before cmd rest,
      LocalEngine._run_program 6 ∅ Sim.workshop
      = (st', inl (NotApplicableError "The operation op cannot be used with sim."))
      ∧ Program.circuit Sim.unitG = before ++ cmd :: rest
      ∧ log st' = (λ c, EvApply c ∅) <$> (before ++ [cmd])
      ∧ length (log st') = 2.
Proof.
  split.
  - set (st' := (LocalEngine._run_program 0 ∅ Sim.workshop).1).
    assert (LocalEngine._run_program 0 ∅ Sim.workshop
            = (st', inr (Applied (Program.circuit Sim.unitA)))) as Hrun by evaluated.
    exists st'. split; [exact Hrun|].
    exact (proj2 (commands_applied_until_one_raises (H:=Sim.collaborators) 0 Sim.unitA ∅ Sim.workshop st' _
                    ltac:(evaluated) Hrun)).
  - set (st' := (LocalEngine._run_program 6 ∅ Sim.workshop).1).
    assert (LocalEngine._run_program 6 ∅ Sim.workshop
            = (st', inl (NotApplicableError "The operation op cannot be used with sim.")))
      as Hrun by evaluated.
    destruct (commands_applied_until_one_raises (H:=Sim.collaborators) 6 Sim.unitG ∅ Sim.workshop st' _
                ltac:(evaluated) Hrun)
      as (before & cmd & rest & b & regs & e0 & Hcircuit & Hlog & _).
    exists st', before, cmd, rest.
    split; [exact Hrun|]. split; [exact Hcircuit|]. split; [exact Hlog|]. evaluated.
Defined.

Lemma local_run_state_handle_witness :
  (∃ st', LocalEngine.run (One 0) 1 ∅ None ∅ ∅ Sim.fresh_local
          = (st', inr (Result.mk (Some 2) (VList [VNum 3; VNone]))))
  ∧ (∃ st', LocalEngine.run (One 0) 1 ∅ (Some []) ∅ ∅ Sim.fresh_local
            = (st', inr (Result.mk None (VList [VNum 3; VNone]))))
  ∧ ∃ st', LocalEngine.run (One 2) 1 ∅ None ∅ ∅ Sim.used
           = (st', inl (RuntimeError "Register mismatch: program 1, 'C'.")).
Proof.
  split; [|split].
  - eexists. evaluated.
  - eexists. evaluated.
  - set (st' := (Sim.local_run (One 2) 1 Sim.used).1).
    assert (BaseEngine._run LocalEngine.class (One 2) 1 ∅ ∅ Sim.used
            = (st', inl (RuntimeError "Register mismatch: program 1, 'C'."))) as Hrun
      by evaluated.
    exists st'.
    exact (proj2 (local_run_state_handle (One 2) 1 ∅ None ∅ ∅ Sim.used) st' _ Hrun).
Defined.

Lemma reset_then_run_begins_circuit_witness :
  history_valid Sim.used
  ∧ ∃ st' calls,
      (LocalEngine.reset (Some {["cutoff_dim" := VNum 5]});; Sim.local_run (One 0) 1)
        Sim.used
      = (st', inr (Result.mk None (VList [VNum 3; VNone])))
      ∧ log st'
        = log Sim.used
          ++ EvBackendReset {["cutoff_dim" := VNum 5]}
          :: EvBeginCircuit 2 {["cutoff_dim" := VNum 5]} :: calls
      ∧ initialisations calls = [].
Proof.
  assert (history_valid Sim.used) as Hvalid by (unfold history_valid; decided).
  split; [exact Hvalid|].
  set (st' := ((LocalEngine.reset (Some {["cutoff_dim" := VNum 5]});;
                Sim.local_run (One 0) 1) Sim.used).1).
  assert ((LocalEngine.reset (Some {["cutoff_dim" := VNum 5]});;
           Sim.local_run (One 0) 1) Sim.used
          = (st', inr (Result.mk None (VList [VNum 3; VNone])))) as Hrun by evaluated.
  destruct (reset_then_run_begins_circuit (Some {["cutoff_dim" := VNum 5]}) (One 0) 0 []
              1 ∅ ∅ Sim.used st' _ (Program.lock Sim.unitA)
              Hvalid eq_refl ltac:(evaluated) Hrun) as (calls & Hlog & Honce).
  exists st', calls. split; [exact Hrun|]. split; [|exact Honce].
  rewrite Hlog. evaluated.
Defined.

Lemma remote_run_first_unit_only_witness :
  Sim.remote_run (Many [0; 1; 2]) (Sim.fresh_remote [Sim.ready])
  = Sim.remote_run (One 0) (Sim.fresh_remote [Sim.ready])
  ∧ (Sim.remote_run (Many [0; 1; 2]) (Sim.fresh_remote [Sim.ready])).2
    = inr (Result.mk None (VList [VNum 1; VNum 2])).
Proof.
  split; [|evaluated].
  apply (remote_run_first_unit_only 0 [1; 2] 1 ∅ (<["name" := VStr "u"]> ∅)
           (Sim.fresh_remote [Sim.ready])).
  decided.
Defined.

Lemma remote_run_leaves_registers_witness :
  ∃ st',
    Sim.remote_run (One 0) (Sim.fresh_remote [Sim.ready])
    = (st', inr (Result.mk None (VList [VNum 1; VNum 2])))
    ∧ regrefs st' = regrefs (Sim.fresh_remote [Sim.ready])
    ∧ samples st' = SNone.
Proof.
  set (st' := (Sim.remote_run (One 0) (Sim.fresh_remote [Sim.ready])).1).
  assert (Sim.remote_run (One 0) (Sim.fresh_remote [Sim.ready])
          = (st', inr (Result.mk None (VList [VNum 1; VNum 2])))) as Hrun by evaluated.
  exists st'. split; [exact Hrun|].
  destruct (remote_run_leaves_registers (One 0) 1 ∅ (<["name" := VStr "u"]> ∅)
              (Sim.fresh_remote [Sim.ready]) st' _ ltac:(decided) Hrun)
    as (Hregs & Hsamples & _).
  split; [exact Hregs | exact Hsamples].
Defined.

Lemma local_run_leaves_remote_state_witness :
  ∃ st',
    LocalEngine.run (One 0) 1 ∅ None ∅ ∅ Sim.fresh_local
    = (st', inr (Result.mk (Some 2) (VList [VNum 3; VNone])))
    ∧ jobs st' = [] ∧ backend_name st' = "sim".
Proof.
  set (st' := (LocalEngine.run (One 0) 1 ∅ None ∅ ∅ Sim.fresh_local).1).
  assert (LocalEngine.run (One 0) 1 ∅ None ∅ ∅ Sim.fresh_local
          = (st', inr (Result.mk (Some 2) (VList [VNum 3; VNone])))) as Hrun
    by evaluated.
  exists st'. split; [exact Hrun|].
  destruct (local_run_leaves_remote_state (One 0) 1 ∅ None ∅ ∅ Sim.fresh_local st' _
              Hrun) as (Hjobs & _ & Hname & _).
  split; [exact Hjobs | exact Hname].
Defined.


Lemma print_applied_numbers_units_witness :
  history_valid Sim.used
  ∧ ∃ st',
      print_applied (λ P, [Program.name P]) Sim.used = (st', inr tt)
      ∧ log st' = log Sim.used ++ [EvPrint "Run 0:"; EvPrint "A"]
      ∧ run_progs st' = [0].
Proof.
  assert (history_valid Sim.used) as Hvalid by (unfold history_valid; decided).
  split; [exact Hvalid|].
  destruct (print_applied_numbers_units (H:=Sim.collaborators) (λ P, [Program.name P]) Sim.used Hvalid)
    as (st' & units & Hrun & Hunits & Hlog & Hhistory & _).
  exists st'. split; [exact Hrun|].
  assert (run_progs Sim.used = [0]) as Hused by evaluated.
  rewrite Hused in Hunits, Hhistory. split; [|exact Hhistory].
  apply Forall2_cons_inv_l in Hunits as (R & units' & HR & Hunits' & ->).
  apply Forall2_nil_inv_l in Hunits' as ->.
  assert (programs Sim.used !! 0 = Some (Program.lock Sim.unitA)) as HA by evaluated.
  pose proof (eq_trans (eq_sym HR) HA) as HReq. injection HReq as ->.
  exact Hlog.
Defined.

Lemma nothing_printed_after_reset_witness :
  history_valid Sim.used ∧ run_progs Sim.used = [0]
  ∧ ∃ st',
      (BaseEngine.reset ∅;; print_applied (λ P, [Program.name P])) Sim.used
      = (st', inr tt)
      ∧ log st' = log Sim.used.
Proof.
  assert (history_valid Sim.used) as Hvalid by (unfold history_valid; decided).
  split; [exact Hvalid|]. split; [evaluated|].
  destruct (nothing_printed_after_reset (H:=Sim.collaborators) (λ P, [Program.name P]) ∅ Sim.used Hvalid)
    as (st' & Hrun & Hlog & _).
  exists st'. split; [exact Hrun | exact Hlog].
Defined.

Lemma job_content_of_plain_name_witness :
  StarshipEngine.generate_job_content "chip0" "u" "1" "A"
  = "name u" +:+ Str.newline +:+ "version 1.0" +:+ Str.newline
    +:+ "target chip0 (shots=1)" +:+ Str.newline +:+ Str.newline +:+ "A".
Proof.
  exact (job_content_of_plain_name "chip0" "u" "1" "A" eq_refl eq_refl eq_refl eq_refl
           eq_refl eq_refl eq_refl eq_refl ltac:(discriminate) ltac:(discriminate)).
Defined.

Lemma job_content_lines_witness :
  StarshipEngine.generate_job_content "chip0" "u" "1"
    ("A" +:+ Str.newline +:+ "    B  " +:+ Str.newline +:+ Str.newline)
  = Str.join_lines ["name u"; "version 1.0"; "target chip0 (shots=1)"; ""; "A"; "B"].
Proof.
  exact (job_content_lines "chip0" "u" "1"
           ("A" +:+ Str.newline +:+ "    B  " +:+ Str.newline +:+ Str.newline)
           eq_refl eq_refl eq_refl eq_refl).
Defined.

Lemma extra_keyword_rejected_witness :
  ∃ st' msg,
    StarshipEngine.run "u" (One 0) 1 None {["priority" := VNum 1]}
      (Sim.fresh_remote [Sim.ready])
    = (st', inl (TypeError msg))
    ∧ jobs st' = [] ∧ log st' = []
    ∧ ∃ p', run_progs st' = [p']
            ∧ programs st' !! p' = Some (Program.lock Sim.unitA_chip0).
Proof.
  set (kwargs := {["priority" := VNum 1]} : options).
  assert (Forall (λ k, kwargs !! k = None) run_parameters) as Hparameters
    by (repeat constructor).
  destruct (extra_keyword_rejected "u" (One 0) 0 [] 1 None
              (Sim.fresh_remote [Sim.ready]) Sim.unitA Sim.unitA_chip0
              eq_refl eq_refl eq_refl eq_refl kwargs
              Hparameters (map_non_empty_singleton _ _))
    as (st' & msg & p' & Hrun & Hjobs & _ & Hlog & Hhistory & Hlocked).
  exists st', msg. split; [exact Hrun|]. split; [exact Hjobs|].
  split; [exact Hlog|]. exists p'. split; [exact Hhistory | exact Hlocked].
Defined.

Lemma Result_str_counts_first_axis_witness :
  ∃ r,
    Result.init (StateHandle:=nat) Sim.two_by_three = inr r
    ∧ Result_str (λ _, "state") (λ _, "samples") r
      = inr ("Result: 3 subsystems, state: None" +:+ Str.newline +:+ " samples: samples").
Proof.
  set (r := Result.mk (StateHandle:=nat) None
              (VList [VList [VNum 1; VNum 4]; VList [VNum 2; VNum 5];
                      VList [VNum 3; VNum 6]])).
  assert (Result.init (StateHandle:=nat) Sim.two_by_three = inr r) as Hinit
    by reflexivity.
  exists r. split; [exact Hinit|].
  exact (proj1 (proj2 (Result_str_counts_first_axis (λ _, "state") (λ _, "samples")
                         Sim.two_by_three r Hinit)) 2 3 [] eq_refl).
Defined.

End FurtherOnTheSimulator.
